(** * EasySSHTunnel: command codec, batch importer and tunnel supervisor

    Shallow embedding of [easy_ssh_tunnel.py]:
    - [SSHCommandParser.parse_ssh_command] and [export_to_command],
    - the import loop of [EasySSHTunnelApp.on_import_command],
    - [SSHTunnelManager] ([start_tunnel], [stop_tunnel], [is_running],
      [cleanup]),
    - the handlers of the list of configurations ([on_add_tunnel],
      [on_edit_tunnel], [on_remove_tunnel], [on_export_commands]), the
      rows of the list view ([refresh_tunnel_list], [update_status]), the
      dialog's [load_data] and [get_data], and the indicator's
      [toggle_tunnel] and [update_menu_status].

    Python strings are modelled as lists of characters.  A character is one
    of the 256 code points of Latin-1 (Rocq's [ascii]); on these, Python's
    [\s] and [str.isspace] are the code points 9-13, 28-32, 133 and 160, and
    [\d] is '0'..'9'. *)

From Stdlib Require Import Ascii String Sorted.
From stdpp Require Import gmap strings list fin_maps pretty.

Local Open Scope char_scope.
Local Open Scope list_scope.

(** ** Strings *)

Abbreviation str := (list ascii).

(** A Python string literal. *)
Definition lit (s : string) : str := list_ascii_of_string s.

Definition is_space (c : ascii) : bool :=
  let n := nat_of_ascii c in
  (((9 <=? n) && (n <=? 13)) || ((28 <=? n) && (n <=? 32))
   || (n =? 133) || (n =? 160))%nat.

Definition is_digit (c : ascii) : bool :=
  let n := nat_of_ascii c in ((48 <=? n) && (n <=? 57))%nat.

Definition ascii_eqb (a b : ascii) : bool := Ascii.eqb a b.

(** [span p s]: the longest prefix of [s] whose characters satisfy [p], and
    what follows it. *)
Fixpoint span (p : ascii -> bool) (s : str) : str * str :=
  match s with
  | [] => ([], [])
  | c :: s' =>
      if p c then let '(a, b) := span p s' in (c :: a, b) else ([], s)
  end.

(** [s.startswith(p)] *)
Fixpoint startswith (p s : str) : bool :=
  match p, s with
  | [], _ => true
  | _ :: _, [] => false
  | a :: p', b :: s' => ascii_eqb a b && startswith p' s'
  end.

(** [sep.join(l)] *)
Fixpoint join (sep : str) (l : list str) : str :=
  match l with
  | [] => []
  | [x] => x
  | x :: l' => x ++ sep ++ join sep l'
  end.

(** [s.split()]: the maximal runs of non-whitespace characters.  [cur] is
    the run being read. *)
Fixpoint split_go (cur : str) (s : str) : list str :=
  match s with
  | [] => match cur with [] => [] | _ => [cur] end
  | c :: s' =>
      if is_space c
      then match cur with [] => split_go [] s' | _ => cur :: split_go [] s' end
      else split_go (cur ++ [c]) s'
  end.

Definition split_ws (s : str) : list str := split_go [] s.

(** [s.split(sep)] for a one-character separator: always at least one
    field. *)
Fixpoint split_char (sep : ascii) (s : str) : list str :=
  match s with
  | [] => [[]]
  | c :: s' =>
      if ascii_eqb c sep then [] :: split_char sep s'
      else match split_char sep s' with
           | [] => [[c]]
           | x :: r => (c :: x) :: r
           end
  end.

Fixpoint lstrip (s : str) : str :=
  match s with
  | c :: s' => if is_space c then lstrip s' else s
  | [] => []
  end.

(** [s.strip()] *)
Definition strip (s : str) : str := rev (lstrip (rev (lstrip s))).

(** [str(n)] for a non-negative integer. *)
Definition str_of_nat (n : nat) : str := lit (pretty n).

(** ** Regular expressions of the parser

    Each pattern of [parse_ssh_command] is a sequence of character-class
    runs separated by fixed characters, where the character after a greedy
    run never belongs to the run's class.  Backtracking into a run can
    therefore never succeed, and the match at a position is the one that
    takes every run as long as possible.  The functions of this section
    read the runs with [span]; the backtracking reading of the patterns
    follows in the next section. *)

(** [[^:\s]] *)
Definition host_char (c : ascii) : bool :=
  negb (ascii_eqb c ":") && negb (is_space c).

(** [-F\s+(\d+):([^:\s]+):(\d+)] anchored at the head of [s], for the flag
    letter [F]: the three groups and the text after the match. *)
Definition match_forward_at (flag : ascii) (s : str)
  : option ((str * str * str) * str) :=
  match s with
  | c :: f :: s1 =>
      if ascii_eqb c "-" && ascii_eqb f flag then
        match span is_space s1 with
        | ([], _) => None
        | (_, s2) =>
            match span is_digit s2 with
            | ((_ :: _) as d1, c1 :: s3) =>
                if ascii_eqb c1 ":" then
                  match span host_char s3 with
                  | ((_ :: _) as h, c2 :: s4) =>
                      if ascii_eqb c2 ":" then
                        match span is_digit s4 with
                        | ((_ :: _) as d2, rest) => Some ((d1, h, d2), rest)
                        | _ => None
                        end
                      else None
                  | _ => None
                  end
                else None
            | _ => None
            end
        end
      else None
  | _ => None
  end.

(** [re.findall] of the pattern above: matches from left to right, the scan
    resuming where the previous match ended.  [skip] counts the characters
    of the previous match still to be passed over. *)
Fixpoint findall_forward (flag : ascii) (skip : nat) (s : str)
  : list (str * str * str) :=
  match s with
  | [] => []
  | _ :: s' =>
      match skip with
      | S k => findall_forward flag k s'
      | O =>
          match match_forward_at flag s with
          | Some (m, rest) =>
              m :: findall_forward flag (length s' - length rest) s'
          | None => findall_forward flag 0 s'
          end
      end
  end.

(** [-F\s+(\d+)] anchored at the head of [s]: group 1. *)
Definition match_number_at (flag : ascii) (s : str) : option str :=
  match s with
  | c :: f :: s1 =>
      if ascii_eqb c "-" && ascii_eqb f flag then
        match span is_space s1 with
        | ([], _) => None
        | (_, s2) =>
            match span is_digit s2 with
            | ((_ :: _) as d, _) => Some d
            | _ => None
            end
        end
      else None
  | _ => None
  end.

(** [re.search] of the pattern above: the leftmost match. *)
Fixpoint search_number (flag : ascii) (s : str) : option str :=
  match s with
  | [] => None
  | _ :: s' =>
      match match_number_at flag s with
      | Some d => Some d
      | None => search_number flag s'
      end
  end.

(** [[^\s@]] *)
Definition user_char (c : ascii) : bool :=
  negb (is_space c) && negb (ascii_eqb c "@").

(** [([^\s@]+)@([^\s]+?)(?:\s|$)] anchored at the head of [s].  The lazy
    host run extends until whitespace or the end of the text follows, which
    is the whole run of non-whitespace characters. *)
Definition match_user_host_at (s : str) : option (str * str) :=
  match span user_char s with
  | ((_ :: _) as u, c :: s1) =>
      if ascii_eqb c "@" then
        match span (fun c => negb (is_space c)) s1 with
        | ((_ :: _) as h, _) => Some (u, h)
        | _ => None
        end
      else None
  | _ => None
  end.

(** The alternative [\s] of [(?:^|\s)] at every position of [s]. *)
Fixpoint search_user_host_ws (s : str) : option (str * str) :=
  match s with
  | [] => None
  | c :: s' =>
      match (if is_space c then match_user_host_at s' else None) with
      | Some m => Some m
      | None => search_user_host_ws s'
      end
  end.

(** [re.search(r'(?:^|\s)([^\s@]+)@([^\s]+?)(?:\s|$)', s)]: at position 0
    the alternative [^] is tried first. *)
Definition search_user_host (s : str) : option (str * str) :=
  match match_user_host_at s with
  | Some m => Some m
  | None => search_user_host_ws s
  end.

(** ** The patterns as backtracking matchers

    The same patterns, matched the way a backtracking engine does: a
    greedy [C+] tries the longest run first and then every shorter one, a
    lazy [C+?] the shortest first; [k] is the rest of the pattern.  The
    functions above compute the same matches (lemmas
    [forward_at_backtracking], [number_at_backtracking] and
    [user_host_at_backtracking]). *)

Fixpoint greedy_plus {A} (p : ascii -> bool) (s : str)
    (k : str -> str -> option A) : option A :=
  match s with
  | c :: s' =>
      if p c then
        match greedy_plus p s' (fun run rest => k (c :: run) rest) with
        | Some r => Some r
        | None => k [c] s'
        end
      else None
  | [] => None
  end.

Fixpoint lazy_plus {A} (p : ascii -> bool) (s : str)
    (k : str -> str -> option A) : option A :=
  match s with
  | c :: s' =>
      if p c then
        match k [c] s' with
        | Some r => Some r
        | None => lazy_plus p s' (fun run rest => k (c :: run) rest)
        end
      else None
  | [] => None
  end.

Definition one_char {A} (c : ascii) (s : str) (k : str -> option A)
  : option A :=
  match s with
  | x :: s' => if ascii_eqb x c then k s' else None
  | [] => None
  end.

(** [-F\s+(\d+):([^:\s]+):(\d+)] *)
Definition re_forward_at (flag : ascii) (s : str)
  : option ((str * str * str) * str) :=
  one_char "-" s (fun s =>
  one_char flag s (fun s =>
  greedy_plus is_space s (fun _ s =>
  greedy_plus is_digit s (fun d1 s =>
  one_char ":" s (fun s =>
  greedy_plus host_char s (fun h s =>
  one_char ":" s (fun s =>
  greedy_plus is_digit s (fun d2 rest => Some ((d1, h, d2), rest))))))))).

(** [-F\s+(\d+)] *)
Definition re_number_at (flag : ascii) (s : str) : option str :=
  one_char "-" s (fun s =>
  one_char flag s (fun s =>
  greedy_plus is_space s (fun _ s =>
  greedy_plus is_digit s (fun d _ => Some d)))).

(** [([^\s@]+)@([^\s]+?)(?:\s|$)] *)
Definition re_user_host_at (s : str) : option (str * str) :=
  greedy_plus user_char s (fun u s =>
  one_char "@" s (fun s =>
  lazy_plus (fun c => negb (is_space c)) s (fun h rest =>
    match rest with
    | [] => Some (u, h)
    | c :: _ => if is_space c then Some (u, h) else None
    end))).

(** ** Data model

    A tunnel configuration is the dictionary that [parse_ssh_command]
    builds; every key it sets is a field.  The entries of ['forwards'] are
    dictionaries with three keys.  The value of ['type'] is one of three
    strings; where the source tests ['local'], ['remote'] and else, the
    last case is the dynamic one.  In a [Config] and in a [Forward] every
    key is present; a dictionary that lacks keys is a [ConfigDict]
    below. *)

Inductive TunnelType := local | remote | dynamic.

Record Forward := mkForward {
  fwd_local_port : str;
  fwd_remote_host : str;
  fwd_remote_port : str
}.

Record Config := mkConfig {
  type : TunnelType;
  ssh_port : str;
  local_port : str;
  remote_host : str;
  remote_port : str;
  ssh_user : str;
  ssh_host : str;
  name : str;
  forwards : list Forward
}.

(** [config[key] = v] *)
Definition set_type v c :=
  mkConfig v (ssh_port c) (local_port c) (remote_host c) (remote_port c)
    (ssh_user c) (ssh_host c) (name c) (forwards c).
Definition set_ssh_port v c :=
  mkConfig (type c) v (local_port c) (remote_host c) (remote_port c)
    (ssh_user c) (ssh_host c) (name c) (forwards c).
Definition set_local_port v c :=
  mkConfig (type c) (ssh_port c) v (remote_host c) (remote_port c)
    (ssh_user c) (ssh_host c) (name c) (forwards c).
Definition set_remote_host v c :=
  mkConfig (type c) (ssh_port c) (local_port c) v (remote_port c)
    (ssh_user c) (ssh_host c) (name c) (forwards c).
Definition set_remote_port v c :=
  mkConfig (type c) (ssh_port c) (local_port c) (remote_host c) v
    (ssh_user c) (ssh_host c) (name c) (forwards c).
Definition set_ssh_user v c :=
  mkConfig (type c) (ssh_port c) (local_port c) (remote_host c) (remote_port c)
    v (ssh_host c) (name c) (forwards c).
Definition set_ssh_host v c :=
  mkConfig (type c) (ssh_port c) (local_port c) (remote_host c) (remote_port c)
    (ssh_user c) v (name c) (forwards c).
Definition set_name v c :=
  mkConfig (type c) (ssh_port c) (local_port c) (remote_host c) (remote_port c)
    (ssh_user c) (ssh_host c) v (forwards c).
Definition set_forwards v c :=
  mkConfig (type c) (ssh_port c) (local_port c) (remote_host c) (remote_port c)
    (ssh_user c) (ssh_host c) (name c) v.

(** The error kinds of the specification.  The parser raises [ValueError]
    with one of two messages, [NotAnSshCommand] and [MissingUserHost]
    below; it has no error for a command without forward flag. *)
Inductive ParseError :=
  | NotAnSshCommand
  | NoForwardSpecified
  | MissingUserHost
  | OrphanLine.

(** [str(e)] *)
Definition error_message (e : ParseError) : str :=
  match e with
  | NotAnSshCommand => lit "Command must start with 'ssh'"
  | MissingUserHost => lit "Could not find user@host in command"
  | NoForwardSpecified => lit "No forward specified"
  | OrphanLine => lit "Command must start with 'ssh'"
  end.

Inductive result (A : Type) :=
  | Ok (a : A)
  | Err (e : ParseError).
Arguments Ok {A} a.
Arguments Err {A} e.

(** ** SSHCommandParser.parse_ssh_command *)

Definition default_config : Config :=
  {| type := local; ssh_port := lit "22"; local_port := [];
     remote_host := lit "localhost"; remote_port := [];
     ssh_user := []; ssh_host := []; name := []; forwards := [] |}.

(** The block [if local_matches: ...] *)
Definition apply_local_matches (ms : list (str * str * str)) (c : Config)
  : Config :=
  match ms with
  | [] => c
  | [(a, b, d)] =>
      set_remote_port d (set_remote_host b (set_local_port a
        (set_type local c)))
  | (a, _, _) :: _ =>
      set_local_port a
        (set_forwards (map (fun '(a, b, d) => mkForward a b d) ms)
           (set_type local c))
  end.

(** The block [if remote_matches: ...] *)
Definition apply_remote_matches (ms : list (str * str * str)) (c : Config)
  : Config :=
  match ms with
  | [] => c
  | [(a, b, d)] =>
      set_local_port d (set_remote_host b (set_remote_port a
        (set_type remote c)))
  | (a, _, _) :: _ =>
      set_remote_port a
        (set_forwards (map (fun '(a, b, d) => mkForward d b a) ms)
           (set_type remote c))
  end.

(** The block [if dynamic_match: ...] *)
Definition apply_dynamic_match (m : option str) (c : Config) : Config :=
  match m with
  | Some d => set_local_port d (set_type dynamic c)
  | None => c
  end.

(** The block [if port_match: ...] *)
Definition apply_port_match (m : option str) (c : Config) : Config :=
  match m with
  | Some d => set_ssh_port d c
  | None => c
  end.

(** The default name.  [config.get('forwards')] is true for a list that is
    not empty. *)
Definition default_name (c : Config) : str :=
  match type c with
  | local =>
      match forwards c with
      | _ :: _ =>
          ssh_host c ++ lit "_L" ++ str_of_nat (length (forwards c)) ++ lit "x"
      | [] => ssh_host c ++ lit "_L" ++ local_port c
      end
  | remote =>
      match forwards c with
      | _ :: _ =>
          ssh_host c ++ lit "_R" ++ str_of_nat (length (forwards c)) ++ lit "x"
      | [] => ssh_host c ++ lit "_R" ++ remote_port c
      end
  | dynamic => ssh_host c ++ lit "_D" ++ local_port c
  end.

Definition normalize (command : str) : str := join (lit " ") (split_ws command).

Definition parse_ssh_command (command : str) : result Config :=
  let command := normalize command in
  if negb (startswith (lit "ssh") command) then Err NotAnSshCommand
  else
    let config := default_config in
    let local_matches := findall_forward "L" 0 command in
    let config := apply_local_matches local_matches config in
    let remote_matches := findall_forward "R" 0 command in
    let config := apply_remote_matches remote_matches config in
    let dynamic_match := search_number "D" command in
    let config := apply_dynamic_match dynamic_match config in
    let port_match := search_number "p" command in
    let config := apply_port_match port_match config in
    match search_user_host command with
    | Some (u, h) =>
        let config := set_ssh_host h (set_ssh_user u config) in
        Ok (set_name (default_name config) config)
    | None => Err MissingUserHost
    end.

(** ** Dictionaries with missing keys

    [export_to_command] and [start_tunnel] read every key of their
    argument with [dict.get] and a default, so they take any dictionary,
    also one that lacks keys.  [ConfigDict] and [ForwardDict] are the
    dictionaries as these two functions read them: [get_k d] is the value
    of the key [k], or [None] when the key is missing, and
    [config.get(k, v)] is [default v (get_k config)].  The key ['name'] is
    read by neither function. *)

Record ForwardDict := mkForwardDict {
  get_fwd_local_port : option str;
  get_fwd_remote_host : option str;
  get_fwd_remote_port : option str
}.

Record ConfigDict := mkConfigDict {
  get_type : option TunnelType;
  get_ssh_port : option str;
  get_local_port : option str;
  get_remote_host : option str;
  get_remote_port : option str;
  get_ssh_user : option str;
  get_ssh_host : option str;
  get_forwards : option (list ForwardDict)
}.

(** A configuration with every key, as a dictionary. *)
Definition dict_of_forward (f : Forward) : ForwardDict :=
  mkForwardDict (Some (fwd_local_port f)) (Some (fwd_remote_host f))
    (Some (fwd_remote_port f)).

Definition dict_of (c : Config) : ConfigDict :=
  mkConfigDict (Some (type c)) (Some (ssh_port c)) (Some (local_port c))
    (Some (remote_host c)) (Some (remote_port c)) (Some (ssh_user c))
    (Some (ssh_host c)) (Some (map dict_of_forward (forwards c))).

Coercion dict_of : Config >-> ConfigDict.

(** ** SSHCommandParser.export_to_command *)

(** [f"{a}:{b}:{d}"] *)
Definition tunnel_spec (a b d : str) : str :=
  a ++ lit ":" ++ b ++ lit ":" ++ d.

Definition export_to_command (config : ConfigDict) : str :=
  let tunnel_type := default local (get_type config) in
  let ssh_host := default [] (get_ssh_host config) in
  let ssh_user := default [] (get_ssh_user config) in
  let ssh_port := default (lit "22") (get_ssh_port config) in
  let cmd := lit "ssh -N" in
  let cmd :=
    match tunnel_type with
    | local =>
        let forwards := default [] (get_forwards config) in
        match forwards with
        | _ :: _ =>
            fold_left
              (fun cmd forward =>
                 let local_port := default [] (get_fwd_local_port forward) in
                 let remote_host :=
                   default (lit "localhost") (get_fwd_remote_host forward) in
                 let remote_port := default [] (get_fwd_remote_port forward) in
                 cmd ++ lit " -L " ++ tunnel_spec local_port remote_host remote_port)
              forwards cmd
        | [] =>
            let local_port := default [] (get_local_port config) in
            let remote_host :=
              default (lit "localhost") (get_remote_host config) in
            let remote_port := default [] (get_remote_port config) in
            cmd ++ lit " -L " ++ tunnel_spec local_port remote_host remote_port
        end
    | remote =>
        let forwards := default [] (get_forwards config) in
        match forwards with
        | _ :: _ =>
            fold_left
              (fun cmd forward =>
                 let remote_port := default [] (get_fwd_remote_port forward) in
                 let remote_host :=
                   default (lit "localhost") (get_fwd_remote_host forward) in
                 let local_port := default [] (get_fwd_local_port forward) in
                 cmd ++ lit " -R " ++ tunnel_spec remote_port remote_host local_port)
              forwards cmd
        | [] =>
            let local_port := default [] (get_local_port config) in
            let remote_host :=
              default (lit "localhost") (get_remote_host config) in
            let remote_port := default [] (get_remote_port config) in
            cmd ++ lit " -R " ++ tunnel_spec remote_port remote_host local_port
        end
    | dynamic =>
        let local_port := default [] (get_local_port config) in
        cmd ++ lit " -D " ++ local_port
    end in
  let cmd :=
    if decide (ssh_port = lit "22") then cmd
    else cmd ++ lit " -p " ++ ssh_port in
  cmd ++ lit " " ++ ssh_user ++ lit "@" ++ ssh_host.

(** ** The command line built by SSHTunnelManager.start_tunnel

    The same reads as in [export_to_command], but for ['remote_host'],
    whose default is the empty string here. *)

Definition start_cmd (config : ConfigDict) : list str :=
  let tunnel_type := default local (get_type config) in
  let ssh_host := default [] (get_ssh_host config) in
  let ssh_user := default [] (get_ssh_user config) in
  let ssh_port := default (lit "22") (get_ssh_port config) in
  let cmd := [lit "ssh"; lit "-N"] in
  let cmd :=
    match tunnel_type with
    | local =>
        let forwards := default [] (get_forwards config) in
        match forwards with
        | _ :: _ =>
            fold_left
              (fun cmd forward =>
                 let local_port := default [] (get_fwd_local_port forward) in
                 let remote_host := default [] (get_fwd_remote_host forward) in
                 let remote_port := default [] (get_fwd_remote_port forward) in
                 cmd ++ [lit "-L"; tunnel_spec local_port remote_host remote_port])
              forwards cmd
        | [] =>
            let local_port := default [] (get_local_port config) in
            let remote_host := default [] (get_remote_host config) in
            let remote_port := default [] (get_remote_port config) in
            cmd ++ [lit "-L"; tunnel_spec local_port remote_host remote_port]
        end
    | remote =>
        let forwards := default [] (get_forwards config) in
        match forwards with
        | _ :: _ =>
            fold_left
              (fun cmd forward =>
                 let remote_port := default [] (get_fwd_remote_port forward) in
                 let remote_host := default [] (get_fwd_remote_host forward) in
                 let local_port := default [] (get_fwd_local_port forward) in
                 cmd ++ [lit "-R"; tunnel_spec remote_port remote_host local_port])
              forwards cmd
        | [] =>
            let local_port := default [] (get_local_port config) in
            let remote_host := default [] (get_remote_host config) in
            let remote_port := default [] (get_remote_port config) in
            cmd ++ [lit "-R"; tunnel_spec remote_port remote_host local_port]
        end
    | dynamic =>
        let local_port := default [] (get_local_port config) in
        cmd ++ [lit "-D"; local_port]
    end in
  cmd ++ [lit "-p"; ssh_port; ssh_user ++ lit "@" ++ ssh_host].

(** Every forward that the two functions write for a dictionary has its
    key ['remote_host']: the entries of ['forwards'] if there are any, the
    dictionary itself otherwise; a dynamic tunnel has no forward. *)
Definition remote_hosts_present (s : ConfigDict) : Prop :=
  match default local (get_type s) with
  | dynamic => True
  | _ =>
      match default [] (get_forwards s) with
      | [] => is_Some (get_remote_host s)
      | fs => Forall (fun f => is_Some (get_fwd_remote_host f)) fs
      end
  end.

(** The configuration with every key that [export_to_command] reads in a
    dictionary: each key with the default of its [get]. *)
Definition forward_read (f : ForwardDict) : Forward :=
  mkForward (default [] (get_fwd_local_port f))
    (default (lit "localhost") (get_fwd_remote_host f))
    (default [] (get_fwd_remote_port f)).

Definition config_read (s : ConfigDict) : Config :=
  mkConfig (default local (get_type s)) (default (lit "22") (get_ssh_port s))
    (default [] (get_local_port s))
    (default (lit "localhost") (get_remote_host s))
    (default [] (get_remote_port s)) (default [] (get_ssh_user s))
    (default [] (get_ssh_host s)) []
    (map forward_read (default [] (get_forwards s))).

(** ** The import loop of EasySSHTunnelApp.on_import_command

    The state of the loop.  [imported] are the configurations appended to
    [self.tunnels_config]; an entry [(n, msg)] of [error_messages] is the
    message [f"Line {n}: {msg}"]. *)

Record ImportState := mkImportState {
  imported : list Config;
  imported_count : nat;
  failed_count : nat;
  error_messages : list (nat * str);
  existing_names : list str;
  pending_name : option str;
  current_command : list str;
  command_start_line : nat
}.

(** [input_text.replace('\\\n', ' ')] *)
Fixpoint replace_continuation (s : str) : str :=
  match s with
  | c :: s1 =>
      match s1 with
      | c1 :: s2 =>
          if ascii_eqb c "\" && ascii_eqb c1 "010"
          then " " :: replace_continuation s2
          else c :: replace_continuation s1
      | [] => [c]
      end
  | [] => []
  end.

(** The loop [while f"{base_name}_{counter}" in existing_names: counter += 1].
    Every turn but the last finds one more element of [names], so
    [length names] turns are enough (lemma [free_counter_spec]). *)
Fixpoint free_counter (fuel : nat) (base_name : str) (names : list str)
    (counter : nat) : nat :=
  match fuel with
  | O => counter
  | S fuel' =>
      if bool_decide (base_name ++ lit "_" ++ str_of_nat counter ∈ names)
      then free_counter fuel' base_name names (S counter)
      else counter
  end.

(** The block [if config['name'] in existing_names: ...] *)
Definition unique_name (names : list str) (config : Config) : Config :=
  if bool_decide (name config ∈ names) then
    let base_name := name config in
    let counter := free_counter (length names) base_name names 1 in
    set_name (base_name ++ lit "_" ++ str_of_nat counter) config
  else config.

(** The [try ... except] block that imports [current_command]; a failure is
    reported for line [err_line].  [pending_name] and [current_command] are
    left to the caller. *)
Definition try_import (err_line : nat) (st : ImportState) : ImportState :=
  let full_command := join (lit " ") (current_command st) in
  match parse_ssh_command full_command with
  | Ok config =>
      let config :=
        match pending_name st with
        | Some n => set_name n config
        | None => config
        end in
      let config := unique_name (existing_names st) config in
      mkImportState (imported st ++ [config]) (S (imported_count st))
        (failed_count st) (error_messages st)
        (existing_names st ++ [name config]) (pending_name st)
        (current_command st) (command_start_line st)
  | Err e =>
      mkImportState (imported st) (imported_count st) (S (failed_count st))
        (error_messages st ++ [(err_line, error_message e)])
        (existing_names st) (pending_name st)
        (current_command st) (command_start_line st)
  end.

Definition set_pending (p : option str) (st : ImportState) : ImportState :=
  mkImportState (imported st) (imported_count st) (failed_count st)
    (error_messages st) (existing_names st) p
    (current_command st) (command_start_line st).

Definition set_current (cmd : list str) (start : nat) (st : ImportState)
  : ImportState :=
  mkImportState (imported st) (imported_count st) (failed_count st)
    (error_messages st) (existing_names st) (pending_name st) cmd start.

Definition is_nil {A} (l : list A) : bool :=
  match l with [] => true | _ => false end.

(** One turn of [for line_num, line in enumerate(lines, 1)]. *)
Definition import_line (line_num : nat) (line : str) (st : ImportState)
  : ImportState :=
  let line := strip line in
  if is_nil line then st
  else if startswith (lit "#") line then
    let st :=
      if is_nil (current_command st) then st
      else
        set_pending None
          (set_current [] (command_start_line st)
             (try_import (command_start_line st) st)) in
    let comment_text := strip (tail line) in
    if is_nil comment_text then st else set_pending (Some comment_text) st
  else if startswith (lit "ssh") line then
    let st :=
      if is_nil (current_command st) then st
      else set_pending None (try_import (command_start_line st) st) in
    set_current [line] line_num st
  else if negb (is_nil (current_command st)) then
    set_current (current_command st ++ [line]) (command_start_line st) st
  else
    mkImportState (imported st) (imported_count st) (S (failed_count st))
      (error_messages st ++ [(line_num, lit "Command must start with 'ssh'")])
      (existing_names st) (pending_name st)
      (current_command st) (command_start_line st).

(** The loop over [lines] from line number [line_num]. *)
Fixpoint import_lines (line_num : nat) (lines : list str) (st : ImportState)
  : ImportState :=
  match lines with
  | [] => st
  | line :: lines' => import_lines (S line_num) lines' (import_line line_num line st)
  end.

(** The block after the loop, [# Process the last command if any].  There
    [line_num] still has its value of the last turn. *)
Definition import_last (line_num : nat) (st : ImportState) : ImportState :=
  if is_nil (current_command st) then st
  else set_pending None (try_import line_num st).

Definition import_init (names : list str) : ImportState :=
  mkImportState [] 0 0 [] names None [] 0.

(** The import of [input_text], which is stripped and not empty, with the
    names of the configurations already stored. *)
Definition import_commands (names : list str) (input_text : str)
  : ImportState :=
  let processed_text := replace_continuation input_text in
  let lines := split_char "010" processed_text in
  import_last (length lines) (import_lines 1 lines (import_init names)).

(** ** SSHTunnelManager

    A process handle is its index in the table of the processes created so
    far.  [poll() is None] holds for a process that is [Running]. *)

Inductive ProcStatus := Running | Exited | Terminated | Killed.

Record Process := mkProcess {
  proc_cmd : list str;
  proc_status : ProcStatus
}.

Record Manager := mkManager {
  tunnels : gmap str nat;
  processes : list Process
}.

(** What the operating system decides: whether [subprocess.Popen] raises
    (and with which message), and whether a terminated process exits within
    the five seconds of [process.wait(timeout=5)]. *)
Record Env := mkEnv {
  popen_error : list str -> option str;
  exits_in_time : nat -> bool
}.

Inductive StartResult :=
  | Started
  | AlreadyRunning
  | SpawnError (cause : str).

Inductive StopResult := Stopped | NotFound.

Definition is_Running (s : ProcStatus) : bool :=
  match s with Running => true | _ => false end.

(** [process.poll() is None] *)
Definition poll_is_None (m : Manager) (p : nat) : bool :=
  match processes m !! p with
  | Some pr => is_Running (proc_status pr)
  | None => false
  end.

Definition is_running (tunnel_id : str) (m : Manager) : bool :=
  match tunnels m !! tunnel_id with
  | Some p => poll_is_None m p
  | None => false
  end.

Definition start_tunnel (env : Env) (tunnel_id : str) (config : ConfigDict)
    (m : Manager) : StartResult * Manager :=
  if is_running tunnel_id m then (AlreadyRunning, m)
  else
    let cmd := start_cmd config in
    match popen_error env cmd with
    | None =>
        let process := length (processes m) in
        (Started,
         mkManager (<[tunnel_id := process]> (tunnels m))
           (processes m ++ [mkProcess cmd Running]))
    | Some e => (SpawnError e, m)
    end.

Definition set_status (p : nat) (s : ProcStatus) (procs : list Process)
  : list Process :=
  match procs !! p with
  | Some pr => <[p := mkProcess (proc_cmd pr) s]> procs
  | None => procs
  end.

Definition stop_tunnel (env : Env) (tunnel_id : str) (m : Manager)
  : StopResult * Manager :=
  match tunnels m !! tunnel_id with
  | Some process =>
      let procs :=
        if poll_is_None m process then
          if exits_in_time env process
          then set_status process Terminated (processes m)
          else set_status process Killed (processes m)
        else processes m in
      (Stopped, mkManager (delete tunnel_id (tunnels m)) procs)
  | None => (NotFound, m)
  end.

(** [for tunnel_id in list(self.tunnels.keys()): self.stop_tunnel(tunnel_id)] *)
Definition cleanup (env : Env) (m : Manager) : Manager :=
  foldl (fun m tunnel_id => (stop_tunnel env tunnel_id m).2) m
    (map_to_list (tunnels m)).*1.

(** A running process ends by itself. *)
Definition process_exits (p : nat) (m : Manager) : Manager :=
  if poll_is_None m p
  then mkManager (tunnels m) (set_status p Exited (processes m))
  else m.

Definition new_manager : Manager := mkManager ∅ [].

Definition live_processes (m : Manager) : nat :=
  length (filter (fun pr => is_Running (proc_status pr)) (processes m)).

(** The forward flags that [export_to_command] and [start_tunnel] write for
    a configuration, each as the three parts of its [tunnel_spec] in the
    order written: the entries of ['forwards'] if there are any, the scalar
    fields otherwise, and none for a dynamic tunnel. *)
Definition emitted_forwards (c : Config) : list (str * str * str) :=
  match type c with
  | local =>
      match forwards c with
      | _ :: _ =>
          map (fun f => (fwd_local_port f, fwd_remote_host f, fwd_remote_port f))
            (forwards c)
      | [] => [(local_port c, remote_host c, remote_port c)]
      end
  | remote =>
      match forwards c with
      | _ :: _ =>
          map (fun f => (fwd_remote_port f, fwd_remote_host f, fwd_local_port f))
            (forwards c)
      | [] => [(remote_port c, remote_host c, local_port c)]
      end
  | dynamic => []
  end.

(** The matches that [parse_ssh_command] computes from a command. *)
Definition local_matches (command : str) : list (str * str * str) :=
  findall_forward "L" 0 (normalize command).
Definition remote_matches (command : str) : list (str * str * str) :=
  findall_forward "R" 0 (normalize command).
Definition dynamic_match (command : str) : option str :=
  search_number "D" (normalize command).
Definition port_match (command : str) : option str :=
  search_number "p" (normalize command).

(** The first whitespace-delimited token of a command, if any. *)
Definition first_token (command : str) : str := hd [] (split_ws command).

(** A command without match of a forward flag. *)
Definition no_forward_flag (command : str) : Prop :=
  local_matches command = [] /\ remote_matches command = [] /\
  dynamic_match command = None.

(** The entry of ['forwards'] made from a [-L] match and from a [-R]
    match. *)
Definition forward_of_local (m : str * str * str) : Forward :=
  let '(a, b, d) := m in mkForward a b d.
Definition forward_of_remote (m : str * str * str) : Forward :=
  let '(a, b, d) := m in mkForward d b a.

(** ** Words of a command line *)

Definition ws_free (s : str) : bool := forallb (fun c => negb (is_space c)) s.

(** A word of [s.split()]: not empty, no whitespace. *)
Definition is_token (s : str) : bool := negb (is_nil s) && ws_free s.

(** Words, each with a space before it. *)
Definition spaced (ts : list str) : str := concat (map (fun t => " " :: t) ts).

(** [-F a:b:d] for each forward. *)
Definition forward_tokens (flag : str) (fs : list (str * str * str))
  : list str :=
  concat (map (fun '(a, b, d) => [flag; tunnel_spec a b d]) fs).

Definition flag_tokens (c : Config) : list str :=
  match type c with
  | local => forward_tokens (lit "-L") (emitted_forwards c)
  | remote => forward_tokens (lit "-R") (emitted_forwards c)
  | dynamic => [lit "-D"; local_port c]
  end.

Definition port_tokens (c : Config) : list str :=
  if decide (ssh_port c = lit "22") then [] else [lit "-p"; ssh_port c].

Definition user_host (c : Config) : str := ssh_user c ++ lit "@" ++ ssh_host c.

(** The words of the exported command line. *)
Definition export_tokens (c : Config) : list str :=
  [lit "ssh"; lit "-N"] ++ flag_tokens c ++ port_tokens c ++ [user_host c].

(** ** Shapes of the matches *)

(** [stops p s]: a run of [p] cannot go on into [s]. *)
Definition stops (p : ascii -> bool) (s : str) : bool :=
  match s with
  | [] => true
  | c :: _ => negb (p c)
  end.

Definition starts_space (s : str) : bool :=
  match s with
  | [] => true
  | c :: _ => is_space c
  end.

(** [\d+], [[^:\s]+] and [[^\s@]+] matching a whole string. *)
Definition digits (s : str) : bool := negb (is_nil s) && forallb is_digit s.
Definition host_name (s : str) : bool := negb (is_nil s) && forallb host_char s.
Definition user_name (s : str) : bool := negb (is_nil s) && forallb user_char s.

Definition triple_ok (m : str * str * str) : bool :=
  let '(a, b, d) := m in digits a && host_name b && digits d.

(** A word inside which, and at the end of which, no match of the pattern
    of [flag] can begin. *)
Definition skippable (flag : ascii) (t : str) : Prop :=
  ws_free t = true /\ last t <> Some flag.

(** What holds of every configuration that [parse_ssh_command] returns:
    the port is a number, the user and the host are not empty and have no
    whitespace, the listen port of a dynamic tunnel is a number,
    ['forwards'] does not have exactly one entry, and the forwards written
    are triples of the pattern, or are the single default
    [:localhost:] of a local tunnel without match. *)
Record parsed (c : Config) : Prop := mkParsed {
  parsed_port : digits (ssh_port c) = true;
  parsed_user : user_name (ssh_user c) = true;
  parsed_host : is_token (ssh_host c) = true;
  parsed_listen : type c = dynamic -> digits (local_port c) = true;
  parsed_forwards : length (forwards c) <> 1;
  parsed_emitted :
    forallb triple_ok (emitted_forwards c) = true \/
    (type c = local /\ forwards c = [] /\ local_port c = [] /\
     remote_host c = lit "localhost" /\ remote_port c = [])
}.

(** ** Examples *)

(** Operating systems: one where [ssh] starts and exits when terminated,
    one where it has to be killed, one where it cannot be started. *)
Definition env_graceful : Env := mkEnv (fun _ => None) (fun _ => true).
Definition env_stubborn : Env := mkEnv (fun _ => None) (fun _ => false).
Definition env_no_ssh : Env :=
  mkEnv (fun _ => Some (lit "No such file or directory")) (fun _ => true).

(** A manager with one tunnel [web], started from nothing. *)
Definition one_tunnel : Manager :=
  (start_tunnel env_graceful (lit "web") default_config new_manager).2.

Definition newline : str := ["010"].

Definition batch_example : str :=
  lit "# my-tunnel" ++ newline ++
  lit "ssh -L 9000:localhost:9000 dave@h1" ++ newline ++
  lit "ssh -L 9000:localhost:9000 dave@h1".

Definition batch_example_no_comment : str :=
  lit "ssh -L 9000:localhost:9000 dave@h1" ++ newline ++
  lit "ssh -L 9000:localhost:9000 dave@h1".

(** A block of two lines without [user@host]. *)
Definition two_line_block : str :=
  lit "ssh -L 8080:localhost:80" ++ newline ++ lit "-p 2222".

(** Two configurations as the dialog makes them, and the text that
    [on_export_commands] shows for them. *)
Definition web_config : Config :=
  {| type := local; ssh_port := lit "22"; local_port := lit "8080";
     remote_host := lit "localhost"; remote_port := lit "80";
     ssh_user := lit "alice"; ssh_host := lit "example.com";
     name := lit "web"; forwards := [] |}.

Definition proxy_config : Config :=
  {| type := dynamic; ssh_port := lit "2222"; local_port := lit "1080";
     remote_host := lit "localhost"; remote_port := [];
     ssh_user := lit "carol"; ssh_host := lit "jump.host";
     name := lit "my proxy"; forwards := [] |}.

Definition export_example : str :=
  lit "# web" ++ newline ++
  lit "ssh -N -L 8080:localhost:80 alice@example.com" ++ newline ++
  newline ++
  lit "# my proxy" ++ newline ++
  lit "ssh -N -D 1080 -p 2222 carol@jump.host" ++ newline.

(** ** Tactics *)

(** Side conditions on a flag letter. *)
Ltac side_condition Ht :=
  solve [reflexivity | discriminate | rewrite Ht; discriminate].

(** ** The dialog, the list of configurations and the indicator

    The parts of [TunnelDialog], [EasySSHTunnelApp] and
    [SSHTunnelIndicator] that compute on configurations and on the manager;
    the widgets, the saving of the list and the messages are left out. *)

(** The entries of [TunnelDialog]; an entry holds the text it was set
    to, and the combo box the type it was set to. *)
Record DialogEntries := mkEntries {
  name_entry : str;
  type_combo : TunnelType;
  ssh_user_entry : str;
  ssh_host_entry : str;
  ssh_port_entry : str;
  local_port_entry : str;
  remote_host_entry : str;
  remote_port_entry : str
}.

(** TunnelDialog.load_data *)
Definition load_data (data : Config) : DialogEntries :=
  {| name_entry := name data; type_combo := type data;
     ssh_user_entry := ssh_user data; ssh_host_entry := ssh_host data;
     ssh_port_entry := ssh_port data; local_port_entry := local_port data;
     remote_host_entry := remote_host data;
     remote_port_entry := remote_port data |}.

(** TunnelDialog.get_data; [tunnel_data] is the configuration that is
    edited, if any, whose ['forwards'] are kept. *)
Definition get_data (d : DialogEntries) (tunnel_data : option Config)
  : Config :=
  {| name := name_entry d; type := type_combo d;
     ssh_user := ssh_user_entry d; ssh_host := ssh_host_entry d;
     ssh_port := ssh_port_entry d; local_port := local_port_entry d;
     remote_host := remote_host_entry d; remote_port := remote_port_entry d;
     forwards := match tunnel_data with
                 | Some data => forwards data
                 | None => []
                 end |}.

(** [data['name'] and data['ssh_host'] and data['ssh_user']] *)
Definition required_fields (data : Config) : bool :=
  negb (is_nil (name data)) && negb (is_nil (ssh_host data))
  && negb (is_nil (ssh_user data)).

(** EasySSHTunnelApp.on_add_tunnel, when the dialog is closed with OK. *)
Definition on_add_tunnel (data : Config) (tunnels_config : list Config)
  : list Config :=
  if required_fields data then tunnels_config ++ [data] else tunnels_config.

(** The loop of [on_edit_tunnel]: the first configuration with the name is
    replaced. *)
Fixpoint replace_first (n : str) (new_data : Config) (cs : list Config)
  : list Config :=
  match cs with
  | [] => []
  | c :: cs' =>
      if decide (name c = n) then new_data :: cs'
      else c :: replace_first n new_data cs'
  end.

(** EasySSHTunnelApp.on_edit_tunnel for the selected [config], when the
    dialog is closed with OK. *)
Definition on_edit_tunnel (config new_data : Config)
    (tunnels_config : list Config) : list Config :=
  if required_fields new_data
  then replace_first (name config) new_data tunnels_config
  else tunnels_config.

(** EasySSHTunnelApp.on_remove_tunnel for the selected [config]. *)
Definition on_remove_tunnel (env : Env) (config : Config)
    (tunnels_config : list Config) (m : Manager) : list Config * Manager :=
  let tunnel_name := name config in
  let m :=
    if is_running tunnel_name m then (stop_tunnel env tunnel_name m).2 else m in
  (filter (fun c => name c <> tunnel_name) tunnels_config, m).

(** SSHTunnelIndicator.toggle_tunnel *)
Definition toggle_tunnel (env : Env) (config : Config) (m : Manager)
  : Manager :=
  let tunnel_name := name config in
  if is_running tunnel_name m then (stop_tunnel env tunnel_name m).2
  else (start_tunnel env tunnel_name config m).2.




(** EasySSHTunnelApp.on_export_commands: the text shown, or nothing when
    there is no configuration. *)
Definition export_entry (config : Config) : str :=
  lit "# " ++ name config ++ newline ++ export_to_command config ++ newline.

Definition on_export_commands (tunnels_config : list Config) : option str :=
  match tunnels_config with
  | [] => None
  | _ => Some (join newline (map export_entry tunnels_config))
  end.

(** The head of [on_import_command]: the text of the dialog is stripped,
    and an empty text is refused. *)
Definition import_text (names : list str) (text : str) : option ImportState :=
  let input_text := strip text in
  if is_nil input_text then None else Some (import_commands names input_text).

(** The end of [on_import_command]: which result is shown.  At most five
    errors are listed, [more] is the number of the others. *)
Inductive ImportReport :=
  | ReportImported (n : nat)
  | ReportPartial (n failed : nat) (shown : list (nat * str)) (more : nat)
  | ReportFailed (shown : list (nat * str)) (more : nat)
  | ReportNothing.

Definition import_report (st : ImportState) : ImportReport :=
  let shown := take 5 (error_messages st) in
  let more := length (error_messages st) - 5 in
  if (0 <? imported_count st)%nat && (failed_count st =? 0)%nat
  then ReportImported (imported_count st)
  else if (0 <? imported_count st)%nat && (0 <? failed_count st)%nat
  then ReportPartial (imported_count st) (failed_count st) shown more
  else if (0 <? failed_count st)%nat
  then ReportFailed shown more
  else ReportNothing.

(** A row of [tunnel_store]: name, type, host, port, status and the
    configuration itself. *)
Record Row := mkRow {
  row_name : str;
  row_type : str;
  row_ssh_host : str;
  row_local_port : str;
  row_status : str;
  row_config : Config
}.

(** [config.get('type', 'local').capitalize()] *)
Definition type_label (t : TunnelType) : str :=
  match t with
  | local => lit "Local"
  | remote => lit "Remote"
  | dynamic => lit "Dynamic"
  end.

(** ["Running" if self.tunnel_manager.is_running(n) else "Stopped"] *)
Definition status_label (m : Manager) (n : str) : str :=
  if is_running n m then lit "Running" else lit "Stopped".

(** EasySSHTunnelApp.refresh_tunnel_list: the rows of the cleared store. *)
Definition refresh_tunnel_list (m : Manager) (tunnels_config : list Config)
  : list Row :=
  map (fun config =>
         let local_port :=
           match forwards config with
           | f :: _ =>
               fwd_local_port f ++ lit " (+" ++
               str_of_nat (length (forwards config) - 1) ++ lit ")"
           | [] => local_port config
           end in
         mkRow (name config) (type_label (type config))
           (ssh_user config ++ lit "@" ++ ssh_host config)
           local_port (status_label m (name config)) config)
    tunnels_config.

(** EasySSHTunnelApp.update_status *)
Definition update_status (m : Manager) (tunnel_store : list Row) : list Row :=
  map (fun row =>
         mkRow (row_name row) (row_type row) (row_ssh_host row)
           (row_local_port row) (status_label m (row_name row))
           (row_config row))
    tunnel_store.

(** ** Notions for the statements *)

(** How [import_line] reads a line. *)
Inductive LineKind := BlankLine | CommentLine | SshLine | OtherLine.

Definition line_kind (line : str) : LineKind :=
  let line := strip line in
  if is_nil line then BlankLine
  else if startswith (lit "#") line then CommentLine
  else if startswith (lit "ssh") line then SshLine
  else OtherLine.

Definition is_ssh_line (line : str) : bool :=
  match line_kind line with SshLine => true | _ => false end.

(** The lines of a text as the import loop sees them. *)
Definition import_lines_of (input_text : str) : list str :=
  split_char "010" (replace_continuation input_text).

(** A word of the form [user@host]: the first [@] has something before it
    and something after it. *)
Definition user_host_word (t : str) : Prop :=
  exists u h, t = u ++ "@" :: h /\ u <> [] /\ h <> [] /\ ("@" ∉ u).

(** What holds of the managers that the operations build: every handle is
    that of a process created, no two identifiers have the same handle, and
    every running process has an identifier. *)
Record tracked_ok (m : Manager) : Prop := mkTracked {
  tracked_valid :
    forall tunnel_id p, tunnels m !! tunnel_id = Some p ->
      (p < length (processes m))%nat;
  tracked_distinct :
    forall id1 id2 p, tunnels m !! id1 = Some p -> tunnels m !! id2 = Some p ->
      id1 = id2;
  tracked_running :
    forall p, poll_is_None m p = true ->
      exists tunnel_id, tunnels m !! tunnel_id = Some p
}.

(** A name that the export and the import keep: not empty, no whitespace
    at its ends, on one line, and no backslash at its end. *)
Definition name_kept (n : str) : Prop :=
  n <> [] /\ strip n = n /\ ("010" ∉ n) /\ last n <> Some "\".

(** What the import loop keeps of its counters and names: the counters are
    the lengths of the lists, the names seen are those stored before
    followed by those imported, and the imported names are distinct and
    new. *)
Record import_counts (names : list str) (st : ImportState) : Prop := mkCounts {
  counts_imported : imported_count st = length (imported st);
  counts_failed : failed_count st = length (error_messages st);
  counts_names : existing_names st = names ++ (name <$> imported st);
  counts_nodup : NoDup (name <$> imported st);
  counts_fresh : Forall (fun c => name c ∉ names) (imported st)
}.

(** What the import loop keeps of the lines of its errors, before the turn
    of line [line_num]: they increase, they are lines already read, and
    they are before the first line of the block that is open. *)
Record import_lines_ok (line_num : nat) (st : ImportState) : Prop := mkLinesOk {
  lines_pos : 1 <= line_num;
  lines_sorted : StronglySorted lt (error_messages st).*1;
  lines_bound : Forall (fun e : nat * str => 1 <= e.1 < line_num) (error_messages st);
  lines_block :
    current_command st <> [] ->
    1 <= command_start_line st < line_num /\
    Forall (fun e : nat * str => e.1 < command_start_line st) (error_messages st)
}.

(** The errors for a missing [user@host], the blocks that are open (one or
    none), and the lines that begin a block. *)
Definition user_host_errors (st : ImportState) : nat :=
  length (filter (fun e : nat * str => e.2 = error_message MissingUserHost)
            (error_messages st)).

Definition open_blocks (st : ImportState) : nat :=
  if is_nil (current_command st) then 0 else 1.

Definition ssh_lines (lines : list str) : nat :=
  length (filter (fun l => is_ssh_line l = true) lines).

(** A line that the loop passes over when no block is open. *)
Definition quiet_line (line : str) : Prop :=
  line_kind line = BlankLine \/ line_kind line = CommentLine.

(** The first line of the block that is open begins with [ssh]. *)
Definition block_ok (st : ImportState) : Prop :=
  current_command st <> [] ->
  startswith (lit "ssh") (hd [] (current_command st)) = true.

(** The two messages of the errors of an import. *)
Definition known_message (e : nat * str) : Prop :=
  e.2 = error_message MissingUserHost \/ e.2 = error_message NotAnSshCommand.

(** A state in which something has been counted or a block is open. *)
Definition busy (st : ImportState) : Prop :=
  1 <= imported_count st + failed_count st \/ current_command st <> [].

(** The lines that [on_export_commands] writes for a configuration, and
    the lines of the text of a list of configurations, with an empty line
    between two configurations. *)
Definition entry_lines (c : Config) : list str :=
  [lit "# " ++ name c; export_to_command c].

Definition export_lines (cs : list Config) : list str :=
  match cs with
  | [] => []
  | c :: cs' => entry_lines c ++ concat (map (fun c => [] :: entry_lines c) cs')
  end.

(** The configuration read from the exported command of [c], under the
    name of [c]. *)
Definition reimport (c : Config) : Config :=
  match parse_ssh_command (export_to_command c) with
  | Ok x => set_name (name c) x
  | Err _ => c
  end.

(** A configuration whose lines of the exported text are read again as
    they were written. *)
Definition exportable (c : Config) : Prop :=
  parsed c /\ name_kept (name c) /\ last (ssh_host c) <> Some "\" /\
  Forall (fun m : str * str * str => "@" ∉ m.1.2) (emitted_forwards c).

(** * Properties of the parser *)

Section ParseFacts.

Lemma parse_unfold command :
  parse_ssh_command command =
  if negb (startswith (lit "ssh") (normalize command)) then Err NotAnSshCommand
  else
    match search_user_host (normalize command) with
    | Some (u, h) =>
        let config :=
          set_ssh_host h (set_ssh_user u
            (apply_port_match (port_match command)
               (apply_dynamic_match (dynamic_match command)
                  (apply_remote_matches (remote_matches command)
                     (apply_local_matches (local_matches command)
                        default_config))))) in
        Ok (set_name (default_name config) config)
    | None => Err MissingUserHost
    end.
Proof. reflexivity. Qed.

Lemma startswith_ssh_join t ts :
  startswith (lit "ssh") (join (lit " ") (t :: ts)) = startswith (lit "ssh") t.
Proof.
  destruct ts as [|t' ts]; [reflexivity|].
  change (join (lit " ") (t :: t' :: ts))
    with (t ++ lit " " ++ join (lit " ") (t' :: ts)).
  destruct t as [|a [|b [|c t]]]; cbn;
    repeat (destruct (ascii_eqb _ _); cbn); reflexivity.
Qed.

Lemma startswith_ssh_normalize command :
  startswith (lit "ssh") (normalize command) =
  startswith (lit "ssh") (first_token command).
Proof.
  unfold normalize, first_token.
  destruct (split_ws command) as [|t ts]; [reflexivity|].
  apply startswith_ssh_join.
Qed.

(** The parser has no error for a missing forward flag. *)
Lemma parse_never_NoForwardSpecified command :
  parse_ssh_command command <> Err NoForwardSpecified.
Proof.
  rewrite parse_unfold.
  destruct (negb _); [discriminate|].
  destruct (search_user_host _) as [[u h]|]; discriminate.
Qed.

(** The examples of the parser. *)
Lemma parse_examples :
  (exists c,
     parse_ssh_command (lit "ssh -L 8080:localhost:80 alice@example.com") = Ok c /\
     type c = local /\ forwards c = [] /\
     emitted_forwards c = [(lit "8080", lit "localhost", lit "80")] /\
     ssh_user c = lit "alice" /\ ssh_host c = lit "example.com" /\
     ssh_port c = lit "22" /\ name c = lit "example.com_L8080") /\
  (exists c,
     parse_ssh_command
       (lit "ssh -L 27017:mongo-0:27017 -L 27018:mongo-1:27017 -p 4022 bob@db.internal")
       = Ok c /\
     type c = local /\
     forwards c = [mkForward (lit "27017") (lit "mongo-0") (lit "27017");
                   mkForward (lit "27018") (lit "mongo-1") (lit "27017")] /\
     ssh_port c = lit "4022" /\ name c = lit "db.internal_L2x") /\
  (exists c,
     parse_ssh_command (lit "ssh -D 1080 carol@jump.host") = Ok c /\
     type c = dynamic /\ forwards c = [] /\ local_port c = lit "1080" /\
     name c = lit "jump.host_D1080").
Proof.
  repeat split; eexists; (split; [vm_compute; reflexivity|]);
    repeat split; reflexivity.
Qed.

End ParseFacts.

(** ** C5: which commands are rejected as not being ssh commands *)

(** C5, as stated, fails: the first token of
    [sshd -L 8080:localhost:80 alice@example.com] is not [ssh], yet the
    command is accepted. *)
Lemma C5_prefix_accepted :
  let command := lit "sshd -L 8080:localhost:80 alice@example.com" in
  first_token command <> lit "ssh" /\
  parse_ssh_command command <> Err NotAnSshCommand /\
  exists config, parse_ssh_command command = Ok config.
Proof.
  cbv zeta. split; [|split].
  - vm_compute. discriminate.
  - vm_compute. discriminate.
  - eexists. vm_compute. reflexivity.
Qed.

(** C5 (amended): [parse_ssh_command] fails with [NotAnSshCommand] exactly
    when the first whitespace-delimited token of the command does not begin
    with the three characters [ssh] (which includes the command without any
    token); a first token such as [sshd] or [ssh2] is accepted. *)
Theorem C5_not_an_ssh_command_iff command :
  parse_ssh_command command = Err NotAnSshCommand <->
  startswith (lit "ssh") (first_token command) = false.
Proof.
  rewrite parse_unfold, startswith_ssh_normalize.
  destruct (startswith (lit "ssh") (first_token command)); cbn.
  - split; [|discriminate].
    destruct (search_user_host _) as [[u h]|]; discriminate.
  - split; reflexivity.
Qed.

(** ** C4: commands without forward flag *)

(** C4, as stated, fails: [ssh hello world] begins with [ssh] and has no
    forward flag, and the error is [MissingUserHost]. *)
Lemma C4_ssh_hello_world :
  let command := lit "ssh hello world" in
  startswith (lit "ssh") (normalize command) = true /\
  no_forward_flag command /\
  parse_ssh_command command = Err MissingUserHost /\
  parse_ssh_command command <> Err NoForwardSpecified.
Proof.
  cbv zeta. split; [|split; [|split]].
  - vm_compute. reflexivity.
  - repeat split; vm_compute; reflexivity.
  - vm_compute. reflexivity.
  - vm_compute. discriminate.
Qed.

(** C4 (amended): a command that begins with [ssh] and has no [-L], [-R] or
    [-D] match never fails with [NoForwardSpecified]: it fails with
    [MissingUserHost] when it has no [user@host] token, and otherwise it is
    accepted as a local tunnel with no forwards, empty ports, remote host
    [localhost] and the name [<host>_L]. *)
Theorem C4_no_forward_flag command :
  startswith (lit "ssh") (normalize command) = true ->
  no_forward_flag command ->
  parse_ssh_command command <> Err NoForwardSpecified /\
  match search_user_host (normalize command) with
  | None => parse_ssh_command command = Err MissingUserHost
  | Some (u, h) =>
      exists config,
        parse_ssh_command command = Ok config /\
        type config = local /\ forwards config = [] /\
        local_port config = [] /\ remote_host config = lit "localhost" /\
        remote_port config = [] /\
        ssh_user config = u /\ ssh_host config = h /\
        name config = h ++ lit "_L"
  end.
Proof.
  intros Hssh (HL & HR & HD).
  split; [apply parse_never_NoForwardSpecified|].
  rewrite parse_unfold, Hssh, HL, HR, HD. cbn [negb].
  destruct (search_user_host (normalize command)) as [[u h]|]; [|reflexivity].
  eexists. split; [reflexivity|].
  destruct (port_match command); cbn; rewrite ?app_nil_r; repeat split; reflexivity.
Qed.

Lemma C4_no_forward_flag_witness :
  parse_ssh_command (lit "ssh hello world") = Err MissingUserHost /\
  exists config,
    parse_ssh_command (lit "ssh -p 2222 alice@example.com") = Ok config /\
    type config = local /\ forwards config = [] /\
    name config = lit "example.com_L".
Proof.
  split.
  - pose proof (C4_no_forward_flag (lit "ssh hello world")) as H.
    destruct H as [_ H].
    + vm_compute. reflexivity.
    + repeat split; vm_compute; reflexivity.
    + exact H.
  - pose proof (C4_no_forward_flag (lit "ssh -p 2222 alice@example.com")) as H.
    destruct H as [_ H].
    + vm_compute. reflexivity.
    + repeat split; vm_compute; reflexivity.
    + destruct H as (config & Hp & Ht & Hf & _ & _ & _ & _ & _ & Hn).
      exists config. repeat split; assumption.
Defined.

(** ** C1: type resolution *)

Lemma apply_local_matches_eq ms c :
  apply_local_matches ms c =
  match ms with
  | [] => c
  | [(a, b, d)] =>
      set_remote_port d (set_remote_host b (set_local_port a (set_type local c)))
  | (a, _, _) :: _ =>
      set_local_port a (set_forwards (map forward_of_local ms) (set_type local c))
  end.
Proof.
  destruct ms as [|[[a b] d] [|m ms]]; reflexivity.
Qed.

Lemma apply_remote_matches_eq ms c :
  apply_remote_matches ms c =
  match ms with
  | [] => c
  | [(a, b, d)] =>
      set_local_port d (set_remote_host b (set_remote_port a (set_type remote c)))
  | (a, _, _) :: _ =>
      set_remote_port a (set_forwards (map forward_of_remote ms) (set_type remote c))
  end.
Proof.
  destruct ms as [|[[a b] d] [|m ms]]; reflexivity.
Qed.

Lemma local_parts_of_local ms :
  map (fun f => (fwd_local_port f, fwd_remote_host f, fwd_remote_port f))
    (map forward_of_local ms) = ms.
Proof.
  induction ms as [|[[a b] d] ms IH]; [reflexivity|].
  cbn. f_equal. exact IH.
Qed.

Lemma remote_parts_of_remote ms :
  map (fun f => (fwd_remote_port f, fwd_remote_host f, fwd_local_port f))
    (map forward_of_remote ms) = ms.
Proof.
  induction ms as [|[[a b] d] ms IH]; [reflexivity|].
  cbn. f_equal. exact IH.
Qed.

(** The configuration returned for an accepted command. *)
Lemma parse_Ok_inv command config :
  parse_ssh_command command = Ok config ->
  exists u h,
    search_user_host (normalize command) = Some (u, h) /\
    startswith (lit "ssh") (normalize command) = true /\
    let c :=
      set_ssh_host h (set_ssh_user u
        (apply_port_match (port_match command)
           (apply_dynamic_match (dynamic_match command)
              (apply_remote_matches (remote_matches command)
                 (apply_local_matches (local_matches command)
                    default_config))))) in
    config = set_name (default_name c) c.
Proof.
  rewrite parse_unfold.
  destruct (startswith _ _); [|discriminate]. cbn [negb].
  destruct (search_user_host _) as [[u h]|]; [|discriminate].
  intros [= <-]. exists u, h. repeat split.
Qed.




(** * Properties of the tunnel manager *)

Section Supervisor.

Context (env : Env).

Lemma stop_tunnel_tunnels tunnel_id m :
  tunnels (stop_tunnel env tunnel_id m).2 = delete tunnel_id (tunnels m).
Proof.
  unfold stop_tunnel.
  destruct (tunnels m !! tunnel_id) as [p|] eqn:E; cbn; [reflexivity|].
  symmetry. apply delete_id. exact E.
Qed.

Lemma is_running_untracked tunnel_id m :
  tunnels m !! tunnel_id = None -> is_running tunnel_id m = false.
Proof. unfold is_running. intros ->. reflexivity. Qed.

Lemma cleanup_fold_tunnels ids m k :
  tunnels (foldl (fun m tunnel_id => (stop_tunnel env tunnel_id m).2) m ids) !! k
  = if decide (k ∈ ids) then None else tunnels m !! k.
Proof.
  revert m. induction ids as [|tunnel_id ids IH]; intros m; cbn [foldl].
  - rewrite decide_False by apply not_elem_of_nil. reflexivity.
  - rewrite IH, stop_tunnel_tunnels.
    destruct (decide (k ∈ ids)) as [Hin|Hin].
    + rewrite decide_True by (right; exact Hin). reflexivity.
    + destruct (decide (k = tunnel_id)) as [->|Hne].
      * rewrite decide_True by left. apply lookup_delete_eq.
      * rewrite decide_False by (intros [?|?]%elem_of_cons; contradiction).
        apply lookup_delete_ne. congruence.
Qed.

Lemma set_status_length p s procs :
  length (set_status p s procs) = length procs.
Proof.
  unfold set_status. destruct (procs !! p); [apply length_insert|reflexivity].
Qed.

Lemma live_processes_spawn m cmd :
  live_processes (mkManager (tunnels m) (processes m ++ [mkProcess cmd Running]))
  = S (live_processes m).
Proof.
  unfold live_processes. cbn [processes].
  rewrite filter_app, length_app. cbn.
  rewrite decide_True by exact I. cbn. lia.
Qed.

Lemma start_tunnel_Started_running tunnel_id config m m1 :
  start_tunnel env tunnel_id config m = (Started, m1) ->
  is_running tunnel_id m1 = true /\
  live_processes m1 = S (live_processes m) /\
  exists p, tunnels m1 !! tunnel_id = Some p /\
            processes m1 !! p = Some (mkProcess (start_cmd config) Running).
Proof.
  unfold start_tunnel.
  destruct (is_running tunnel_id m); [discriminate|].
  destruct (popen_error env (start_cmd config)); [discriminate|].
  intros [= <-].
  assert (Hl : (processes m ++ [mkProcess (start_cmd config) Running])
               !! length (processes m)
               = Some (mkProcess (start_cmd config) Running)).
  { apply list_lookup_middle. reflexivity. }
  split; [|split].
  - unfold is_running, poll_is_None. cbn [tunnels processes].
    rewrite lookup_insert_eq, Hl. reflexivity.
  - apply live_processes_spawn.
  - exists (length (processes m)). cbn [tunnels processes].
    rewrite lookup_insert_eq. split; [reflexivity|exact Hl].
Qed.

End Supervisor.

(** ** C6: stop *)

(** C6: [stop_tunnel] on an identifier without entry fails with [NotFound]
    and changes nothing; on an identifier with an entry it succeeds and
    afterwards, whether the process had already ended, exited in time after
    [terminate] or was killed, the entry is removed (the other entries are
    as before), the process does not run and [is_running] is false. *)
Theorem C6_stop_tunnel env tunnel_id m :
  (tunnels m !! tunnel_id = None ->
   stop_tunnel env tunnel_id m = (NotFound, m)) /\
  (forall p, tunnels m !! tunnel_id = Some p ->
   exists m',
     stop_tunnel env tunnel_id m = (Stopped, m') /\
     tunnels m' = delete tunnel_id (tunnels m) /\
     tunnels m' !! tunnel_id = None /\
     poll_is_None m' p = false /\
     is_running tunnel_id m' = false).
Proof.
  split.
  - intros E. unfold stop_tunnel. rewrite E. reflexivity.
  - intros p E. unfold stop_tunnel. rewrite E.
    eexists. split; [reflexivity|]. cbn [tunnels].
    split; [reflexivity|]. split; [apply lookup_delete_eq|].
    split.
    + unfold poll_is_None at 1. cbn [processes].
      destruct (poll_is_None m p) eqn:Hp.
      * unfold poll_is_None in Hp.
        destruct (processes m !! p) as [pr|] eqn:Hpr; [|discriminate].
        assert (p < length (processes m)) by (eapply lookup_lt_Some; eassumption).
        destruct (exits_in_time env p); unfold set_status; rewrite Hpr;
          rewrite list_lookup_insert_eq by assumption; reflexivity.
      * exact Hp.
    + apply is_running_untracked. cbn [tunnels]. apply lookup_delete_eq.
Qed.

Lemma C6_stop_tunnel_witness :
  stop_tunnel env_stubborn (lit "db") one_tunnel = (NotFound, one_tunnel) /\
  exists m',
    stop_tunnel env_stubborn (lit "web") one_tunnel = (Stopped, m') /\
    tunnels m' !! lit "web" = None /\ is_running (lit "web") m' = false.
Proof.
  destruct (C6_stop_tunnel env_stubborn (lit "db") one_tunnel) as [H1 _].
  destruct (C6_stop_tunnel env_stubborn (lit "web") one_tunnel) as [_ H2].
  split.
  - apply H1. vm_compute. reflexivity.
  - destruct (H2 0) as (m' & Hs & _ & Hl & _ & Hr).
    + vm_compute. reflexivity.
    + exists m'. repeat split; assumption.
Defined.

(** ** C7: start *)

(** C7: when [tunnel_id] has an entry whose process runs, [start_tunnel]
    fails with [AlreadyRunning] and the manager, with its processes, is as
    before.  Hence after a successful start a second start of the same
    identifier fails with [AlreadyRunning] and leaves the one process that
    the first start added; from a new manager that is exactly one running
    process.  When [Popen] raises, [start_tunnel] fails with [SpawnError]
    and the manager is as before: no entry is registered. *)
Theorem C7_start_tunnel env env' tunnel_id config config' m :
  (is_running tunnel_id m = true ->
   start_tunnel env tunnel_id config m = (AlreadyRunning, m)) /\
  (forall m1,
     start_tunnel env tunnel_id config m = (Started, m1) ->
     start_tunnel env' tunnel_id config' m1 = (AlreadyRunning, m1) /\
     live_processes m1 = S (live_processes m) /\
     (m = new_manager -> live_processes m1 = 1)) /\
  (forall cause,
     is_running tunnel_id m = false ->
     popen_error env (start_cmd config) = Some cause ->
     start_tunnel env tunnel_id config m = (SpawnError cause, m)).
Proof.
  split; [|split].
  - intros H. unfold start_tunnel. rewrite H. reflexivity.
  - intros m1 H.
    destruct (start_tunnel_Started_running env _ _ _ _ H) as (Hr & Hl & _).
    split; [|split].
    + unfold start_tunnel. rewrite Hr. reflexivity.
    + exact Hl.
    + intros ->. rewrite Hl. reflexivity.
  - intros cause Hr He. unfold start_tunnel. rewrite Hr, He. reflexivity.
Qed.

Lemma C7_start_tunnel_witness :
  start_tunnel env_graceful (lit "web") default_config one_tunnel
    = (AlreadyRunning, one_tunnel) /\
  live_processes one_tunnel = 1 /\
  start_tunnel env_no_ssh (lit "web") default_config new_manager
    = (SpawnError (lit "No such file or directory"), new_manager).
Proof.
  destruct (C7_start_tunnel env_graceful env_graceful (lit "web")
              default_config default_config new_manager) as (_ & H2 & _).
  destruct (C7_start_tunnel env_no_ssh env_no_ssh (lit "web")
              default_config default_config new_manager) as (_ & _ & H3).
  destruct (H2 one_tunnel) as (Ha & _ & Hl).
  - vm_compute. reflexivity.
  - split; [exact Ha|]. split; [apply Hl; reflexivity|].
    apply H3; vm_compute; reflexivity.
Defined.

(** ** C10: cleanup *)

(** C10: after [cleanup] the mapping is empty, and [is_running] is false
    for every identifier, whatever the state of the processes was. *)
Theorem C10_cleanup_empties env m :
  tunnels (cleanup env m) = ∅ /\
  forall tunnel_id,
    tunnels (cleanup env m) !! tunnel_id = None /\
    is_running tunnel_id (cleanup env m) = false.
Proof.
  assert (H : forall k, tunnels (cleanup env m) !! k = None).
  { intros k. unfold cleanup. rewrite cleanup_fold_tunnels.
    destruct (decide (k ∈ (map_to_list (tunnels m)).*1)) as [Hin|Hin];
      [reflexivity|].
    destruct (tunnels m !! k) as [p|] eqn:E; [|reflexivity].
    exfalso. apply Hin.
    apply list_elem_of_fmap. exists (k, p). split; [reflexivity|].
    apply elem_of_map_to_list. exact E. }
  split.
  - apply map_empty. exact H.
  - intros tunnel_id. split; [apply H|].
    apply is_running_untracked, H.
Qed.

(** * Properties of the import loop *)

Section UniqueName.

Lemma lit_inj s1 s2 : lit s1 = lit s2 -> s1 = s2.
Proof.
  unfold lit. intros H.
  rewrite <- (string_of_list_ascii_of_string s1),
          <- (string_of_list_ascii_of_string s2), H.
  reflexivity.
Qed.

Lemma candidate_inj (base_name : str) (j k : nat) :
  base_name ++ lit "_" ++ str_of_nat j = base_name ++ lit "_" ++ str_of_nat k ->
  j = k.
Proof.
  intros H. apply app_inv_head in H. apply app_inv_head in H.
  apply lit_inj in H. apply (inj pretty) in H. exact H.
Qed.

(** More candidates than names cannot all be names. *)
Lemma candidates_pigeonhole (base_name : str) (names : list str) (c0 n : nat) :
  (forall k, c0 <= k < c0 + n ->
     base_name ++ lit "_" ++ str_of_nat k ∈ names) ->
  n <= length names.
Proof.
  intros H.
  set (cand := fun k => base_name ++ lit "_" ++ str_of_nat k).
  assert (Hsub : (cand <$> seq c0 n) ⊆+ names).
  { apply NoDup_submseteq.
    - apply NoDup_fmap_2_strong; [|apply NoDup_seq].
      intros j k _ _ Hjk. exact (candidate_inj _ _ _ Hjk).
    - intros x (k & -> & Hk%elem_of_seq)%list_elem_of_fmap. apply H. lia. }
  apply submseteq_length in Hsub.
  rewrite length_fmap, length_seq in Hsub. exact Hsub.
Qed.

(** The loop ends within its fuel: the counter it returns is the least one
    from [c] whose candidate name is free. *)
Lemma free_counter_spec (base_name : str) (names : list str) fuel c0 c :
  c0 <= c ->
  fuel + (c - c0) = length names ->
  (forall k, c0 <= k < c -> base_name ++ lit "_" ++ str_of_nat k ∈ names) ->
  let r := free_counter fuel base_name names c in
  c <= r /\
  (base_name ++ lit "_" ++ str_of_nat r ∉ names) /\
  (forall k, c0 <= k < r -> base_name ++ lit "_" ++ str_of_nat k ∈ names).
Proof.
  revert c. induction fuel as [|fuel IH]; intros c Hle Hlen Hin; cbn.
  - split; [lia|]. split; [|exact Hin].
    intros Hc.
    assert (S (c - c0) <= length names); [|lia].
    apply (candidates_pigeonhole base_name names c0).
    intros k Hk. destruct (decide (k = c)) as [->|]; [exact Hc|].
    apply Hin. lia.
  - case_bool_decide as Hc.
    + destruct (IH (S c)) as (H1 & H2 & H3); [lia|lia| |].
      * intros k Hk. destruct (decide (k = c)) as [->|]; [exact Hc|].
        apply Hin. lia.
      * split; [lia|]. split; assumption.
    + split; [lia|]. split; assumption.
Qed.

(** The name chosen by [unique_name] is not one of [names]; it is the name
    itself when that is free, and else the name with the least suffix
    [_1], [_2], ... that is free. *)
Lemma unique_name_spec names config :
  (name (unique_name names config) ∉ names) /\
  (name config ∉ names -> unique_name names config = config) /\
  (name config ∈ names ->
   exists r, 1 <= r /\
     name (unique_name names config) = name config ++ lit "_" ++ str_of_nat r /\
     forall k, 1 <= k < r -> name config ++ lit "_" ++ str_of_nat k ∈ names).
Proof.
  unfold unique_name. case_bool_decide as Hn.
  - destruct (free_counter_spec (name config) names (length names) 1 1)
      as (H1 & H2 & H3); [lia|lia|intros k Hk; lia|].
    split; [exact H2|]. split; [contradiction|].
    intros _. eexists. split; [exact H1|]. split; [reflexivity|exact H3].
  - split; [exact Hn|]. split; [reflexivity|contradiction].
Qed.

End UniqueName.

(** ** C8: the batch example *)

(** C8, as stated, fails: the second accepted configuration is not named
    with a suffix [_1]. *)
Lemma C8_second_not_suffixed :
  ~ exists c1 c2 base_name,
      imported (import_commands [] batch_example) = [c1; c2] /\
      name c1 = lit "my-tunnel" /\
      name c2 = base_name ++ lit "_1".
Proof.
  intros (c1 & c2 & base_name & Hi & _ & H2).
  assert (Hn : (name <$> imported (import_commands [] batch_example))
               = [lit "my-tunnel"; lit "h1_L9000"])
    by (vm_compute; reflexivity).
  rewrite Hi in Hn. cbn in Hn. injection Hn as _ Hn.
  rewrite H2 in Hn. apply (f_equal (@rev ascii)) in Hn.
  rewrite rev_app_distr in Hn. cbn in Hn. discriminate.
Qed.

(** C8 (amended): on the example, with no name stored before, exactly two
    configurations are accepted and nothing fails; the first is named
    [my-tunnel] from the comment and the second keeps its default name
    [h1_L9000], because [my-tunnel] is the only name seen before it.  The
    suffix [_1] is given when the name is taken, as for the second
    configuration of the same two commands without the comment line. *)
Theorem C8_batch_example :
  let st := import_commands [] batch_example in
  (name <$> imported st) = [lit "my-tunnel"; lit "h1_L9000"] /\
  imported_count st = 2 /\ failed_count st = 0 /\ error_messages st = [] /\
  (name <$> imported (import_commands [] batch_example_no_comment))
    = [lit "h1_L9000"; lit "h1_L9000_1"].
Proof. cbv zeta. repeat split; vm_compute; reflexivity. Qed.

(** ** C9: the line of a reported error *)

(** When the loop imports a block (at a comment line or at the next [ssh]
    line) and the block fails to parse, the error is reported for the line
    where the block began, and [pending_name] is cleared before the line is
    handled. *)
Lemma import_line_flush_error line_num line st e :
  current_command st <> [] ->
  strip line <> [] ->
  parse_ssh_command (join (lit " ") (current_command st)) = Err e ->
  (startswith (lit "#") (strip line) = true ->
   let st' := import_line line_num line st in
   error_messages st' =
     error_messages st ++ [(command_start_line st, error_message e)] /\
   failed_count st' = S (failed_count st) /\
   current_command st' = [] /\
   pending_name st' =
     (if is_nil (strip (tail (strip line))) then None
      else Some (strip (tail (strip line))))) /\
  (startswith (lit "#") (strip line) = false ->
   startswith (lit "ssh") (strip line) = true ->
   let st' := import_line line_num line st in
   error_messages st' =
     error_messages st ++ [(command_start_line st, error_message e)] /\
   failed_count st' = S (failed_count st) /\
   current_command st' = [strip line] /\
   command_start_line st' = line_num /\
   pending_name st' = None).
Proof.
  intros Hc Hl He. unfold import_line.
  destruct (strip line) as [|ch l] eqn:El; [contradiction|]. cbn [is_nil].
  destruct (current_command st) as [|x xs] eqn:Ec; [contradiction|].
  cbn [is_nil negb].
  split.
  - intros ->. unfold try_import. rewrite Ec, He. cbv zeta.
    destruct (is_nil (strip (tail (ch :: l)))); repeat split.
  - intros -> ->. unfold try_import. rewrite Ec, He. cbv zeta. repeat split.
Qed.

(** The block that is still open at the end of the text is imported by
    [import_last]; a failure there is reported for the last line of the
    text. *)
Lemma import_last_error line_num st e :
  current_command st <> [] ->
  parse_ssh_command (join (lit " ") (current_command st)) = Err e ->
  error_messages (import_last line_num st) =
    error_messages st ++ [(line_num, error_message e)] /\
  pending_name (import_last line_num st) = None.
Proof.
  intros Hc He. unfold import_last.
  destruct (current_command st) as [|x xs] eqn:Ec; [contradiction|].
  cbn [is_nil]. unfold try_import. rewrite Ec, He. split; reflexivity.
Qed.

(** C9 at a block of two lines without [user@host] that ends the text: the
    block begins at line 1 and its error is reported for line 2.  The same
    block followed by a comment line is reported for line 1. *)
Theorem C9_last_block_error_line :
  let lines := split_char "010" (replace_continuation two_line_block) in
  let st := import_lines 1 lines (import_init []) in
  current_command st = [lit "ssh -L 8080:localhost:80"; lit "-p 2222"] /\
  command_start_line st = 1 /\
  error_messages (import_commands [] two_line_block)
    = [(2, error_message MissingUserHost)] /\
  error_messages (import_commands [] (two_line_block ++ newline ++ lit "# end"))
    = [(1, error_message MissingUserHost)].
Proof. cbv zeta. repeat split; vm_compute; reflexivity. Qed.

(** * Words of a command line *)

Section Words.

Lemma spaced_cons t ts : spaced (t :: ts) = " " :: t ++ spaced ts.
Proof. reflexivity. Qed.

Lemma spaced_app ts1 ts2 : spaced (ts1 ++ ts2) = spaced ts1 ++ spaced ts2.
Proof. unfold spaced. rewrite map_app, concat_app. reflexivity. Qed.

Lemma join_spaced t ts : join (lit " ") (t :: ts) = t ++ spaced ts.
Proof.
  revert t. induction ts as [|t' ts IH]; intros t.
  - cbn. rewrite app_nil_r. reflexivity.
  - change (join (lit " ") (t :: t' :: ts))
      with (t ++ lit " " ++ join (lit " ") (t' :: ts)).
    rewrite IH. reflexivity.
Qed.

Lemma ws_free_app a b : ws_free (a ++ b) = ws_free a && ws_free b.
Proof. apply forallb_app. Qed.

Lemma split_go_token cur t rest :
  ws_free t = true -> split_go cur (t ++ rest) = split_go (cur ++ t) rest.
Proof.
  revert cur. induction t as [|c t IH]; intros cur H; cbn.
  - rewrite app_nil_r. reflexivity.
  - cbn in H. apply andb_prop in H as [Hc Ht].
    apply negb_true_iff in Hc. rewrite Hc, IH by exact Ht.
    rewrite <- app_assoc. reflexivity.
Qed.

Lemma split_go_spaced ts :
  forallb is_token ts = true -> split_go [] (spaced ts) = ts.
Proof.
  induction ts as [|t ts IH]; intros H; [reflexivity|].
  cbn in H. apply andb_prop in H as [Ht Hts].
  apply andb_prop in Ht as [Hne Hws].
  rewrite spaced_cons.
  change (split_go [] (" " :: t ++ spaced ts)) with (split_go [] (t ++ spaced ts)).
  rewrite split_go_token by exact Hws. cbn [app].
  destruct t as [|c t]; [discriminate|].
  destruct ts as [|t' ts].
  - reflexivity.
  - rewrite spaced_cons.
    change (split_go (c :: t) (" " :: t' ++ spaced ts))
      with ((c :: t) :: split_go [] (t' ++ spaced ts)).
    f_equal. exact (IH Hts).
Qed.

(** Splitting a line of words at whitespace gives the words back. *)
Lemma split_ws_join ts :
  forallb is_token ts = true -> split_ws (join (lit " ") ts) = ts.
Proof.
  destruct ts as [|t ts]; [reflexivity|]. intros H.
  rewrite join_spaced. change (t ++ spaced ts) with (tail (spaced (t :: ts))).
  rewrite <- (split_go_spaced (t :: ts)) at 2 by exact H.
  reflexivity.
Qed.

Lemma normalize_join ts :
  forallb is_token ts = true -> normalize (join (lit " ") ts) = join (lit " ") ts.
Proof. intros H. unfold normalize. rewrite split_ws_join by exact H. reflexivity. Qed.

Lemma fold_left_append {A} (f : A -> str) (l : list A) (cmd : str) :
  fold_left (fun cmd x => cmd ++ f x) l cmd = cmd ++ concat (map f l).
Proof.
  revert cmd. induction l as [|x l IH]; intros cmd; cbn.
  - rewrite app_nil_r. reflexivity.
  - rewrite IH, <- app_assoc. reflexivity.
Qed.

Lemma fold_left_extend {A} (f : A -> list str) (l : list A) (cmd : list str) :
  fold_left (fun cmd x => cmd ++ f x) l cmd = cmd ++ concat (map f l).
Proof.
  revert cmd. induction l as [|x l IH]; intros cmd; cbn.
  - rewrite app_nil_r. reflexivity.
  - rewrite IH, <- app_assoc. reflexivity.
Qed.

Lemma spaced_forward_tokens flag fs :
  spaced (forward_tokens flag fs) =
  concat (map (fun '(a, b, d) => lit " " ++ flag ++ lit " " ++ tunnel_spec a b d) fs).
Proof.
  induction fs as [|[[a b] d] fs IH]; [reflexivity|].
  change (forward_tokens flag ((a, b, d) :: fs))
    with ([flag; tunnel_spec a b d] ++ forward_tokens flag fs).
  rewrite spaced_app, IH. cbn. rewrite app_nil_r, <- !app_assoc. reflexivity.
Qed.

(** The text written for the forwards and the type of a configuration. *)
Lemma export_flags_spaced c (cmd : str) :
  match type c with
  | local =>
      match forwards c with
      | _ :: _ =>
          fold_left
            (fun cmd forward =>
               cmd ++ lit " -L " ++
               tunnel_spec (fwd_local_port forward) (fwd_remote_host forward)
                 (fwd_remote_port forward))
            (forwards c) cmd
      | [] =>
          cmd ++ lit " -L " ++
          tunnel_spec (local_port c) (remote_host c) (remote_port c)
      end
  | remote =>
      match forwards c with
      | _ :: _ =>
          fold_left
            (fun cmd forward =>
               cmd ++ lit " -R " ++
               tunnel_spec (fwd_remote_port forward) (fwd_remote_host forward)
                 (fwd_local_port forward))
            (forwards c) cmd
      | [] =>
          cmd ++ lit " -R " ++
          tunnel_spec (remote_port c) (remote_host c) (local_port c)
      end
  | dynamic => cmd ++ lit " -D " ++ local_port c
  end = cmd ++ spaced (flag_tokens c).
Proof.
  unfold flag_tokens, emitted_forwards.
  destruct (type c).
  - destruct (forwards c) as [|f fs] eqn:E.
    + cbn. rewrite app_nil_r. reflexivity.
    + rewrite <- E.
      rewrite (fold_left_append _ (forwards c)), spaced_forward_tokens, map_map.
      reflexivity.
  - destruct (forwards c) as [|f fs] eqn:E.
    + cbn. rewrite app_nil_r. reflexivity.
    + rewrite <- E.
      rewrite (fold_left_append _ (forwards c)), spaced_forward_tokens, map_map.
      reflexivity.
  - cbn. rewrite app_nil_r. reflexivity.
Qed.

Lemma fold_left_fmap {A B C} (f : C -> B -> C) (g : A -> B) (l : list A) (a : C) :
  fold_left f (map g l) a = fold_left (fun a x => f a (g x)) l a.
Proof.
  revert a. induction l as [|x l IH]; intros a; [reflexivity|]. cbn. apply IH.
Qed.

(** The exported text of a configuration with every key: no default is
    used. *)
Lemma export_to_command_config (c : Config) :
  export_to_command c =
  let cmd := lit "ssh -N" in
  let cmd :=
    match type c with
    | local =>
        match forwards c with
        | _ :: _ =>
            fold_left
              (fun cmd forward =>
                 cmd ++ lit " -L " ++
                 tunnel_spec (fwd_local_port forward) (fwd_remote_host forward)
                   (fwd_remote_port forward))
              (forwards c) cmd
        | [] =>
            cmd ++ lit " -L " ++
            tunnel_spec (local_port c) (remote_host c) (remote_port c)
        end
    | remote =>
        match forwards c with
        | _ :: _ =>
            fold_left
              (fun cmd forward =>
                 cmd ++ lit " -R " ++
                 tunnel_spec (fwd_remote_port forward) (fwd_remote_host forward)
                   (fwd_local_port forward))
              (forwards c) cmd
        | [] =>
            cmd ++ lit " -R " ++
            tunnel_spec (remote_port c) (remote_host c) (local_port c)
        end
    | dynamic => cmd ++ lit " -D " ++ local_port c
    end in
  let cmd :=
    if decide (ssh_port c = lit "22") then cmd
    else cmd ++ lit " -p " ++ ssh_port c in
  cmd ++ lit " " ++ ssh_user c ++ lit "@" ++ ssh_host c.
Proof.
  unfold export_to_command. cbv zeta.
  cbn [dict_of get_type get_ssh_host get_ssh_user get_ssh_port get_forwards
       get_local_port get_remote_host get_remote_port from_option id].
  destruct (type c); [| |reflexivity];
    (destruct (forwards c) as [|f fs]; [reflexivity|]);
    change (map dict_of_forward (f :: fs))
      with (dict_of_forward f :: map dict_of_forward fs);
    cbv iota;
    change (dict_of_forward f :: map dict_of_forward fs)
      with (map dict_of_forward (f :: fs));
    rewrite fold_left_fmap; reflexivity.
Qed.

(** The command line of [start_tunnel] for a configuration with every
    key. *)
Lemma start_cmd_config (c : Config) :
  start_cmd c =
  let cmd := [lit "ssh"; lit "-N"] in
  let cmd :=
    match type c with
    | local =>
        match forwards c with
        | _ :: _ =>
            fold_left
              (fun cmd forward =>
                 cmd ++ [lit "-L";
                         tunnel_spec (fwd_local_port forward)
                           (fwd_remote_host forward) (fwd_remote_port forward)])
              (forwards c) cmd
        | [] =>
            cmd ++ [lit "-L";
                    tunnel_spec (local_port c) (remote_host c) (remote_port c)]
        end
    | remote =>
        match forwards c with
        | _ :: _ =>
            fold_left
              (fun cmd forward =>
                 cmd ++ [lit "-R";
                         tunnel_spec (fwd_remote_port forward)
                           (fwd_remote_host forward) (fwd_local_port forward)])
              (forwards c) cmd
        | [] =>
            cmd ++ [lit "-R";
                    tunnel_spec (remote_port c) (remote_host c) (local_port c)]
        end
    | dynamic => cmd ++ [lit "-D"; local_port c]
    end in
  cmd ++ [lit "-p"; ssh_port c; ssh_user c ++ lit "@" ++ ssh_host c].
Proof.
  unfold start_cmd. cbv zeta.
  cbn [dict_of get_type get_ssh_host get_ssh_user get_ssh_port get_forwards
       get_local_port get_remote_host get_remote_port from_option id].
  destruct (type c); [| |reflexivity];
    (destruct (forwards c) as [|f fs]; [reflexivity|]);
    change (map dict_of_forward (f :: fs))
      with (dict_of_forward f :: map dict_of_forward fs);
    cbv iota;
    change (dict_of_forward f :: map dict_of_forward fs)
      with (map dict_of_forward (f :: fs));
    rewrite fold_left_fmap; reflexivity.
Qed.

Lemma export_to_command_tokens (c : Config) :
  export_to_command c = join (lit " ") (export_tokens c).
Proof.
  rewrite export_to_command_config. cbv zeta.
  rewrite (export_flags_spaced c (lit "ssh -N")).
  unfold export_tokens. cbn [app]. rewrite join_spaced, spaced_cons, !spaced_app.
  unfold port_tokens, user_host.
  destruct (decide (ssh_port c = lit "22")); cbn;
    rewrite <- ?app_assoc; cbn; rewrite ?app_nil_r; reflexivity.
Qed.

Lemma start_cmd_tokens (c : Config) :
  start_cmd c =
  [lit "ssh"; lit "-N"] ++ flag_tokens c ++ [lit "-p"; ssh_port c; user_host c].
Proof.
  rewrite start_cmd_config. cbv zeta.
  rewrite (app_assoc [lit "ssh"; lit "-N"]). f_equal.
  unfold flag_tokens, emitted_forwards, forward_tokens.
  destruct (type c); [| |reflexivity];
    (destruct (forwards c) as [|f fs] eqn:E; [reflexivity|]);
    rewrite <- E; rewrite (fold_left_extend _ (forwards c)), map_map;
    reflexivity.
Qed.

End Words.

(** ** C3: the command line of start_tunnel and the exported text *)

Section DictReads.

Lemma fold_left_ext_Forall {A B} (f g : B -> A -> B) (P : A -> Prop) l a :
  Forall P l -> (forall a x, P x -> f a x = g a x) ->
  fold_left f l a = fold_left g l a.
Proof.
  intros Hl Hfg. revert a. induction Hl as [|x l Hx _ IH]; intros a;
    [reflexivity|].
  cbn. rewrite (Hfg a x Hx). apply IH.
Qed.

(** [export_to_command] writes for a dictionary what it writes for the
    configuration it reads in it. *)
Lemma export_to_command_read (s : ConfigDict) :
  export_to_command s = export_to_command (config_read s).
Proof.
  unfold export_to_command. cbv zeta.
  cbn [config_read dict_of get_type get_ssh_host get_ssh_user get_ssh_port
       get_forwards get_local_port get_remote_host get_remote_port
       type ssh_host ssh_user ssh_port forwards local_port remote_host
       remote_port from_option id].
  destruct (default local (get_type s)); [| |reflexivity];
    (destruct (default [] (get_forwards s)) as [|f fs]; [reflexivity|]);
    change (map dict_of_forward (map forward_read (f :: fs)))
      with (dict_of_forward (forward_read f)
            :: map dict_of_forward (map forward_read fs));
    cbv iota;
    change (dict_of_forward (forward_read f)
            :: map dict_of_forward (map forward_read fs))
      with (map dict_of_forward (map forward_read (f :: fs)));
    rewrite !fold_left_fmap; reflexivity.
Qed.

(** So does [start_tunnel] when no forward written lacks its host. *)
Lemma start_cmd_read (s : ConfigDict) :
  remote_hosts_present s -> start_cmd s = start_cmd (config_read s).
Proof.
  unfold remote_hosts_present, start_cmd. cbv zeta.
  cbn [config_read dict_of get_type get_ssh_host get_ssh_user get_ssh_port
       get_forwards get_local_port get_remote_host get_remote_port
       type ssh_host ssh_user ssh_port forwards local_port remote_host
       remote_port from_option id].
  intros Hp.
  destruct (default local (get_type s)); [| |reflexivity];
    (destruct (default [] (get_forwards s)) as [|f fs];
     [destruct Hp as [h ->]; reflexivity|]);
    change (map dict_of_forward (map forward_read (f :: fs)))
      with (dict_of_forward (forward_read f)
            :: map dict_of_forward (map forward_read fs));
    cbv iota;
    change (dict_of_forward (forward_read f)
            :: map dict_of_forward (map forward_read fs))
      with (map dict_of_forward (map forward_read (f :: fs)));
    rewrite !fold_left_fmap; f_equal;
    apply (fold_left_ext_Forall _ _ _ _ _ Hp);
    intros a x [h Hx]; cbv zeta;
    cbn [dict_of_forward forward_read get_fwd_local_port get_fwd_remote_host
         get_fwd_remote_port fwd_local_port fwd_remote_host fwd_remote_port
         from_option id];
    rewrite Hx; reflexivity.
Qed.

(** The command line and the exported words of a configuration with every
    key. *)
Lemma start_cmd_export_words (c : Config) :
  forallb is_token (export_tokens c) = true ->
  split_ws (export_to_command c) = export_tokens c /\
  (ssh_port c <> lit "22" -> start_cmd c = export_tokens c) /\
  (ssh_port c = lit "22" ->
   exists ws,
     export_tokens c = ws ++ [user_host c] /\
     start_cmd c = ws ++ [lit "-p"; lit "22"; user_host c]).
Proof.
  intros H. split; [|split].
  - rewrite export_to_command_tokens. apply split_ws_join. exact H.
  - intros Hp. rewrite start_cmd_tokens. unfold export_tokens, port_tokens.
    rewrite decide_False by exact Hp. reflexivity.
  - intros Hp. rewrite start_cmd_tokens. unfold export_tokens, port_tokens.
    rewrite decide_True by exact Hp. rewrite Hp.
    exists ([lit "ssh"; lit "-N"] ++ flag_tokens c).
    rewrite <- !app_assoc. split; reflexivity.
Qed.

Lemma start_cmd_export_tokens (c : Config) :
  forallb is_token (start_cmd c) = true ->
  forallb is_token (export_tokens c) = true.
Proof.
  rewrite start_cmd_tokens. unfold export_tokens, port_tokens.
  rewrite !forallb_app. cbn [forallb].
  intros H. apply andb_prop in H as [_ H]. apply andb_prop in H as [-> H].
  apply andb_prop in H as [_ H]. apply andb_prop in H as [Hp H].
  destruct (decide (ssh_port c = lit "22")); cbn [forallb andb];
    [exact H|rewrite Hp; exact H].
Qed.

End DictReads.

(** C3, as stated, fails.  For the configuration parsed from
    [ssh -L 8080:localhost:80 alice@example.com], whose port is [22], the
    command line of [start_tunnel] has [-p] and the exported text has not.
    For a configuration whose user has a space, the words of the exported
    text are not those of the command line.  And for a dictionary that
    lacks the key ['remote_host'], with the port [4022], the command line
    has the forward [1::2] where the exported text has
    [1:localhost:2]. *)
Lemma C3_port_22_differs :
  (exists config : Config,
     parse_ssh_command (lit "ssh -L 8080:localhost:80 alice@example.com")
       = Ok config /\
     ssh_port config = lit "22" /\
     (lit "-p" ∈ start_cmd config) /\
     (lit "-p" ∉ split_ws (export_to_command config)) /\
     start_cmd config <> split_ws (export_to_command config)) /\
  (let config :=
     mkConfig dynamic (lit "2222") (lit "1080") [] [] (lit "a b") (lit "h")
       (lit "t") [] in
   start_cmd config <> split_ws (export_to_command config)) /\
  (let config :=
     mkConfigDict (Some local) (Some (lit "4022")) (Some (lit "1")) None
       (Some (lit "2")) (Some (lit "u")) (Some (lit "h")) None in
   forallb is_token (start_cmd config) = true /\
   start_cmd config
     = [lit "ssh"; lit "-N"; lit "-L"; lit "1::2"; lit "-p"; lit "4022";
        lit "u@h"] /\
   split_ws (export_to_command config)
     = [lit "ssh"; lit "-N"; lit "-L"; lit "1:localhost:2"; lit "-p";
        lit "4022"; lit "u@h"] /\
   start_cmd config <> split_ws (export_to_command config)).
Proof.
  split; [|split].
  - eexists. split; [vm_compute; reflexivity|].
    split; [reflexivity|]. split; [|split].
    + apply (bool_decide_eq_true_1 _). vm_compute. reflexivity.
    + apply (bool_decide_eq_false_1 _). vm_compute. reflexivity.
    + vm_compute. discriminate.
  - vm_compute. discriminate.
  - cbv zeta. split; [vm_compute; reflexivity|].
    split; [vm_compute; reflexivity|]. split; [vm_compute; reflexivity|].
    vm_compute. discriminate.
Qed.

(** C3 (amended): for every dictionary in which each forward written has
    its key ['remote_host'], and for which the words of the command line
    of [start_tunnel] are not empty and have no whitespace (as for every
    parsed configuration), the exported text is its words joined by single
    spaces, [-N] is the second word of both the command line and the
    exported text, and
    - when the port is not [22], the command line of [start_tunnel] is the
      exported text split into words;
    - when the port is [22], the command line of [start_tunnel] is the
      exported text split into words with the two words [-p 22] put before
      the last word [user@host]: [start_tunnel] always writes [-p].
    The process that a successful [start_tunnel] registers runs this
    command line. *)
Theorem C3_start_cmd_export (s : ConfigDict) :
  remote_hosts_present s ->
  forallb is_token (start_cmd s) = true ->
  let ssh_port := default (lit "22") (get_ssh_port s) in
  let user_host :=
    default [] (get_ssh_user s) ++ lit "@" ++ default [] (get_ssh_host s) in
  join (lit " ") (split_ws (export_to_command s)) = export_to_command s /\
  start_cmd s !! 1 = Some (lit "-N") /\
  split_ws (export_to_command s) !! 1 = Some (lit "-N") /\
  (ssh_port <> lit "22" -> start_cmd s = split_ws (export_to_command s)) /\
  (ssh_port = lit "22" ->
   exists ws,
     split_ws (export_to_command s) = ws ++ [user_host] /\
     start_cmd s = ws ++ [lit "-p"; lit "22"; user_host]) /\
  (forall env tunnel_id m m1,
     start_tunnel env tunnel_id s m = (Started, m1) ->
     exists p,
       tunnels m1 !! tunnel_id = Some p /\
       processes m1 !! p = Some (mkProcess (start_cmd s) Running)).
Proof.
  intros Hp Ht. cbv zeta.
  assert (Hspawn : forall env tunnel_id m m1,
            start_tunnel env tunnel_id s m = (Started, m1) ->
            exists p,
              tunnels m1 !! tunnel_id = Some p /\
              processes m1 !! p = Some (mkProcess (start_cmd s) Running)).
  { intros env tunnel_id m m1 Hst.
    destruct (start_tunnel_Started_running env _ _ _ _ Hst) as (_ & _ & H).
    exact H. }
  revert Hspawn.
  rewrite (start_cmd_read s Hp) in Ht |- *.
  rewrite (export_to_command_read s).
  set (c := config_read s).
  pose proof (start_cmd_export_tokens c Ht) as He.
  destruct (start_cmd_export_words c He) as (Hs & Hne & Heq).
  rewrite Hs. intros Hspawn.
  split; [symmetry; apply export_to_command_tokens|].
  split; [rewrite start_cmd_tokens; reflexivity|]. split; [reflexivity|].
  split; [exact Hne|]. split; [exact Heq|exact Hspawn].
Qed.

Lemma C3_start_cmd_export_witness :
  let s :=
    mkConfigDict None (Some (lit "4022")) None None None (Some (lit "bob"))
      (Some (lit "db.internal"))
      (Some [mkForwardDict (Some (lit "27017")) (Some (lit "mongo-0"))
               (Some (lit "27017"));
             mkForwardDict (Some (lit "27018")) (Some (lit "mongo-1"))
               (Some (lit "27017"))]) in
  start_cmd s = split_ws (export_to_command s).
Proof.
  cbv zeta.
  refine (proj1 (proj2 (proj2 (proj2 (C3_start_cmd_export _ _ _)))) _).
  - cbn. constructor; [eexists; reflexivity|].
    constructor; [eexists; reflexivity|]. constructor.
  - vm_compute. reflexivity.
  - vm_compute. discriminate.
Defined.

(** * The patterns on a line of words *)

Section Scanning.

Lemma ascii_eqb_eq a b : ascii_eqb a b = true <-> a = b.
Proof. apply Ascii.eqb_eq. Qed.

Lemma ascii_eqb_refl a : ascii_eqb a a = true.
Proof. apply Ascii.eqb_refl. Qed.

Lemma ascii_eqb_neq a b : a <> b -> ascii_eqb a b = false.
Proof. intros H. apply Ascii.eqb_neq. exact H. Qed.

Lemma digit_not_space c : is_digit c = true -> is_space c = false.
Proof. destruct c as [[] [] [] [] [] [] [] []]; vm_compute; congruence. Qed.

Lemma digit_host_char c : is_digit c = true -> host_char c = true.
Proof. destruct c as [[] [] [] [] [] [] [] []]; vm_compute; congruence. Qed.

Lemma digit_user_char c : is_digit c = true -> user_char c = true.
Proof. destruct c as [[] [] [] [] [] [] [] []]; vm_compute; congruence. Qed.

Lemma host_char_not_space c : host_char c = true -> is_space c = false.
Proof.
  unfold host_char. intros [_ H]%andb_prop. apply negb_true_iff. exact H.
Qed.

Lemma user_char_not_space c : user_char c = true -> is_space c = false.
Proof.
  unfold user_char. intros [H _]%andb_prop. apply negb_true_iff. exact H.
Qed.

Lemma space_not_dash c : is_space c = true -> ascii_eqb c "-" = false.
Proof. destruct c as [[] [] [] [] [] [] [] []]; vm_compute; congruence. Qed.

Lemma forallb_impl (p q : ascii -> bool) (s : str) :
  (forall c, p c = true -> q c = true) ->
  forallb p s = true -> forallb q s = true.
Proof.
  intros Hpq. induction s as [|c s IH]; [reflexivity|]. cbn.
  intros [Hc Hs]%andb_prop. rewrite (Hpq c Hc), IH by exact Hs. reflexivity.
Qed.

Lemma digits_ws_free s : forallb is_digit s = true -> ws_free s = true.
Proof.
  apply forallb_impl. intros c Hc. rewrite (digit_not_space c Hc). reflexivity.
Qed.

Lemma host_chars_ws_free s : forallb host_char s = true -> ws_free s = true.
Proof.
  apply forallb_impl. intros c Hc. rewrite (host_char_not_space c Hc). reflexivity.
Qed.

Lemma user_chars_ws_free s : forallb user_char s = true -> ws_free s = true.
Proof.
  apply forallb_impl. intros c Hc. rewrite (user_char_not_space c Hc). reflexivity.
Qed.

(** *** Runs *)

Lemma span_stop p a rest :
  forallb p a = true -> stops p rest = true -> span p (a ++ rest) = (a, rest).
Proof.
  intros Ha Hr. induction a as [|c a IH]; cbn.
  - destruct rest as [|c rest]; [reflexivity|].
    cbn in Hr. apply negb_true_iff in Hr. cbn. rewrite Hr. reflexivity.
  - cbn in Ha. apply andb_prop in Ha as [Hc Ha].
    rewrite Hc, IH by exact Ha. reflexivity.
Qed.

Lemma span_inv p s a b :
  span p s = (a, b) -> s = a ++ b /\ forallb p a = true /\ stops p b = true.
Proof.
  revert a b. induction s as [|c s IH]; intros a b; cbn.
  - intros [= <- <-]. repeat split.
  - destruct (p c) eqn:Hc.
    + destruct (span p s) as [a' b'] eqn:E. intros [= <- <-].
      destruct (IH a' b' eq_refl) as (-> & Ha & Hb).
      cbn. rewrite Hc. repeat split; assumption.
    + intros [= <- <-]. cbn. rewrite Hc. repeat split.
Qed.

Lemma span_fails p c s : p c = false -> span p (c :: s) = ([], c :: s).
Proof. intros H. cbn. rewrite H. reflexivity. Qed.

(** *** What a match holds *)

Lemma match_forward_at_inv flag s m rest :
  match_forward_at flag s = Some (m, rest) ->
  triple_ok m = true /\ length rest < length s.
Proof.
  unfold match_forward_at.
  destruct s as [|c [|f s1]]; try discriminate.
  destruct (ascii_eqb c "-" && ascii_eqb f flag); [|discriminate].
  destruct (span is_space s1) as [[|w ws] s2] eqn:E1; [discriminate|].
  destruct (span is_digit s2) as [[|x d1] [|c1 s3]] eqn:E2; try discriminate.
  destruct (ascii_eqb c1 ":"); [|discriminate].
  destruct (span host_char s3) as [[|y h] [|c2 s4]] eqn:E3; try discriminate.
  destruct (ascii_eqb c2 ":"); [|discriminate].
  destruct (span is_digit s4) as [[|z d2] r] eqn:E4; [discriminate|].
  intros [= <- <-].
  apply span_inv in E1 as (-> & _ & _).
  apply span_inv in E2 as (-> & H2 & _).
  apply span_inv in E3 as (-> & H3 & _).
  apply span_inv in E4 as (-> & H4 & _).
  split.
  - unfold triple_ok, digits, host_name. cbn [is_nil negb andb].
    rewrite H2, H3, H4. reflexivity.
  - repeat (cbn [length]; rewrite List.length_app). cbn [length]. lia.
Qed.

Lemma findall_forward_ok flag skip s :
  forallb triple_ok (findall_forward flag skip s) = true.
Proof.
  revert skip. induction s as [|c s IH]; intros skip; [reflexivity|].
  cbn [findall_forward]. destruct skip as [|k]; [|apply IH].
  destruct (match_forward_at flag (c :: s)) as [[m rest]|] eqn:E; [|apply IH].
  apply match_forward_at_inv in E as [Hm _].
  cbn. rewrite Hm, IH. reflexivity.
Qed.

Lemma match_number_at_inv flag s d :
  match_number_at flag s = Some d -> digits d = true.
Proof.
  unfold match_number_at.
  destruct s as [|c [|f s1]]; try discriminate.
  destruct (ascii_eqb c "-" && ascii_eqb f flag); [|discriminate].
  destruct (span is_space s1) as [[|w ws] s2] eqn:E1; [discriminate|].
  destruct (span is_digit s2) as [[|x d1] r] eqn:E2; [discriminate|].
  intros [= <-]. apply span_inv in E2 as (_ & H & _).
  unfold digits. cbn [is_nil negb andb]. exact H.
Qed.

Lemma search_number_ok flag s d :
  search_number flag s = Some d -> digits d = true.
Proof.
  induction s as [|c s IH]; [discriminate|]. cbn [search_number].
  destruct (match_number_at flag (c :: s)) as [d'|] eqn:E; [|exact IH].
  intros [= <-]. exact (match_number_at_inv _ _ _ E).
Qed.

Lemma match_user_host_at_inv s u h :
  match_user_host_at s = Some (u, h) ->
  user_name u = true /\ is_token h = true.
Proof.
  unfold match_user_host_at.
  destruct (span user_char s) as [[|x u'] [|c s1]] eqn:E1; try discriminate.
  destruct (ascii_eqb c "@"); [|discriminate].
  destruct (span (fun c => negb (is_space c)) s1) as [[|y h'] r] eqn:E2;
    [discriminate|].
  intros [= <- <-].
  apply span_inv in E1 as (_ & H1 & _). apply span_inv in E2 as (_ & H2 & _).
  split; [unfold user_name|unfold is_token, ws_free];
    cbn [is_nil negb andb]; assumption.
Qed.

Lemma search_user_host_ws_ok s u h :
  search_user_host_ws s = Some (u, h) ->
  user_name u = true /\ is_token h = true.
Proof.
  induction s as [|c s IH]; [discriminate|]. cbn [search_user_host_ws].
  destruct (is_space c); [|exact IH].
  destruct (match_user_host_at s) as [[u' h']|] eqn:E; [|exact IH].
  intros [= <- <-]. exact (match_user_host_at_inv _ _ _ E).
Qed.

Lemma search_user_host_ok s u h :
  search_user_host s = Some (u, h) ->
  user_name u = true /\ is_token h = true.
Proof.
  unfold search_user_host.
  destruct (match_user_host_at s) as [[u' h']|] eqn:E.
  - intros [= <- <-]. exact (match_user_host_at_inv _ _ _ E).
  - apply search_user_host_ws_ok.
Qed.

End Scanning.

Section Backtracking.

Lemma space_not_digit c : is_space c = true -> is_digit c = false.
Proof. destruct c as [[] [] [] [] [] [] [] []]; vm_compute; congruence. Qed.

Lemma digit_not_colon c : is_digit c = true -> ascii_eqb c ":" = false.
Proof. destruct c as [[] [] [] [] [] [] [] []]; vm_compute; congruence. Qed.

Lemma host_char_not_colon c : host_char c = true -> ascii_eqb c ":" = false.
Proof.
  unfold host_char. intros [H _]%andb_prop. apply negb_true_iff. exact H.
Qed.

Lemma user_char_not_at c : user_char c = true -> ascii_eqb c "@" = false.
Proof.
  unfold user_char. intros [_ H]%andb_prop. apply negb_true_iff. exact H.
Qed.

(** When the rest of the pattern cannot begin with a character of the
    class, only the longest run can match. *)
Lemma greedy_plus_span {A} p s (k : str -> str -> option A) :
  (forall run c rest, p c = true -> k run (c :: rest) = None) ->
  greedy_plus p s k =
  match span p s with
  | ([], _) => None
  | (run, rest) => k run rest
  end.
Proof.
  revert k. induction s as [|c s IH]; intros k Hk; [reflexivity|]. cbn.
  destruct (p c) eqn:Hc; [|reflexivity].
  rewrite IH by (intros; apply Hk; assumption).
  destruct (span p s) as [[|x a] b] eqn:E.
  - apply span_inv in E as (-> & _ & _). reflexivity.
  - destruct (k (c :: x :: a) b) eqn:K; [reflexivity|].
    apply span_inv in E as (-> & Ha & _). cbn in Ha.
    apply andb_prop in Ha as [Hx _]. apply Hk. exact Hx.
Qed.

(** When nothing follows in the pattern, the longest run matches. *)
Lemma greedy_plus_last {A} p s (f : str -> str -> A) :
  greedy_plus p s (fun run rest => Some (f run rest)) =
  match span p s with
  | ([], _) => None
  | (run, rest) => Some (f run rest)
  end.
Proof.
  revert f. induction s as [|c s IH]; intros f; [reflexivity|]. cbn.
  destruct (p c) eqn:Hc; [|reflexivity].
  rewrite (IH (fun run rest => f (c :: run) rest)).
  destruct (span p s) as [[|x a] b] eqn:E; [|reflexivity].
  apply span_inv in E as (-> & _ & _). reflexivity.
Qed.

Lemma lazy_plus_span {A} p s (k : str -> str -> option A) :
  (forall run c rest, p c = true -> k run (c :: rest) = None) ->
  lazy_plus p s k =
  match span p s with
  | ([], _) => None
  | (run, rest) => k run rest
  end.
Proof.
  revert k. induction s as [|c s IH]; intros k Hk; [reflexivity|]. cbn.
  destruct (p c) eqn:Hc; [|reflexivity].
  rewrite IH by (intros; apply Hk; assumption).
  destruct (span p s) as [[|x a] b] eqn:E.
  - apply span_inv in E as (-> & _ & _). cbn.
    destruct (k [c] b); reflexivity.
  - apply span_inv in E as (-> & Ha & _). cbn in Ha.
    apply andb_prop in Ha as [Hx _].
    cbn [app]. rewrite (Hk [c] x (a ++ b) Hx). reflexivity.
Qed.

(** The scanner of the forward pattern computes the match of the
    backtracking matcher. *)
Lemma forward_at_backtracking flag s :
  re_forward_at flag s = match_forward_at flag s.
Proof.
  unfold re_forward_at, match_forward_at, one_char.
  destruct s as [|c [|f s1]]; [reflexivity|destruct (ascii_eqb c "-"); reflexivity|].
  destruct (ascii_eqb c "-"); [|reflexivity].
  destruct (ascii_eqb f flag); [|reflexivity]. cbn [andb].
  rewrite greedy_plus_span
    by (intros run x rest Hx; cbn; rewrite (space_not_digit x Hx); reflexivity).
  destruct (span is_space s1) as [[|w ws] s2]; [reflexivity|].
  rewrite greedy_plus_span
    by (intros run x rest Hx; rewrite (digit_not_colon x Hx); reflexivity).
  destruct (span is_digit s2) as [[|x d1] [|c1 s3]]; try reflexivity.
  destruct (ascii_eqb c1 ":"); [|reflexivity].
  rewrite greedy_plus_span
    by (intros run y rest Hy; rewrite (host_char_not_colon y Hy); reflexivity).
  destruct (span host_char s3) as [[|y h] [|c2 s4]]; try reflexivity.
  destruct (ascii_eqb c2 ":"); [|reflexivity].
  rewrite greedy_plus_last.
  destruct (span is_digit s4) as [[|z d2] rest]; reflexivity.
Qed.

Lemma number_at_backtracking flag s :
  re_number_at flag s = match_number_at flag s.
Proof.
  unfold re_number_at, match_number_at, one_char.
  destruct s as [|c [|f s1]]; [reflexivity|destruct (ascii_eqb c "-"); reflexivity|].
  destruct (ascii_eqb c "-"); [|reflexivity].
  destruct (ascii_eqb f flag); [|reflexivity]. cbn [andb].
  rewrite greedy_plus_span
    by (intros run x rest Hx; cbn; rewrite (space_not_digit x Hx); reflexivity).
  destruct (span is_space s1) as [[|w ws] s2]; [reflexivity|].
  rewrite (greedy_plus_last is_digit s2 (fun d _ => d)).
  destruct (span is_digit s2) as [[|x d] rest]; reflexivity.
Qed.

Lemma user_host_at_backtracking s :
  re_user_host_at s = match_user_host_at s.
Proof.
  unfold re_user_host_at, match_user_host_at, one_char.
  rewrite greedy_plus_span
    by (intros run x rest Hx; rewrite (user_char_not_at x Hx); reflexivity).
  destruct (span user_char s) as [[|x u] [|c s1]]; try reflexivity.
  destruct (ascii_eqb c "@"); [|reflexivity].
  rewrite lazy_plus_span.
  - destruct (span (fun c => negb (is_space c)) s1) as [[|y h] rest] eqn:E;
      [reflexivity|].
    apply span_inv in E as (_ & _ & Hrest).
    destruct rest as [|r rest]; [reflexivity|].
    cbn in Hrest. rewrite negb_involutive in Hrest. rewrite Hrest. reflexivity.
  - intros run y rest Hy. apply negb_true_iff in Hy. rewrite Hy. reflexivity.
Qed.

End Backtracking.

Section Hits.

Lemma findall_forward_0 flag c s :
  findall_forward flag 0 (c :: s) =
  match match_forward_at flag (c :: s) with
  | Some (m, rest) => m :: findall_forward flag (length s - length rest) s
  | None => findall_forward flag 0 s
  end.
Proof. reflexivity. Qed.

Lemma search_number_cons flag c s :
  search_number flag (c :: s) =
  match match_number_at flag (c :: s) with
  | Some d => Some d
  | None => search_number flag s
  end.
Proof. reflexivity. Qed.

Lemma findall_forward_skip flag a b :
  findall_forward flag (length a) (a ++ b) = findall_forward flag 0 b.
Proof. induction a as [|c a IH]; [reflexivity|exact IH]. Qed.

Lemma tunnel_spec_app a b d rest :
  tunnel_spec a b d ++ rest = a ++ ":" :: b ++ ":" :: d ++ rest.
Proof.
  unfold tunnel_spec. rewrite <- !app_assoc. reflexivity.
Qed.

(** [-F a:b:d] followed by something that is not a digit is a match. *)
Lemma match_forward_at_hit flag a b d rest :
  triple_ok (a, b, d) = true -> stops is_digit rest = true ->
  match_forward_at flag ("-" :: flag :: " " :: tunnel_spec a b d ++ rest)
  = Some ((a, b, d), rest).
Proof.
  unfold triple_ok, digits, host_name.
  intros [[Ha Hb]%andb_prop Hd]%andb_prop Hr.
  destruct a as [|x a]; [discriminate|]. destruct b as [|y b]; [discriminate|].
  destruct d as [|z d]; [discriminate|]. cbn [is_nil negb andb] in Ha, Hb, Hd.
  rewrite tunnel_spec_app. unfold match_forward_at.
  rewrite !ascii_eqb_refl. cbn [andb].
  assert (Hx : is_space x = false).
  { apply digit_not_space. cbn in Ha. apply andb_prop in Ha as [Hx _]. exact Hx. }
  change (span is_space (" " :: (x :: a) ++ ":" :: (y :: b) ++ ":" :: (z :: d) ++ rest))
    with (let '(u, v) :=
            span is_space (x :: a ++ ":" :: (y :: b) ++ ":" :: (z :: d) ++ rest)
          in (" " :: u, v)).
  rewrite (span_fails is_space x _ Hx).
  change (x :: a ++ ":" :: (y :: b) ++ ":" :: (z :: d) ++ rest)
    with ((x :: a) ++ ":" :: (y :: b) ++ ":" :: (z :: d) ++ rest).
  rewrite (span_stop is_digit (x :: a)) by (exact Ha || reflexivity).
  rewrite ascii_eqb_refl.
  rewrite (span_stop host_char (y :: b)) by (exact Hb || reflexivity).
  rewrite ascii_eqb_refl.
  rewrite (span_stop is_digit (z :: d)) by assumption.
  reflexivity.
Qed.

Lemma findall_forward_hit flag a b d rest :
  triple_ok (a, b, d) = true -> stops is_digit rest = true ->
  findall_forward flag 0 ("-" :: flag :: " " :: tunnel_spec a b d ++ rest)
  = (a, b, d) :: findall_forward flag 0 rest.
Proof.
  intros Hm Hr. rewrite findall_forward_0.
  rewrite match_forward_at_hit by assumption. f_equal.
  change (flag :: " " :: tunnel_spec a b d ++ rest)
    with ((flag :: " " :: tunnel_spec a b d) ++ rest).
  rewrite List.length_app, Nat.add_sub. apply findall_forward_skip.
Qed.

(** No match begins inside a word that does not end with the flag. *)
Lemma match_forward_at_token flag t r :
  ws_free t = true -> last t <> Some flag -> is_space flag = false ->
  starts_space r = true ->
  match_forward_at flag (t ++ r) = None.
Proof.
  intros Ht Hl Hf Hr. unfold match_forward_at.
  destruct t as [|c1 [|c2 [|c3 t]]]; cbn [app].
  - destruct r as [|c [|f s1]]; try reflexivity.
    cbn in Hr. rewrite (space_not_dash c Hr). reflexivity.
  - destruct r as [|f s1]; [reflexivity|]. cbn in Hr.
    rewrite (ascii_eqb_neq f flag) by congruence.
    rewrite andb_false_r. reflexivity.
  - rewrite (ascii_eqb_neq c2 flag) by (cbn in Hl; congruence).
    rewrite andb_false_r. reflexivity.
  - cbn in Ht.
    apply andb_prop in Ht as [_ [_ [H3%negb_true_iff _]%andb_prop]%andb_prop].
    rewrite (span_fails is_space c3 _ H3).
    destruct (ascii_eqb c1 "-" && ascii_eqb c2 flag); reflexivity.
Qed.

Lemma match_forward_at_ws_free flag t :
  ws_free t = true -> match_forward_at flag t = None.
Proof.
  intros Ht. unfold match_forward_at.
  destruct t as [|c1 [|c2 [|c3 t]]]; try reflexivity.
  - destruct (ascii_eqb c1 "-" && ascii_eqb c2 flag); reflexivity.
  - cbn in Ht.
    apply andb_prop in Ht as [_ [_ [H3%negb_true_iff _]%andb_prop]%andb_prop].
    rewrite (span_fails is_space c3 _ H3).
    destruct (ascii_eqb c1 "-" && ascii_eqb c2 flag); reflexivity.
Qed.

Lemma last_tail_ne (c : ascii) (t : str) (x : ascii) :
  last (c :: t) <> Some x -> t = [] \/ last t <> Some x.
Proof.
  destruct t as [|c' t]; [left; reflexivity|].
  rewrite last_cons_cons. right. assumption.
Qed.

Lemma findall_forward_token flag t r :
  ws_free t = true -> last t <> Some flag -> is_space flag = false ->
  starts_space r = true ->
  findall_forward flag 0 (t ++ r) = findall_forward flag 0 r.
Proof.
  intros Ht Hl Hf Hr. induction t as [|c t IH]; [reflexivity|].
  cbn [app]. rewrite findall_forward_0.
  change (c :: t ++ r) with ((c :: t) ++ r).
  rewrite match_forward_at_token by assumption.
  cbn in Ht. apply andb_prop in Ht as [_ Ht].
  destruct (last_tail_ne _ _ _ Hl) as [->|Hl']; [reflexivity|].
  apply IH; assumption.
Qed.

Lemma findall_forward_space flag c r :
  is_space c = true ->
  findall_forward flag 0 (c :: r) = findall_forward flag 0 r.
Proof.
  intros Hc. rewrite findall_forward_0. unfold match_forward_at.
  rewrite (space_not_dash c Hc). destruct r as [|f s1]; reflexivity.
Qed.

Lemma findall_forward_last flag t :
  ws_free t = true -> findall_forward flag 0 t = [].
Proof.
  intros Ht. induction t as [|c t IH]; [reflexivity|].
  rewrite findall_forward_0, match_forward_at_ws_free by exact Ht.
  cbn in Ht. apply andb_prop in Ht as [_ Ht]. apply IH. exact Ht.
Qed.

(** The same for [-F\s+(\d+)]. *)
Lemma match_number_at_hit flag d rest :
  digits d = true -> stops is_digit rest = true ->
  match_number_at flag ("-" :: flag :: " " :: d ++ rest) = Some d.
Proof.
  unfold digits. intros Hd Hr.
  destruct d as [|z d]; [discriminate|]. cbn [is_nil negb andb] in Hd.
  unfold match_number_at. rewrite !ascii_eqb_refl. cbn [andb].
  assert (Hz : is_space z = false).
  { apply digit_not_space. cbn in Hd. apply andb_prop in Hd as [Hz _]. exact Hz. }
  change (span is_space (" " :: (z :: d) ++ rest))
    with (let '(u, v) := span is_space (z :: d ++ rest) in (" " :: u, v)).
  rewrite (span_fails is_space z _ Hz).
  change (z :: d ++ rest) with ((z :: d) ++ rest).
  rewrite (span_stop is_digit (z :: d)) by assumption.
  reflexivity.
Qed.

Lemma search_number_hit flag d rest :
  digits d = true -> stops is_digit rest = true ->
  search_number flag ("-" :: flag :: " " :: d ++ rest) = Some d.
Proof.
  intros Hd Hr. rewrite search_number_cons.
  rewrite match_number_at_hit by assumption. reflexivity.
Qed.

Lemma match_number_at_token flag t r :
  ws_free t = true -> last t <> Some flag -> is_space flag = false ->
  starts_space r = true ->
  match_number_at flag (t ++ r) = None.
Proof.
  intros Ht Hl Hf Hr. unfold match_number_at.
  destruct t as [|c1 [|c2 [|c3 t]]]; cbn [app].
  - destruct r as [|c [|f s1]]; try reflexivity.
    cbn in Hr. rewrite (space_not_dash c Hr). reflexivity.
  - destruct r as [|f s1]; [reflexivity|]. cbn in Hr.
    rewrite (ascii_eqb_neq f flag) by congruence.
    rewrite andb_false_r. reflexivity.
  - rewrite (ascii_eqb_neq c2 flag) by (cbn in Hl; congruence).
    rewrite andb_false_r. reflexivity.
  - cbn in Ht.
    apply andb_prop in Ht as [_ [_ [H3%negb_true_iff _]%andb_prop]%andb_prop].
    rewrite (span_fails is_space c3 _ H3).
    destruct (ascii_eqb c1 "-" && ascii_eqb c2 flag); reflexivity.
Qed.

Lemma match_number_at_ws_free flag t :
  ws_free t = true -> match_number_at flag t = None.
Proof.
  intros Ht. unfold match_number_at.
  destruct t as [|c1 [|c2 [|c3 t]]]; try reflexivity.
  - destruct (ascii_eqb c1 "-" && ascii_eqb c2 flag); reflexivity.
  - cbn in Ht.
    apply andb_prop in Ht as [_ [_ [H3%negb_true_iff _]%andb_prop]%andb_prop].
    rewrite (span_fails is_space c3 _ H3).
    destruct (ascii_eqb c1 "-" && ascii_eqb c2 flag); reflexivity.
Qed.

Lemma search_number_token flag t r :
  ws_free t = true -> last t <> Some flag -> is_space flag = false ->
  starts_space r = true ->
  search_number flag (t ++ r) = search_number flag r.
Proof.
  intros Ht Hl Hf Hr. induction t as [|c t IH]; [reflexivity|].
  cbn [app]. rewrite search_number_cons.
  change (c :: t ++ r) with ((c :: t) ++ r).
  rewrite match_number_at_token by assumption.
  cbn in Ht. apply andb_prop in Ht as [_ Ht].
  destruct (last_tail_ne _ _ _ Hl) as [->|Hl']; [reflexivity|].
  apply IH; assumption.
Qed.

Lemma search_number_space flag c r :
  is_space c = true -> search_number flag (c :: r) = search_number flag r.
Proof.
  intros Hc. rewrite search_number_cons. unfold match_number_at.
  rewrite (space_not_dash c Hc). destruct r as [|f s1]; reflexivity.
Qed.

Lemma search_number_last flag t :
  ws_free t = true -> search_number flag t = None.
Proof.
  intros Ht. induction t as [|c t IH]; [reflexivity|].
  rewrite search_number_cons, match_number_at_ws_free by exact Ht.
  cbn in Ht. apply andb_prop in Ht as [_ Ht]. apply IH. exact Ht.
Qed.

End Hits.

Section UserHost.

Lemma search_user_host_ws_cons c s :
  search_user_host_ws (c :: s) =
  match (if is_space c then match_user_host_at s else None) with
  | Some m => Some m
  | None => search_user_host_ws s
  end.
Proof. reflexivity. Qed.

(** A word without [@] is not [user@host]. *)
Lemma match_user_host_at_token t r :
  forallb user_char t = true -> starts_space r = true ->
  match_user_host_at (t ++ r) = None.
Proof.
  intros Ht Hr. unfold match_user_host_at.
  rewrite (span_stop user_char t r Ht).
  - destruct t as [|x t]; [reflexivity|]. destruct r as [|c r]; [reflexivity|].
    cbn in Hr. rewrite ascii_eqb_neq; [reflexivity|].
    intros ->. vm_compute in Hr. discriminate.
  - destruct r as [|c r]; [reflexivity|]. cbn in Hr |- *.
    unfold user_char. rewrite Hr. reflexivity.
Qed.

Lemma search_user_host_ws_word t s :
  ws_free t = true -> search_user_host_ws (t ++ s) = search_user_host_ws s.
Proof.
  intros Ht. induction t as [|c t IH]; [reflexivity|].
  cbn in Ht. apply andb_prop in Ht as [Hc%negb_true_iff Ht].
  cbn [app]. rewrite search_user_host_ws_cons, Hc. apply IH. exact Ht.
Qed.

Lemma search_user_host_ws_token t r :
  forallb user_char t = true -> starts_space r = true ->
  search_user_host_ws (" " :: t ++ r) = search_user_host_ws r.
Proof.
  intros Ht Hr. rewrite search_user_host_ws_cons.
  change (is_space " ") with true. cbv iota.
  rewrite match_user_host_at_token by assumption.
  apply search_user_host_ws_word, user_chars_ws_free, Ht.
Qed.

Lemma match_user_host_at_hit u h :
  user_name u = true -> is_token h = true ->
  match_user_host_at (u ++ "@" :: h) = Some (u, h).
Proof.
  unfold user_name, is_token, ws_free. intros Hu Hh.
  destruct u as [|x u]; [discriminate|]. destruct h as [|y h]; [discriminate|].
  cbn [is_nil negb andb] in Hu, Hh. unfold match_user_host_at.
  rewrite (span_stop user_char (x :: u)) by (exact Hu || reflexivity).
  rewrite ascii_eqb_refl.
  rewrite <- (app_nil_r (y :: h)) at 1.
  rewrite (span_stop _ (y :: h) []) by (exact Hh || reflexivity).
  reflexivity.
Qed.

Lemma search_user_host_ws_hit u h :
  user_name u = true -> is_token h = true ->
  search_user_host_ws (" " :: u ++ "@" :: h) = Some (u, h).
Proof.
  intros Hu Hh. rewrite search_user_host_ws_cons.
  change (is_space " ") with true. cbv iota.
  rewrite match_user_host_at_hit by assumption. reflexivity.
Qed.

(** A match further on makes the search succeed. *)
Lemma search_user_host_ws_later a s :
  is_Some (search_user_host_ws s) -> is_Some (search_user_host_ws (a ++ s)).
Proof.
  intros Hs. induction a as [|c a IH]; [exact Hs|].
  cbn [app]. rewrite search_user_host_ws_cons.
  destruct (if is_space c then match_user_host_at (a ++ s) else None);
    [eexists; reflexivity|exact IH].
Qed.

End UserHost.

Section SpacedWords.

Lemma starts_space_spaced ts : starts_space (spaced ts) = true.
Proof. destruct ts; reflexivity. Qed.

Lemma stops_digit_spaced ts : stops is_digit (spaced ts) = true.
Proof. destruct ts; reflexivity. Qed.

Lemma findall_forward_spaced_skip flag t ts :
  is_space flag = false -> skippable flag t ->
  findall_forward flag 0 (spaced (t :: ts)) = findall_forward flag 0 (spaced ts).
Proof.
  intros Hf [Ht Hl]. rewrite spaced_cons.
  rewrite findall_forward_space by reflexivity.
  apply findall_forward_token; auto using starts_space_spaced.
Qed.

Lemma findall_forward_spaced_none flag ts t :
  is_space flag = false -> Forall (skippable flag) ts -> ws_free t = true ->
  findall_forward flag 0 (spaced (ts ++ [t])) = [].
Proof.
  intros Hf Hts Ht. induction Hts as [|t' ts Ht' Hts IH].
  - change (spaced ([] ++ [t])) with (" " :: t ++ []). rewrite app_nil_r.
    rewrite findall_forward_space by reflexivity.
    apply findall_forward_last. exact Ht.
  - cbn [app]. rewrite findall_forward_spaced_skip by assumption. exact IH.
Qed.

Lemma findall_forward_spaced_hits flag fs ts :
  forallb triple_ok fs = true ->
  findall_forward flag 0 (spaced (forward_tokens ["-"; flag] fs ++ ts))
  = fs ++ findall_forward flag 0 (spaced ts).
Proof.
  intros Hfs. induction fs as [|[[a b] d] fs IH]; [reflexivity|].
  cbn in Hfs. apply andb_prop in Hfs as [Hm Hfs].
  change (forward_tokens ["-"; flag] ((a, b, d) :: fs) ++ ts)
    with (["-"; flag] :: tunnel_spec a b d :: (forward_tokens ["-"; flag] fs ++ ts)).
  rewrite !spaced_cons.
  rewrite findall_forward_space by reflexivity.
  change (["-"; flag] ++ " " :: tunnel_spec a b d ++ spaced (forward_tokens ["-"; flag] fs ++ ts))
    with ("-" :: flag :: " " :: tunnel_spec a b d ++ spaced (forward_tokens ["-"; flag] fs ++ ts)).
  rewrite findall_forward_hit by auto using stops_digit_spaced.
  rewrite IH by exact Hfs. reflexivity.
Qed.

Lemma search_number_spaced_skip flag t ts :
  is_space flag = false -> skippable flag t ->
  search_number flag (spaced (t :: ts)) = search_number flag (spaced ts).
Proof.
  intros Hf [Ht Hl]. rewrite spaced_cons.
  rewrite search_number_space by reflexivity.
  apply search_number_token; auto using starts_space_spaced.
Qed.

Lemma search_number_spaced_skips flag ts ts' :
  is_space flag = false -> Forall (skippable flag) ts ->
  search_number flag (spaced (ts ++ ts')) = search_number flag (spaced ts').
Proof.
  intros Hf Hts. induction Hts as [|t ts Ht Hts IH]; [reflexivity|].
  cbn [app]. rewrite search_number_spaced_skip by assumption. exact IH.
Qed.

Lemma search_number_spaced_none flag ts t :
  is_space flag = false -> Forall (skippable flag) ts -> ws_free t = true ->
  search_number flag (spaced (ts ++ [t])) = None.
Proof.
  intros Hf Hts Ht. rewrite search_number_spaced_skips by assumption.
  change (spaced [t]) with (" " :: t ++ []). rewrite app_nil_r.
  rewrite search_number_space by reflexivity.
  apply search_number_last. exact Ht.
Qed.

Lemma search_number_spaced_hit flag d ts :
  digits d = true ->
  search_number flag (spaced (["-"; flag] :: d :: ts)) = Some d.
Proof.
  intros Hd. rewrite !spaced_cons.
  rewrite search_number_space by reflexivity.
  change (["-"; flag] ++ " " :: d ++ spaced ts)
    with ("-" :: flag :: " " :: d ++ spaced ts).
  apply search_number_hit; auto using stops_digit_spaced.
Qed.

Lemma findall_forward_spaced_skips flag ts ts' :
  is_space flag = false -> Forall (skippable flag) ts ->
  findall_forward flag 0 (spaced (ts ++ ts')) = findall_forward flag 0 (spaced ts').
Proof.
  intros Hf Hts. induction Hts as [|t ts Ht Hts IH]; [reflexivity|].
  cbn [app]. rewrite findall_forward_spaced_skip by assumption. exact IH.
Qed.

Lemma search_user_host_ws_spaced_skips ts ts' :
  Forall (fun t => forallb user_char t = true) ts ->
  search_user_host_ws (spaced (ts ++ ts')) = search_user_host_ws (spaced ts').
Proof.
  intros Hts. induction Hts as [|t ts Ht Hts IH]; [reflexivity|].
  cbn [app]. rewrite spaced_cons.
  rewrite search_user_host_ws_token by auto using starts_space_spaced.
  exact IH.
Qed.

End SpacedWords.

(** * What the parser returns *)

Section Parsed.

Lemma triple_ok_swap a b d : triple_ok (d, b, a) = triple_ok (a, b, d).
Proof.
  unfold triple_ok. destruct (digits a), (digits d), (host_name b); reflexivity.
Qed.

Lemma remote_parts_of_local ms :
  forallb triple_ok ms = true ->
  forallb triple_ok
    (map (fun f => (fwd_remote_port f, fwd_remote_host f, fwd_local_port f))
       (map forward_of_local ms)) = true.
Proof.
  induction ms as [|[[a b] d] ms IH]; [reflexivity|].
  cbn [map forallb forward_of_local fwd_remote_port fwd_remote_host fwd_local_port].
  rewrite triple_ok_swap. intros [-> H]%andb_prop. exact (IH H).
Qed.

Lemma parse_parsed command c : parse_ssh_command command = Ok c -> parsed c.
Proof.
  intros (u & h & Huh & _ & ->)%parse_Ok_inv.
  apply search_user_host_ok in Huh as [Hu Hh].
  rewrite apply_local_matches_eq, apply_remote_matches_eq.
  pose proof (findall_forward_ok "L" 0 (normalize command)) as HL.
  pose proof (findall_forward_ok "R" 0 (normalize command)) as HR.
  pose proof (search_number_ok "D" (normalize command)) as HD.
  pose proof (search_number_ok "p" (normalize command)) as HP.
  fold (local_matches command) in HL. fold (remote_matches command) in HR.
  fold (dynamic_match command) in HD. fold (port_match command) in HP.
  assert (HP' : digits (ssh_port (apply_port_match (port_match command)
                                    default_config)) = true).
  { destruct (port_match command) as [p|]; [exact (HP p eq_refl)|reflexivity]. }
  destruct (dynamic_match command) as [n|].
  { specialize (HD n eq_refl).
    destruct (remote_matches command) as [|[[ra rb] rd] [|r2 rs]];
      destruct (local_matches command) as [|[[la lb] ld] [|l2 ls]];
      destruct (port_match command) as [p|];
      (split; [exact HP'|exact Hu|exact Hh|intros _; exact HD
              |cbn; lia|left; reflexivity]). }
  clear HD.
  destruct (remote_matches command) as [|[[ra rb] rd] [|r2 rs]].
  - destruct (local_matches command) as [|[[la lb] ld] [|l2 ls]];
      destruct (port_match command) as [p|];
      (split; [exact HP'|exact Hu|exact Hh|discriminate|cbn; lia|]).
    1,2: right; repeat split.
    1,2: left; cbn in HL |- *; rewrite andb_true_r in HL; rewrite HL; reflexivity.
    1,2: left; unfold emitted_forwards; cbn -[forallb map];
         rewrite local_parts_of_local; exact HL.
  - destruct (local_matches command) as [|[[la lb] ld] [|l2 ls]];
      destruct (port_match command) as [p|];
      (split; [exact HP'|exact Hu|exact Hh|discriminate|cbn; lia|]).
    1,2,3,4: left; cbn in HR |- *; rewrite andb_true_r in HR; rewrite HR; reflexivity.
    1,2: left; unfold emitted_forwards; cbn -[forallb map];
         apply remote_parts_of_local; exact HL.
  - destruct (local_matches command) as [|[[la lb] ld] [|l2 ls]];
      destruct (port_match command) as [p|];
      (split; [exact HP'|exact Hu|exact Hh|discriminate|cbn; lia|]);
      left; unfold emitted_forwards; cbn -[forallb map];
      rewrite remote_parts_of_remote; exact HR.
Qed.

End Parsed.

(** * The exported text, read again *)

Section ExportedWords.

Lemma forallb_last (p : ascii -> bool) (s : str) c :
  forallb p s = true -> last s = Some c -> p c = true.
Proof.
  intros Hs Hl. apply last_Some_elem_of, list_elem_of_In in Hl.
  rewrite forallb_forall in Hs. apply Hs. exact Hl.
Qed.

Lemma tunnel_spec_ws_free a b d :
  triple_ok (a, b, d) = true -> ws_free (tunnel_spec a b d) = true.
Proof.
  unfold triple_ok, digits, host_name, tunnel_spec.
  intros [[[_ Ha]%andb_prop [_ Hb]%andb_prop]%andb_prop [_ Hd]%andb_prop]%andb_prop.
  rewrite !ws_free_app, (digits_ws_free a Ha), (host_chars_ws_free b Hb),
    (digits_ws_free d Hd). reflexivity.
Qed.

Lemma tunnel_spec_last a b d flag :
  triple_ok (a, b, d) = true -> is_digit flag = false ->
  last (tunnel_spec a b d) <> Some flag.
Proof.
  unfold triple_ok, digits, tunnel_spec.
  intros [_ [Hne Hd]%andb_prop]%andb_prop Hf Hl.
  destruct d as [|z d]; [discriminate|].
  rewrite !app_assoc in Hl. rewrite last_app in Hl.
  destruct (last (z :: d)) as [c|] eqn:E; [|apply last_None in E; discriminate].
  injection Hl as ->. rewrite (forallb_last is_digit _ _ Hd E) in Hf. discriminate.
Qed.

Lemma tunnel_spec_is_token a b d :
  triple_ok (a, b, d) = true -> is_token (tunnel_spec a b d) = true.
Proof.
  intros H. unfold is_token. rewrite (tunnel_spec_ws_free _ _ _ H).
  unfold triple_ok, digits in H. destruct a; [discriminate|reflexivity].
Qed.

Lemma digits_is_token d : digits d = true -> is_token d = true.
Proof.
  unfold digits, is_token. intros [-> H]%andb_prop.
  rewrite (digits_ws_free d H). reflexivity.
Qed.

Lemma digits_last d flag :
  digits d = true -> is_digit flag = false -> last d <> Some flag.
Proof.
  unfold digits. intros [_ Hd]%andb_prop Hf Hl.
  rewrite (forallb_last is_digit _ _ Hd Hl) in Hf. discriminate.
Qed.

Lemma skippable_digits d flag :
  digits d = true -> is_digit flag = false -> skippable flag d.
Proof.
  intros Hd Hf. split; [|apply digits_last; assumption].
  apply digits_is_token in Hd. unfold is_token in Hd.
  apply andb_prop in Hd as [_ Hd]. exact Hd.
Qed.

(** The words of the forwards of one flag, seen by the pattern of another
    flag. *)
Lemma skippable_forward_tokens flag other fs :
  forallb triple_ok fs = true -> is_digit flag = false ->
  skippable flag ["-"; other] ->
  Forall (skippable flag) (forward_tokens ["-"; other] fs).
Proof.
  intros Hfs Hf Ho. induction fs as [|[[a b] d] fs IH]; [constructor|].
  cbn in Hfs. apply andb_prop in Hfs as [Hm Hfs].
  change (forward_tokens ["-"; other] ((a, b, d) :: fs))
    with (["-"; other] :: tunnel_spec a b d :: forward_tokens ["-"; other] fs).
  constructor; [exact Ho|]. constructor; [|exact (IH Hfs)].
  split; [apply tunnel_spec_ws_free|apply tunnel_spec_last]; assumption.
Qed.

Lemma forward_tokens_are_tokens other fs :
  forallb triple_ok fs = true -> is_token ["-"; other] = true ->
  forallb is_token (forward_tokens ["-"; other] fs) = true.
Proof.
  intros Hfs Ho. induction fs as [|[[a b] d] fs IH]; [reflexivity|].
  cbn in Hfs. apply andb_prop in Hfs as [Hm Hfs].
  change (forward_tokens ["-"; other] ((a, b, d) :: fs))
    with (["-"; other] :: tunnel_spec a b d :: forward_tokens ["-"; other] fs).
  cbn [forallb]. rewrite Ho, (tunnel_spec_is_token _ _ _ Hm), (IH Hfs).
  reflexivity.
Qed.

(** The flag followed by a word that does not begin with a digit is not a
    match. *)
Lemma findall_forward_spaced_flag flag t ts :
  is_space flag = false -> skippable flag t ->
  t <> [] -> stops is_digit t = true ->
  findall_forward flag 0 (spaced (["-"; flag] :: t :: ts))
  = findall_forward flag 0 (spaced ts).
Proof.
  intros Hf [Ht Hl] Hne Hd.
  destruct t as [|x t]; [contradiction|]. cbn in Hd. apply negb_true_iff in Hd.
  assert (Hx : is_space x = false).
  { cbn in Ht. apply andb_prop in Ht as [Hx%negb_true_iff _]. exact Hx. }
  rewrite !spaced_cons. rewrite findall_forward_space by reflexivity.
  change (["-"; flag] ++ " " :: (x :: t) ++ spaced ts)
    with ("-" :: flag :: " " :: x :: t ++ spaced ts).
  rewrite findall_forward_0.
  assert (E : match_forward_at flag ("-" :: flag :: " " :: x :: t ++ spaced ts)
              = None).
  { unfold match_forward_at. rewrite !ascii_eqb_refl. cbn [andb].
    change (span is_space (" " :: x :: t ++ spaced ts))
      with (let '(u, v) := span is_space (x :: t ++ spaced ts) in (" " :: u, v)).
    rewrite (span_fails is_space x _ Hx), (span_fails is_digit x _ Hd).
    reflexivity. }
  rewrite E, findall_forward_0.
  assert (E2 : match_forward_at flag (flag :: " " :: x :: t ++ spaced ts) = None).
  { unfold match_forward_at.
    rewrite (ascii_eqb_neq " " flag) by (intros <-; discriminate).
    rewrite andb_false_r. reflexivity. }
  rewrite E2. rewrite findall_forward_space by reflexivity.
  change (x :: t ++ spaced ts) with ((x :: t) ++ spaced ts).
  apply findall_forward_token; auto using starts_space_spaced.
Qed.

End ExportedWords.

Section ConfigOfMatches.

(** The fields that the last steps of the parser leave as they are. *)
Lemma parse_tail_fields n h u p x :
  let c := set_name n (set_ssh_host h (set_ssh_user u (apply_port_match p x))) in
  type c = type x /\ forwards c = forwards x /\
  emitted_forwards c = emitted_forwards x /\
  local_port c = local_port x /\
  ssh_user c = u /\ ssh_host c = h /\
  ssh_port c = match p with Some d => d | None => ssh_port x end.
Proof. destruct p; repeat split. Qed.

Lemma forward_of_local_parts fs :
  map forward_of_local
    (map (fun f => (fwd_local_port f, fwd_remote_host f, fwd_remote_port f)) fs)
  = fs.
Proof.
  induction fs as [|[a b d] fs IH]; [reflexivity|]. cbn. rewrite IH. reflexivity.
Qed.

Lemma forward_of_remote_parts fs :
  map forward_of_remote
    (map (fun f => (fwd_remote_port f, fwd_remote_host f, fwd_local_port f)) fs)
  = fs.
Proof.
  induction fs as [|[a b d] fs IH]; [reflexivity|]. cbn. rewrite IH. reflexivity.
Qed.

(** Parsing the forwards written for a local configuration gives back its
    forwards. *)
Lemma local_matches_config c :
  type c = local -> length (forwards c) <> 1 ->
  let c' := apply_local_matches (emitted_forwards c) default_config in
  type c' = local /\ forwards c' = forwards c /\
  emitted_forwards c' = emitted_forwards c.
Proof.
  intros Ht Hl. cbv zeta. rewrite apply_local_matches_eq.
  unfold emitted_forwards. rewrite Ht.
  destruct (forwards c) as [|[a1 b1 d1] [|[a2 b2 d2] fs]]; [| contradiction |].
  - split; [reflexivity|]. split; reflexivity.
  - cbn. rewrite !forward_of_local_parts.
    split; [reflexivity|]. split; reflexivity.
Qed.

(** The same for a remote configuration, whatever the [-L] matches made of
    the scalar fields of [x]. *)
Lemma remote_matches_config c x :
  type c = remote -> length (forwards c) <> 1 -> forwards x = [] ->
  let c' := apply_remote_matches (emitted_forwards c) x in
  type c' = remote /\ forwards c' = forwards c /\
  emitted_forwards c' = emitted_forwards c.
Proof.
  intros Ht Hl Hx. cbv zeta. rewrite apply_remote_matches_eq.
  unfold emitted_forwards. rewrite Ht.
  destruct (forwards c) as [|[a1 b1 d1] [|[a2 b2 d2] fs]]; [| contradiction |].
  - cbn. rewrite Hx. split; [reflexivity|]. split; reflexivity.
  - cbn. rewrite !forward_of_remote_parts.
    split; [reflexivity|]. split; reflexivity.
Qed.

End ConfigOfMatches.

Section RoundTrip.

Context (c : Config) (Hc : parsed c).

(** The four shapes of the flag words of a parsed configuration. *)
Lemma flag_cases :
  (type c = dynamic /\ digits (local_port c) = true /\
   emitted_forwards c = [] /\
   flag_tokens c = [["-"; "D"]; local_port c]) \/
  (type c = local /\ forallb triple_ok (emitted_forwards c) = true /\
   flag_tokens c = forward_tokens ["-"; "L"] (emitted_forwards c)) \/
  (type c = local /\ forwards c = [] /\
   emitted_forwards c = [([], lit "localhost", [])] /\
   flag_tokens c = [["-"; "L"]; lit ":localhost:"]) \/
  (type c = remote /\ forallb triple_ok (emitted_forwards c) = true /\
   flag_tokens c = forward_tokens ["-"; "R"] (emitted_forwards c)).
Proof.
  destruct Hc as [_ _ _ Hlisten _ Hem].
  unfold flag_tokens, emitted_forwards in *.
  destruct (type c) eqn:Ht.
  - destruct Hem as [Hem|(_ & Hf & Hl & Hh & Hr)].
    + right. left. repeat split. exact Hem.
    + right. right. left. rewrite Hf, Hl, Hh, Hr. repeat split.
  - destruct Hem as [Hem|(? & _)]; [|discriminate].
    right. right. right. repeat split. exact Hem.
  - left. repeat split. apply Hlisten. reflexivity.
Qed.

Lemma user_host_ws_free : ws_free (user_host c) = true.
Proof.
  destruct Hc as [_ Hu Hh _ _ _]. unfold user_host.
  unfold user_name in Hu. apply andb_prop in Hu as [_ Hu].
  unfold is_token in Hh. apply andb_prop in Hh as [_ Hh].
  rewrite !ws_free_app, (user_chars_ws_free _ Hu), Hh. reflexivity.
Qed.

Lemma user_host_is_token : is_token (user_host c) = true.
Proof.
  unfold is_token. rewrite user_host_ws_free.
  destruct Hc as [_ Hu _ _ _ _]. unfold user_host.
  destruct (ssh_user c); [discriminate|reflexivity].
Qed.

Lemma port_tokens_are_tokens : forallb is_token (port_tokens c) = true.
Proof.
  unfold port_tokens. destruct (decide _); [reflexivity|].
  cbn [forallb]. rewrite (digits_is_token _ (parsed_port c Hc)). reflexivity.
Qed.

Lemma flag_tokens_are_tokens : forallb is_token (flag_tokens c) = true.
Proof.
  destruct flag_cases as [(_ & Hd & _ & ->)|[(_ & Hm & ->)|[(_ & _ & _ & ->)|(_ & Hm & ->)]]].
  - cbn [forallb]. rewrite (digits_is_token _ Hd). reflexivity.
  - apply forward_tokens_are_tokens; [exact Hm|reflexivity].
  - reflexivity.
  - apply forward_tokens_are_tokens; [exact Hm|reflexivity].
Qed.

Lemma export_tokens_are_tokens : forallb is_token (export_tokens c) = true.
Proof.
  unfold export_tokens. rewrite !forallb_app.
  rewrite flag_tokens_are_tokens, port_tokens_are_tokens.
  cbn [forallb]. rewrite user_host_is_token. reflexivity.
Qed.

Lemma normalize_export :
  normalize (export_to_command c) = export_to_command c.
Proof.
  rewrite export_to_command_tokens. apply normalize_join.
  exact export_tokens_are_tokens.
Qed.

Lemma export_spaced : spaced (export_tokens c) = " " :: export_to_command c.
Proof.
  rewrite export_to_command_tokens. unfold export_tokens. cbn [app].
  rewrite join_spaced. reflexivity.
Qed.

Lemma startswith_export :
  startswith (lit "ssh") (export_to_command c) = true.
Proof. rewrite export_to_command_tokens. reflexivity. Qed.

(** The words before [user@host], seen by the pattern of a flag that the
    configuration does not write. *)
Lemma flag_tokens_skippable flag :
  is_digit flag = false -> is_space flag = false -> flag <> ":" ->
  (type c = dynamic -> flag <> "D") ->
  (type c = local -> flag <> "L") ->
  (type c = remote -> flag <> "R") ->
  Forall (skippable flag) (flag_tokens c).
Proof.
  intros Hd Hs Hcolon HD HL HR.
  destruct flag_cases as [(Ht & Hp & _ & ->)|[(Ht & Hm & ->)|[(Ht & _ & _ & ->)|(Ht & Hm & ->)]]].
  - constructor; [split; [reflexivity|cbn; specialize (HD Ht); congruence]|].
    constructor; [|constructor]. apply skippable_digits; assumption.
  - apply skippable_forward_tokens; [assumption..|].
    split; [reflexivity|cbn; specialize (HL Ht); congruence].
  - constructor; [split; [reflexivity|cbn; specialize (HL Ht); congruence]|].
    constructor; [|constructor].
    split; [reflexivity|]. vm_compute. congruence.
  - apply skippable_forward_tokens; [assumption..|].
    split; [reflexivity|cbn; specialize (HR Ht); congruence].
Qed.

Lemma port_tokens_skippable flag :
  is_digit flag = false -> flag <> "p" ->
  Forall (skippable flag) (port_tokens c).
Proof.
  intros Hd Hp. unfold port_tokens. destruct (decide _); [constructor|].
  constructor; [split; [reflexivity|cbn; congruence]|].
  constructor; [|constructor].
  apply skippable_digits; [exact (parsed_port c Hc)|exact Hd].
Qed.

Lemma head_tokens_skippable flag :
  flag <> "h" -> flag <> "N" ->
  Forall (skippable flag) [lit "ssh"; lit "-N"].
Proof.
  intros Hh HN.
  constructor; [split; [reflexivity|vm_compute; congruence]|].
  constructor; [split; [reflexivity|vm_compute; congruence]|constructor].
Qed.

(** No match of the pattern of a flag that the configuration does not
    write. *)
Lemma export_words_split :
  export_tokens c =
  ([lit "ssh"; lit "-N"] ++ flag_tokens c ++ port_tokens c) ++ [user_host c].
Proof. unfold export_tokens. rewrite <- !app_assoc. reflexivity. Qed.

Lemma export_other_flag flag :
  is_digit flag = false -> is_space flag = false -> flag <> ":" ->
  flag <> "h" -> flag <> "N" -> flag <> "p" ->
  (type c = dynamic -> flag <> "D") ->
  (type c = local -> flag <> "L") ->
  (type c = remote -> flag <> "R") ->
  findall_forward flag 0 (spaced (export_tokens c)) = [] /\
  search_number flag (spaced (export_tokens c)) = None.
Proof.
  intros Hd Hs Hcolon Hh HN Hp HD HL HR.
  assert (Hall : Forall (skippable flag)
                   ([lit "ssh"; lit "-N"] ++ flag_tokens c ++ port_tokens c)).
  { apply Forall_app. split; [apply head_tokens_skippable; assumption|].
    apply Forall_app. split;
      [apply flag_tokens_skippable|apply port_tokens_skippable]; assumption. }
  rewrite export_words_split. split.
  - apply findall_forward_spaced_none; auto using user_host_ws_free.
  - apply search_number_spaced_none; auto using user_host_ws_free.
Qed.

Lemma export_tail_forward flag :
  is_digit flag = false -> is_space flag = false -> flag <> "p" ->
  findall_forward flag 0 (spaced (port_tokens c ++ [user_host c])) = [].
Proof.
  intros Hd Hs Hp. apply findall_forward_spaced_none;
    auto using user_host_ws_free, port_tokens_skippable.
Qed.

(** The matches of the flag of the configuration are its forwards. *)
Lemma export_same_flag flag :
  is_digit flag = false -> is_space flag = false ->
  flag <> "h" -> flag <> "N" -> flag <> "p" ->
  forallb triple_ok (emitted_forwards c) = true ->
  flag_tokens c = forward_tokens ["-"; flag] (emitted_forwards c) ->
  findall_forward flag 0 (spaced (export_tokens c)) = emitted_forwards c.
Proof.
  intros Hd Hs Hh HN Hp Hm Hf. unfold export_tokens. rewrite Hf.
  rewrite findall_forward_spaced_skips
    by (assumption || apply head_tokens_skippable; assumption).
  rewrite findall_forward_spaced_hits by exact Hm.
  rewrite export_tail_forward by assumption. apply app_nil_r.
Qed.

(** The default [-L :localhost:] is no match. *)
Lemma export_default_forward :
  flag_tokens c = [["-"; "L"]; lit ":localhost:"] ->
  findall_forward "L" 0 (spaced (export_tokens c)) = [].
Proof.
  intros Hf. unfold export_tokens. rewrite Hf.
  rewrite findall_forward_spaced_skips
    by (reflexivity || apply head_tokens_skippable; discriminate).
  change ([["-"; "L"]; lit ":localhost:"] ++ port_tokens c ++ [user_host c])
    with (["-"; "L"] :: lit ":localhost:" :: port_tokens c ++ [user_host c]).
  rewrite findall_forward_spaced_flag;
    [|reflexivity|split; [reflexivity|vm_compute; discriminate]
     |discriminate|reflexivity].
  apply export_tail_forward; (reflexivity || discriminate).
Qed.

Lemma export_listen_port :
  digits (local_port c) = true ->
  flag_tokens c = [["-"; "D"]; local_port c] ->
  search_number "D" (spaced (export_tokens c)) = Some (local_port c).
Proof.
  intros Hd Hf. unfold export_tokens. rewrite Hf.
  rewrite search_number_spaced_skips
    by (reflexivity || apply head_tokens_skippable; discriminate).
  apply search_number_spaced_hit. exact Hd.
Qed.

Lemma flag_tokens_skippable_p : Forall (skippable "p") (flag_tokens c).
Proof. apply flag_tokens_skippable; (reflexivity || discriminate). Qed.

Lemma export_ssh_port :
  search_number "p" (spaced (export_tokens c)) =
  if decide (ssh_port c = lit "22") then None else Some (ssh_port c).
Proof.
  unfold export_tokens, port_tokens. destruct (decide _) as [E|E].
  - rewrite !app_assoc, app_nil_r.
    apply search_number_spaced_none; [reflexivity| |exact user_host_ws_free].
    apply Forall_app. split;
      [apply head_tokens_skippable; discriminate|exact flag_tokens_skippable_p].
  - rewrite app_assoc.
    rewrite search_number_spaced_skips; [|reflexivity|].
    + apply search_number_spaced_hit. exact (parsed_port c Hc).
    + apply Forall_app. split;
        [apply head_tokens_skippable; discriminate|exact flag_tokens_skippable_p].
Qed.

Lemma search_user_host_spaced s :
  search_user_host s = search_user_host_ws (" " :: s).
Proof. reflexivity. Qed.

Lemma export_user_host_last :
  search_user_host_ws (spaced [user_host c]) = Some (ssh_user c, ssh_host c).
Proof.
  change (spaced [user_host c])
    with (" " :: (ssh_user c ++ "@" :: ssh_host c) ++ []).
  rewrite app_nil_r.
  apply search_user_host_ws_hit; [exact (parsed_user c Hc)|exact (parsed_host c Hc)].
Qed.

(** Some [user@host] is always found in the exported text. *)
Lemma export_user_host_found :
  is_Some (search_user_host (export_to_command c)).
Proof.
  rewrite search_user_host_spaced, <- export_spaced, export_words_split, spaced_app.
  apply search_user_host_ws_later. rewrite export_user_host_last.
  eexists. reflexivity.
Qed.

(** It is the one of the configuration when no forward written before it
    has an [@] in its host. *)
Lemma export_user_host :
  Forall (fun m : str * str * str => "@" ∉ m.1.2) (emitted_forwards c) ->
  search_user_host (export_to_command c) = Some (ssh_user c, ssh_host c).
Proof.
  intros Hat.
  rewrite search_user_host_spaced, <- export_spaced, export_words_split.
  rewrite search_user_host_ws_spaced_skips; [exact export_user_host_last|].
  assert (Hno_at : forall b : str,
            forallb host_char b = true -> "@" ∉ b -> forallb user_char b = true).
  { intros b Hb Hn. apply forallb_forall. intros x Hx.
    rewrite forallb_forall in Hb. specialize (Hb x Hx).
    unfold user_char. rewrite (host_char_not_space x Hb). cbn.
    rewrite ascii_eqb_neq; [reflexivity|].
    intros ->. apply Hn, list_elem_of_In, Hx. }
  assert (Hfw : forall flag, user_char flag = true ->
            forallb triple_ok (emitted_forwards c) = true ->
            Forall (fun t => forallb user_char t = true)
              (forward_tokens ["-"; flag] (emitted_forwards c))).
  { intros flag Hflag Hm.
    induction (emitted_forwards c) as [|[[a b] d] fs IH]; [constructor|].
    cbn in Hm. apply andb_prop in Hm as [Hm Hfs].
    apply Forall_cons in Hat as [Hb Hat]. cbn in Hb.
    change (forward_tokens ["-"; flag] ((a, b, d) :: fs))
      with (["-"; flag] :: tunnel_spec a b d :: forward_tokens ["-"; flag] fs).
    constructor; [cbn; rewrite Hflag; reflexivity|].
    constructor; [|exact (IH Hat Hfs)].
    unfold triple_ok, digits, host_name in Hm.
    apply andb_prop in Hm as [[[_ Ha]%andb_prop [_ Hh]%andb_prop]%andb_prop [_ Hd]%andb_prop].
    unfold tunnel_spec. rewrite !forallb_app.
    rewrite (forallb_impl _ _ a digit_user_char Ha),
      (forallb_impl _ _ d digit_user_char Hd), (Hno_at b Hh Hb).
    reflexivity. }
  apply Forall_app. split; [repeat constructor|].
  apply Forall_app. split.
  - destruct flag_cases as [(_ & Hp & _ & ->)|[(_ & Hm & ->)|[(_ & _ & _ & ->)|(_ & Hm & ->)]]].
    + constructor; [reflexivity|]. constructor; [|constructor].
      unfold digits in Hp. apply andb_prop in Hp as [_ Hp].
      exact (forallb_impl _ _ _ digit_user_char Hp).
    + apply Hfw; [reflexivity|exact Hm].
    + repeat constructor.
    + apply Hfw; [reflexivity|exact Hm].
  - unfold port_tokens. destruct (decide _); [constructor|].
    constructor; [reflexivity|]. constructor; [|constructor].
    pose proof (parsed_port c Hc) as Hp.
    unfold digits in Hp. apply andb_prop in Hp as [_ Hp].
    exact (forallb_impl _ _ _ digit_user_char Hp).
Qed.

End RoundTrip.

(** The exported words of a parsed configuration are not empty and have no
    whitespace. *)
Lemma parse_export_tokens command c :
  parse_ssh_command command = Ok c ->
  forallb is_token (export_tokens c) = true.
Proof.
  intros H. apply export_tokens_are_tokens. exact (parse_parsed _ _ H).
Qed.

(** ** C2: round trip *)

(** C2, as stated, fails.  A dynamic configuration parsed from a command
    with two [-L] triples keeps them in ['forwards'], and the configuration
    parsed from its exported text has none.  And for a single forward whose
    host has an [@], the exported text has the forward before [user@host],
    and the forward is taken as user and host. *)
Lemma C2_round_trip_fails :
  (exists c c',
     parse_ssh_command
       (lit "ssh -L 27017:mongo-0:27017 -L 27018:mongo-1:27017 -D 1080 bob@db.internal")
       = Ok c /\
     parse_ssh_command (export_to_command c) = Ok c' /\
     forwards c' <> forwards c) /\
  (exists c c',
     parse_ssh_command (lit "ssh bob@srv -L 8080:u@h:80") = Ok c /\
     length (local_matches (lit "ssh bob@srv -L 8080:u@h:80")) = 1 /\
     parse_ssh_command (export_to_command c) = Ok c' /\
     ssh_user c = lit "bob" /\ ssh_user c' = lit "8080:u" /\
     ssh_host c = lit "srv" /\ ssh_host c' = lit "h:80").
Proof.
  split.
  - eexists. eexists. split; [vm_compute; reflexivity|].
    split; [vm_compute; reflexivity|]. vm_compute. discriminate.
  - eexists. eexists. split; [vm_compute; reflexivity|].
    split; [vm_compute; reflexivity|].
    split; [vm_compute; reflexivity|].
    repeat split; vm_compute; reflexivity.
Qed.

Section RoundTripTheorem.

Lemma ssh_port_matches d rs ls x :
  ssh_port (apply_dynamic_match d (apply_remote_matches rs
              (apply_local_matches ls x))) = ssh_port x.
Proof.
  destruct d, rs as [|[[? ?] ?] [|? ?]], ls as [|[[? ?] ?] [|? ?]]; reflexivity.
Qed.

Lemma findall_forward_export (c : Config) flag :
  findall_forward flag 0 (export_to_command c)
  = findall_forward flag 0 (spaced (export_tokens c)).
Proof.
  rewrite export_spaced, findall_forward_space by reflexivity. reflexivity.
Qed.

Lemma search_number_export (c : Config) flag :
  search_number flag (export_to_command c)
  = search_number flag (spaced (export_tokens c)).
Proof.
  rewrite export_spaced, search_number_space by reflexivity. reflexivity.
Qed.

(** The configuration parsed from the exported text of a parsed
    configuration. *)
Lemma parse_export c :
  parsed c ->
  exists x u h,
    search_user_host (export_to_command c) = Some (u, h) /\
    parse_ssh_command (export_to_command c) =
      Ok (let c' := set_ssh_host h (set_ssh_user u
                      (apply_port_match
                         (if decide (ssh_port c = lit "22") then None
                          else Some (ssh_port c)) x)) in
          set_name (default_name c') c') /\
    ssh_port x = lit "22" /\
    type x = type c /\ emitted_forwards x = emitted_forwards c /\
    (type c <> dynamic -> forwards x = forwards c).
Proof.
  intros Hc.
  destruct (export_user_host_found c Hc) as [[u h] Huh].
  exists (apply_dynamic_match (dynamic_match (export_to_command c))
            (apply_remote_matches (remote_matches (export_to_command c))
               (apply_local_matches (local_matches (export_to_command c))
                  default_config))), u, h.
  split; [exact Huh|]. split.
  { rewrite parse_unfold.
    unfold port_match. rewrite (normalize_export c Hc), (startswith_export c), Huh.
    rewrite search_number_export, (export_ssh_port c Hc). reflexivity. }
  split; [apply ssh_port_matches|].
  unfold dynamic_match, remote_matches, local_matches.
  rewrite (normalize_export c Hc), !findall_forward_export, search_number_export.
  destruct (flag_cases c Hc)
    as [(Ht & Hp & He & Hf)|[(Ht & Hm & Hf)|[(Ht & Hfw & He & Hf)|(Ht & Hm & Hf)]]].
  - rewrite (export_listen_port c Hp Hf).
    destruct (export_other_flag c Hc "L") as [-> _]; [side_condition Ht..|].
    destruct (export_other_flag c Hc "R") as [-> _]; [side_condition Ht..|].
    rewrite Ht, He. repeat split. intros H. contradiction.
  - rewrite (export_same_flag c Hc "L") by (reflexivity || discriminate || assumption).
    destruct (export_other_flag c Hc "R") as [-> _]; [side_condition Ht..|].
    destruct (export_other_flag c Hc "D") as [_ ->]; [side_condition Ht..|].
    destruct (local_matches_config c Ht (parsed_forwards c Hc)) as (H1 & H2 & H3).
    cbn [apply_dynamic_match apply_remote_matches].
    rewrite H1, H2, H3, Ht. repeat split.
  - rewrite (export_default_forward c Hc Hf).
    destruct (export_other_flag c Hc "R") as [-> _]; [side_condition Ht..|].
    destruct (export_other_flag c Hc "D") as [_ ->]; [side_condition Ht..|].
    rewrite Ht, He, Hfw. repeat split.
  - rewrite (export_same_flag c Hc "R") by (reflexivity || discriminate || assumption).
    destruct (export_other_flag c Hc "L") as [-> _]; [side_condition Ht..|].
    destruct (export_other_flag c Hc "D") as [_ ->]; [side_condition Ht..|].
    destruct (remote_matches_config c default_config Ht (parsed_forwards c Hc) eq_refl)
      as (H1 & H2 & H3).
    cbn [apply_dynamic_match apply_local_matches].
    rewrite H1, H2, H3, Ht. repeat split.
Qed.

End RoundTripTheorem.

(** C2 (amended): for every configuration [c] that the parser returns, the
    exported text of [c] is accepted by the parser, and the configuration
    parsed from it has the same type, the same ssh port and the same
    forwards written in the same order.  Its list ['forwards'] is that of
    [c] unless [c] is dynamic.  Its user and host are those of [c] provided
    no forward written for [c] has an [@] in its host.  The name is left
    out. *)
Theorem C2_round_trip command c :
  parse_ssh_command command = Ok c ->
  exists c',
    parse_ssh_command (export_to_command c) = Ok c' /\
    type c' = type c /\
    ssh_port c' = ssh_port c /\
    emitted_forwards c' = emitted_forwards c /\
    (type c <> dynamic -> forwards c' = forwards c) /\
    (Forall (fun m : str * str * str => "@" ∉ m.1.2) (emitted_forwards c) ->
     ssh_user c' = ssh_user c /\ ssh_host c' = ssh_host c).
Proof.
  intros Hp. pose proof (parse_parsed _ _ Hp) as Hc.
  destruct (parse_export c Hc) as (x & u & h & Huh & Hparse & Hport & Ht & He & Hf).
  eexists. split; [exact Hparse|]. cbv zeta.
  match goal with
  | |- context [set_name ?n (set_ssh_host h (set_ssh_user u (apply_port_match ?p x)))] =>
      destruct (parse_tail_fields n h u p x) as (F1 & F2 & F3 & _ & F5 & F6 & F7)
  end.
  rewrite F1, F2, F3, F5, F6, F7.
  split; [exact Ht|]. split.
  { destruct (decide (ssh_port c = lit "22")) as [E|E]; [|reflexivity].
    rewrite Hport, E. reflexivity. }
  split; [exact He|]. split; [exact Hf|].
  intros Hat. rewrite (export_user_host c Hc Hat) in Huh.
  injection Huh as <- <-. split; reflexivity.
Qed.

Lemma C2_round_trip_witness :
  exists c c',
    parse_ssh_command
      (lit "ssh -L 27017:mongo-0:27017 -L 27018:mongo-1:27017 -p 4022 bob@db.internal")
      = Ok c /\
    parse_ssh_command (export_to_command c) = Ok c' /\
    type c' = type c /\ ssh_port c' = ssh_port c /\
    forwards c' = forwards c /\
    ssh_user c' = ssh_user c /\ ssh_host c' = ssh_host c.
Proof.
  pose proof (C2_round_trip
    (lit "ssh -L 27017:mongo-0:27017 -L 27018:mongo-1:27017 -p 4022 bob@db.internal"))
    as H.
  edestruct H as (c' & Hp & Ht & Hport & _ & Hf & Hu).
  - vm_compute. reflexivity.
  - eexists. exists c'. split; [vm_compute; reflexivity|]. split; [exact Hp|].
    split; [exact Ht|]. split; [exact Hport|].
    split; [apply Hf; discriminate|].
    apply Hu. repeat constructor;
      apply (bool_decide_eq_false_1 _); vm_compute; reflexivity.
Defined.

(** * Further properties of the tunnel manager *)

Section ManagerSteps.

Context (env : Env).

Lemma set_status_lookup_ne p s procs q :
  p <> q -> set_status p s procs !! q = procs !! q.
Proof.
  intros H. unfold set_status.
  destruct (procs !! p); [apply list_lookup_insert_ne; exact H|reflexivity].
Qed.

Lemma set_status_lookup_eq p s procs pr :
  procs !! p = Some pr ->
  set_status p s procs !! p = Some (mkProcess (proc_cmd pr) s).
Proof.
  intros H. unfold set_status. rewrite H. apply list_lookup_insert_eq.
  eapply lookup_lt_Some. eassumption.
Qed.

Lemma poll_is_None_lookup m m' q :
  processes m' !! q = processes m !! q -> poll_is_None m' q = poll_is_None m q.
Proof. unfold poll_is_None. intros ->. reflexivity. Qed.

(** The manager after [stop_tunnel] for an identifier with an entry. *)
Lemma stop_tunnel_state tunnel_id m p :
  tunnels m !! tunnel_id = Some p ->
  tunnels (stop_tunnel env tunnel_id m).2 = delete tunnel_id (tunnels m) /\
  length (processes (stop_tunnel env tunnel_id m).2) = length (processes m) /\
  poll_is_None (stop_tunnel env tunnel_id m).2 p = false /\
  (forall q, q <> p ->
     processes (stop_tunnel env tunnel_id m).2 !! q = processes m !! q).
Proof.
  intros E. unfold stop_tunnel. rewrite E. cbn [snd tunnels processes].
  split; [reflexivity|].
  destruct (poll_is_None m p) eqn:Hp.
  - unfold poll_is_None in Hp.
    destruct (processes m !! p) as [pr|] eqn:Hpr; [|discriminate].
    destruct (exits_in_time env p);
      (split; [apply set_status_length|]);
      (split; [unfold poll_is_None; cbn [processes];
               rewrite (set_status_lookup_eq _ _ _ _ Hpr); reflexivity|]);
      intros q Hq; apply set_status_lookup_ne; congruence.
  - split; [reflexivity|]. split; [exact Hp|]. reflexivity.
Qed.

Lemma stop_tunnel_untracked tunnel_id m :
  tunnels m !! tunnel_id = None -> stop_tunnel env tunnel_id m = (NotFound, m).
Proof. intros E. unfold stop_tunnel. rewrite E. reflexivity. Qed.

(** The manager after [start_tunnel]. *)
Lemma start_tunnel_state tunnel_id config m :
  (start_tunnel env tunnel_id config m).2 = m \/
  (is_running tunnel_id m = false /\
   start_tunnel env tunnel_id config m =
     (Started,
      mkManager (<[tunnel_id := length (processes m)]> (tunnels m))
        (processes m ++ [mkProcess (start_cmd config) Running]))).
Proof.
  unfold start_tunnel. destruct (is_running tunnel_id m); [left; reflexivity|].
  destruct (popen_error env (start_cmd config)); [left; reflexivity|].
  right. split; reflexivity.
Qed.

Lemma start_tunnel_tracked tunnel_id config m :
  tracked_ok m -> tracked_ok (start_tunnel env tunnel_id config m).2.
Proof.
  intros [Hv Hd Hr].
  destruct (start_tunnel_state tunnel_id config m) as [->|[Hrun ->]];
    [split; assumption|].
  cbn [snd]. split; cbn [tunnels processes].
  - intros id' p [[_ <-]|[_ H]]%lookup_insert_Some;
      rewrite List.length_app; cbn [length]; [lia|].
    specialize (Hv _ _ H). lia.
  - intros id1 id2 p [[<- <-]|[Hn1 H1]]%lookup_insert_Some
                       [[<- E]|[Hn2 H2]]%lookup_insert_Some.
    + reflexivity.
    + specialize (Hv _ _ H2). lia.
    + specialize (Hv _ _ H1). lia.
    + exact (Hd _ _ _ H1 H2).
  - intros p Hp.
    destruct (decide (p = length (processes m))) as [->|Hne].
    + exists tunnel_id. apply lookup_insert_eq.
    + assert (Hlt : (p < length (processes m))%nat).
      { unfold poll_is_None in Hp. cbn [processes] in Hp.
        destruct (_ !! p) as [pr|] eqn:E; [|discriminate].
        apply lookup_lt_Some in E. rewrite List.length_app in E.
        cbn [length] in E. lia. }
      assert (Hp' : poll_is_None m p = true).
      { rewrite <- Hp. symmetry. apply poll_is_None_lookup.
        cbn [processes]. apply lookup_app_l. exact Hlt. }
      destruct (Hr p Hp') as [id' Hid'].
      exists id'. rewrite lookup_insert_ne; [exact Hid'|].
      intros <-. unfold is_running in Hrun. rewrite Hid', Hp' in Hrun.
      discriminate.
Qed.

Lemma stop_tunnel_tracked tunnel_id m :
  tracked_ok m -> tracked_ok (stop_tunnel env tunnel_id m).2.
Proof.
  intros [Hv Hd Hr].
  destruct (tunnels m !! tunnel_id) as [p|] eqn:E;
    [|rewrite (stop_tunnel_untracked _ _ E); split; assumption].
  destruct (stop_tunnel_state tunnel_id m p E) as (Ht & Hlen & Hp & Hq).
  split.
  - intros id' q. rewrite Ht, Hlen.
    intros [_ H]%lookup_delete_Some. exact (Hv _ _ H).
  - intros id1 id2 q. rewrite Ht.
    intros [_ H1]%lookup_delete_Some [_ H2]%lookup_delete_Some.
    exact (Hd _ _ _ H1 H2).
  - intros q Hrun.
    assert (Hne : q <> p) by (intros ->; rewrite Hp in Hrun; discriminate).
    rewrite (poll_is_None_lookup m _ q (Hq q Hne)) in Hrun.
    destruct (Hr q Hrun) as [id' Hid'].
    exists id'. rewrite Ht. apply lookup_delete_Some. split; [|exact Hid'].
    intros <-. rewrite E in Hid'. congruence.
Qed.

Lemma process_exits_tracked p m :
  tracked_ok m -> tracked_ok (process_exits p m).
Proof.
  intros [Hv Hd Hr]. unfold process_exits.
  destruct (poll_is_None m p) eqn:Hp; [|split; assumption].
  split; cbn [tunnels processes].
  - intros id' q H. rewrite set_status_length. exact (Hv _ _ H).
  - exact Hd.
  - intros q Hrun. apply Hr.
    destruct (decide (q = p)) as [->|Hne].
    + exact Hp.
    + rewrite <- Hrun. symmetry. apply poll_is_None_lookup.
      cbn [processes]. apply set_status_lookup_ne. congruence.
Qed.

Lemma stop_all_tracked ids m :
  tracked_ok m ->
  tracked_ok (foldl (fun m tunnel_id => (stop_tunnel env tunnel_id m).2) m ids).
Proof.
  revert m. induction ids as [|i ids IH]; intros m H; [exact H|].
  cbn [foldl]. apply IH, stop_tunnel_tracked, H.
Qed.

Lemma cleanup_tracked m : tracked_ok m -> tracked_ok (cleanup env m).
Proof. apply stop_all_tracked. Qed.

Lemma cleanup_lookup m k : tunnels (cleanup env m) !! k = None.
Proof.
  unfold cleanup. rewrite cleanup_fold_tunnels.
  destruct (decide (k ∈ (map_to_list (tunnels m)).*1)) as [Hin|Hin];
    [reflexivity|].
  destruct (tunnels m !! k) as [p|] eqn:E; [|reflexivity].
  exfalso. apply Hin.
  apply list_elem_of_fmap. exists (k, p). split; [reflexivity|].
  apply elem_of_map_to_list. exact E.
Qed.

Lemma toggle_tunnel_tracked config m :
  tracked_ok m -> tracked_ok (toggle_tunnel env config m).
Proof.
  intros H. unfold toggle_tunnel.
  destruct (is_running (name config) m);
    [apply stop_tunnel_tracked|apply start_tunnel_tracked]; exact H.
Qed.

(** No process runs when none is polled as running. *)
Lemma no_live_processes (procs : list Process) :
  (forall i pr, procs !! i = Some pr -> is_Running (proc_status pr) = false) ->
  filter (fun pr => is_Running (proc_status pr)) procs = [].
Proof.
  induction procs as [|x procs IH]; intros H; [reflexivity|].
  rewrite filter_cons_False.
  - apply IH. intros i pr Hi. exact (H (S i) pr Hi).
  - rewrite (H 0 x eq_refl). exact id.
Qed.

Lemma live_processes_none m :
  (forall p, poll_is_None m p = false) -> live_processes m = 0.
Proof.
  intros H. unfold live_processes. rewrite no_live_processes; [reflexivity|].
  intros i pr Hi. specialize (H i). unfold poll_is_None in H.
  rewrite Hi in H. exact H.
Qed.

End ManagerSteps.

Lemma new_manager_tracked : tracked_ok new_manager.
Proof.
  split.
  - intros tunnel_id p H.
    change (tunnels new_manager) with (∅ : gmap str nat) in H.
    rewrite lookup_empty in H. discriminate.
  - intros id1 id2 p H.
    change (tunnels new_manager) with (∅ : gmap str nat) in H.
    rewrite lookup_empty in H. discriminate.
  - intros p H. discriminate.
Qed.

(** X12: the operations of the manager keep its handles sound: every handle
    in the mapping is that of a process created, no two identifiers have
    the same handle, and every running process has an identifier. *)
Theorem X12_manager_invariant env tunnel_id (config : Config) p m :
  tracked_ok m ->
  tracked_ok (start_tunnel env tunnel_id config m).2 /\
  tracked_ok (stop_tunnel env tunnel_id m).2 /\
  tracked_ok (cleanup env m) /\
  tracked_ok (toggle_tunnel env config m) /\
  tracked_ok (process_exits p m).
Proof.
  intros H. split; [apply start_tunnel_tracked, H|].
  split; [apply stop_tunnel_tracked, H|].
  split; [apply cleanup_tracked, H|].
  split; [apply toggle_tunnel_tracked, H|apply process_exits_tracked, H].
Qed.

Lemma X12_manager_invariant_witness :
  tracked_ok (start_tunnel env_graceful (lit "web") default_config new_manager).2 /\
  tracked_ok (cleanup env_stubborn new_manager).
Proof.
  destruct (X12_manager_invariant env_graceful (lit "web") default_config 0
              new_manager new_manager_tracked) as (H1 & _).
  destruct (X12_manager_invariant env_stubborn (lit "web") default_config 0
              new_manager new_manager_tracked) as (_ & _ & H3 & _).
  split; assumption.
Defined.

(** X13: starting or stopping one tunnel leaves the entry and the running
    state of every other tunnel as they are. *)
Theorem X13_other_tunnels_untouched env tunnel_id other config m :
  tracked_ok m -> other <> tunnel_id ->
  tunnels (start_tunnel env tunnel_id config m).2 !! other = tunnels m !! other /\
  is_running other (start_tunnel env tunnel_id config m).2 = is_running other m /\
  tunnels (stop_tunnel env tunnel_id m).2 !! other = tunnels m !! other /\
  is_running other (stop_tunnel env tunnel_id m).2 = is_running other m.
Proof.
  intros [Hv Hd Hr] Hne.
  assert (Hstart :
    tunnels (start_tunnel env tunnel_id config m).2 !! other = tunnels m !! other /\
    is_running other (start_tunnel env tunnel_id config m).2 = is_running other m).
  { destruct (start_tunnel_state env tunnel_id config m) as [->|[_ ->]];
      [split; reflexivity|].
    cbn [snd]. unfold is_running. cbn [tunnels].
    rewrite lookup_insert_ne by congruence. split; [reflexivity|].
    destruct (tunnels m !! other) as [q|] eqn:E; [|reflexivity].
    apply poll_is_None_lookup. cbn [processes].
    apply lookup_app_l. exact (Hv _ _ E). }
  destruct Hstart as [H1 H2]. split; [exact H1|]. split; [exact H2|].
  destruct (tunnels m !! tunnel_id) as [p|] eqn:E;
    [|rewrite (stop_tunnel_untracked _ _ _ E); split; reflexivity].
  destruct (stop_tunnel_state env tunnel_id m p E) as (Ht & _ & _ & Hq).
  unfold is_running. rewrite Ht, lookup_delete_ne by congruence.
  split; [reflexivity|].
  destruct (tunnels m !! other) as [q|] eqn:Eo; [|reflexivity].
  apply poll_is_None_lookup, Hq.
  intros ->. apply Hne. exact (Hd _ _ _ Eo E).
Qed.

Lemma X13_other_tunnels_untouched_witness :
  is_running (lit "web")
    (stop_tunnel env_stubborn (lit "db")
       (start_tunnel env_graceful (lit "db") default_config one_tunnel).2).2
  = true.
Proof.
  assert (H1 : tracked_ok one_tunnel)
    by (apply start_tunnel_tracked, new_manager_tracked).
  assert (H2 : tracked_ok
                 (start_tunnel env_graceful (lit "db") default_config one_tunnel).2)
    by (apply start_tunnel_tracked, H1).
  destruct (X13_other_tunnels_untouched env_stubborn (lit "db") (lit "web")
              default_config _ H2) as (_ & _ & _ & ->); [discriminate|].
  destruct (X13_other_tunnels_untouched env_graceful (lit "db") (lit "web")
              default_config _ H1) as (_ & -> & _); [discriminate|].
  vm_compute. reflexivity.
Defined.

(** X14: after [cleanup] no process runs any more, whichever processes
    exited in time and whichever had to be killed. *)
Theorem X14_cleanup_stops_all env m :
  tracked_ok m ->
  live_processes (cleanup env m) = 0 /\
  forall p, poll_is_None (cleanup env m) p = false.
Proof.
  intros H. apply (cleanup_tracked env) in H. destruct H as [_ _ Hr].
  assert (Hall : forall p, poll_is_None (cleanup env m) p = false).
  { intros p. destruct (poll_is_None (cleanup env m) p) eqn:Hp; [|reflexivity].
    destruct (Hr p Hp) as [i Hi]. rewrite cleanup_lookup in Hi. discriminate. }
  split; [apply live_processes_none, Hall|exact Hall].
Qed.

Lemma X14_cleanup_stops_all_witness :
  live_processes
    (cleanup env_stubborn
       (start_tunnel env_graceful (lit "db") default_config one_tunnel).2) = 0.
Proof.
  apply X14_cleanup_stops_all.
  apply start_tunnel_tracked, start_tunnel_tracked, new_manager_tracked.
Defined.

(** X15: when the process of a tunnel has ended by itself, the tunnel is
    not running although its entry remains, and [start_tunnel] starts it
    again (if [Popen] does not raise): the entry is replaced by the new
    process and one more process runs. *)
Theorem X15_restart_after_exit env tunnel_id config m p :
  tunnels m !! tunnel_id = Some p ->
  popen_error env (start_cmd config) = None ->
  tunnels (process_exits p m) !! tunnel_id = Some p /\
  is_running tunnel_id (process_exits p m) = false /\
  exists m1,
    start_tunnel env tunnel_id config (process_exits p m) = (Started, m1) /\
    is_running tunnel_id m1 = true /\
    tunnels m1 !! tunnel_id = Some (length (processes m)) /\
    live_processes m1 = S (live_processes (process_exits p m)).
Proof.
  intros E Hpopen.
  assert (Ht : tunnels (process_exits p m) = tunnels m).
  { unfold process_exits. destruct (poll_is_None m p); reflexivity. }
  assert (Hl : length (processes (process_exits p m)) = length (processes m)).
  { unfold process_exits. destruct (poll_is_None m p); [|reflexivity].
    apply set_status_length. }
  assert (Hrun : is_running tunnel_id (process_exits p m) = false).
  { unfold is_running. rewrite Ht, E. unfold process_exits.
    destruct (poll_is_None m p) eqn:Hp; [|exact Hp].
    unfold poll_is_None in Hp |- *. cbn [processes].
    destruct (processes m !! p) as [pr|] eqn:Hpr; [|discriminate].
    rewrite (set_status_lookup_eq _ _ _ _ Hpr). reflexivity. }
  split; [rewrite Ht; exact E|]. split; [exact Hrun|].
  destruct (start_tunnel_state env tunnel_id config (process_exits p m))
    as [Hsame|[_ Hst]].
  - exfalso. unfold start_tunnel in Hsame. rewrite Hrun, Hpopen in Hsame.
    cbn [snd] in Hsame. apply (f_equal (fun x => length (processes x))) in Hsame.
    cbn [processes] in Hsame. rewrite List.length_app in Hsame.
    cbn [length] in Hsame. lia.
  - eexists. split; [exact Hst|].
    destruct (start_tunnel_Started_running env _ _ _ _ Hst) as (H1 & H2 & _).
    split; [exact H1|]. split; [|exact H2].
    cbn [tunnels]. rewrite lookup_insert_eq, Hl. reflexivity.
Qed.

Lemma X15_restart_after_exit_witness :
  is_running (lit "web") (process_exits 0 one_tunnel) = false /\
  exists m1,
    start_tunnel env_graceful (lit "web") default_config
      (process_exits 0 one_tunnel) = (Started, m1) /\
    is_running (lit "web") m1 = true.
Proof.
  destruct (X15_restart_after_exit env_graceful (lit "web") default_config
              one_tunnel 0) as (_ & H1 & m1 & H2 & H3 & _).
  - vm_compute. reflexivity.
  - reflexivity.
  - split; [exact H1|]. exists m1. split; assumption.
Defined.

(** X16: a tunnel that was started can be stopped, whatever the operating
    system does; this removes its entry, leaves as many running processes
    as before the start, and a second [stop_tunnel] fails with
    [NotFound]. *)
Theorem X16_start_then_stop env env' tunnel_id config m m1 :
  start_tunnel env tunnel_id config m = (Started, m1) ->
  exists m2,
    stop_tunnel env' tunnel_id m1 = (Stopped, m2) /\
    tunnels m2 = delete tunnel_id (tunnels m) /\
    live_processes m2 = live_processes m /\
    is_running tunnel_id m2 = false /\
    stop_tunnel env' tunnel_id m2 = (NotFound, m2).
Proof.
  intros Hst.
  destruct (start_tunnel_state env tunnel_id config m) as [Hsame|[_ Hst']].
  { exfalso. unfold start_tunnel in Hst, Hsame.
    destruct (is_running tunnel_id m); [discriminate|].
    destruct (popen_error env (start_cmd config)); [discriminate|].
    cbn [snd] in Hsame. apply (f_equal (fun x => length (processes x))) in Hsame.
    cbn [processes] in Hsame. rewrite List.length_app in Hsame.
    cbn [length] in Hsame. lia. }
  rewrite Hst' in Hst. injection Hst as <-.
  set (procs := processes m).
  assert (Hmid : (procs ++ [mkProcess (start_cmd config) Running]) !! length procs
                 = Some (mkProcess (start_cmd config) Running))
    by (apply list_lookup_middle; reflexivity).
  unfold stop_tunnel. cbn [tunnels processes].
  rewrite lookup_insert_eq. unfold poll_is_None at 1. cbn [processes].
  fold procs. rewrite Hmid. cbn [proc_status is_Running].
  eexists. split; [reflexivity|]. cbn [tunnels processes].
  split; [apply delete_insert_eq|].
  split; [|split].
  - unfold live_processes. cbn [processes]. unfold set_status. rewrite Hmid.
    destruct (exits_in_time env' (length procs));
      rewrite insert_app_r_alt by reflexivity; rewrite Nat.sub_diag;
      rewrite filter_app, List.length_app; cbn;
      rewrite decide_False by (exact id); cbn; fold procs; lia.
  - apply is_running_untracked. cbn [tunnels].
    rewrite delete_insert_eq. apply lookup_delete_eq.
  - rewrite lookup_delete_eq. reflexivity.
Qed.

Lemma X16_start_then_stop_witness :
  exists m2,
    stop_tunnel env_stubborn (lit "web") one_tunnel = (Stopped, m2) /\
    live_processes m2 = 0.
Proof.
  destruct (X16_start_then_stop env_graceful env_stubborn (lit "web")
              default_config new_manager one_tunnel) as (m2 & H1 & _ & H2 & _).
  - vm_compute. reflexivity.
  - exists m2. split; [exact H1|exact H2].
Defined.

(** X17: [toggle_tunnel] stops a running tunnel and removes its entry; it
    starts a tunnel that is not running when [Popen] does not raise, and
    changes nothing when [Popen] raises; toggling twice a tunnel that is
    not running leaves it not running. *)
Theorem X17_toggle_tunnel env env' config m :
  (is_running (name config) m = true ->
   is_running (name config) (toggle_tunnel env config m) = false /\
   tunnels (toggle_tunnel env config m) !! name config = None) /\
  (is_running (name config) m = false ->
   (popen_error env (start_cmd config) = None ->
    is_running (name config) (toggle_tunnel env config m) = true /\
    is_running (name config)
      (toggle_tunnel env' config (toggle_tunnel env config m)) = false) /\
   (forall cause, popen_error env (start_cmd config) = Some cause ->
    toggle_tunnel env config m = m)).
Proof.
  assert (Hstop : forall e m0,
            is_running (name config) m0 = true ->
            is_running (name config) (toggle_tunnel e config m0) = false /\
            tunnels (toggle_tunnel e config m0) !! name config = None).
  { intros e m0 Hr. unfold toggle_tunnel. rewrite Hr.
    assert (Hl : tunnels (stop_tunnel e (name config) m0).2 !! name config = None)
      by (rewrite stop_tunnel_tunnels; apply lookup_delete_eq).
    split; [apply is_running_untracked, Hl|exact Hl]. }
  split; [apply Hstop|].
  intros Hr. split.
  - intros Hp.
    assert (Hst : is_running (name config) (toggle_tunnel env config m) = true).
    { unfold toggle_tunnel. rewrite Hr.
      destruct (start_tunnel env (name config) config m) as [r m1] eqn:E.
      assert (r = Started) as ->.
      { unfold start_tunnel in E. rewrite Hr, Hp in E. congruence. }
      exact (proj1 (start_tunnel_Started_running env _ _ _ _ E)). }
    split; [exact Hst|]. exact (proj1 (Hstop env' _ Hst)).
  - intros cause Hp. unfold toggle_tunnel, start_tunnel. rewrite Hr, Hp.
    reflexivity.
Qed.

Lemma X17_toggle_tunnel_witness :
  is_running (lit "web")
    (toggle_tunnel env_graceful (set_name (lit "web") default_config) one_tunnel)
  = false /\
  is_running (lit "web")
    (toggle_tunnel env_graceful (set_name (lit "web") default_config) new_manager)
  = true.
Proof.
  destruct (X17_toggle_tunnel env_graceful env_graceful
              (set_name (lit "web") default_config) one_tunnel) as [H1 _].
  destruct (X17_toggle_tunnel env_graceful env_graceful
              (set_name (lit "web") default_config) new_manager) as [_ H2].
  split.
  - apply H1. vm_compute. reflexivity.
  - apply H2; reflexivity.
Defined.

(** * Properties of the list of configurations *)

Section ConfigList.

Lemma replace_first_length n new_data cs :
  length (replace_first n new_data cs) = length cs.
Proof.
  induction cs as [|c cs IH]; [reflexivity|]. cbn.
  destruct (decide (name c = n)); cbn; [reflexivity|]. rewrite IH. reflexivity.
Qed.

Lemma replace_first_split n new_data pre c post :
  Forall (fun x => name x <> n) pre -> name c = n ->
  replace_first n new_data (pre ++ c :: post) = pre ++ new_data :: post.
Proof.
  intros Hpre Hc. induction Hpre as [|x pre Hx Hpre IH]; cbn.
  - rewrite decide_True by exact Hc. reflexivity.
  - rewrite decide_False by exact Hx. rewrite IH. reflexivity.
Qed.

Lemma replace_first_absent n new_data cs :
  Forall (fun x => name x <> n) cs -> replace_first n new_data cs = cs.
Proof.
  intros H. induction H as [|x cs Hx H IH]; [reflexivity|]. cbn.
  rewrite decide_False by exact Hx. rewrite IH. reflexivity.
Qed.

Lemma replace_first_same c cs :
  c ∈ cs -> NoDup (name <$> cs) -> replace_first (name c) c cs = cs.
Proof.
  intros Hin Hnd. induction cs as [|x cs IH]; [reflexivity|]. cbn.
  cbn in Hnd. apply NoDup_cons in Hnd as [Hx Hnd].
  destruct (decide (name x = name c)) as [E|E].
  - apply elem_of_cons in Hin as [->|Hin]; [reflexivity|].
    exfalso. apply Hx. rewrite E. apply list_elem_of_fmap_2. exact Hin.
  - apply elem_of_cons in Hin as [->|Hin]; [contradiction|].
    rewrite IH by assumption. reflexivity.
Qed.

Lemma get_data_load_data c : get_data (load_data c) (Some c) = c.
Proof. destruct c. reflexivity. Qed.

End ConfigList.

(** X18: [on_remove_tunnel] removes every configuration with the name of
    the selected one and keeps the others in their order; afterwards the
    tunnel is not running.  The manager is not touched when the tunnel was
    not running, and the other tunnels run as before. *)
Theorem X18_on_remove_tunnel env config cs m :
  let cs' := (on_remove_tunnel env config cs m).1 in
  let m' := (on_remove_tunnel env config cs m).2 in
  Forall (fun c => name c <> name config) cs' /\
  (forall c, c ∈ cs -> name c <> name config -> c ∈ cs') /\
  sublist cs' cs /\
  is_running (name config) m' = false /\
  (is_running (name config) m = false -> m' = m) /\
  (tracked_ok m -> forall other, other <> name config ->
   is_running other m' = is_running other m).
Proof.
  cbv zeta. unfold on_remove_tunnel. cbn [fst snd].
  split; [|split; [|split; [|split; [|split]]]].
  - apply Forall_forall. intros c [H _]%list_elem_of_filter. exact H.
  - intros c Hin Hne. apply list_elem_of_filter. split; assumption.
  - apply sublist_filter.
  - destruct (is_running (name config) m) eqn:Hr; [|exact Hr].
    apply is_running_untracked. rewrite stop_tunnel_tunnels.
    apply lookup_delete_eq.
  - intros ->. reflexivity.
  - intros Hok other Hne.
    destruct (is_running (name config) m); [|reflexivity].
    destruct (tunnels m !! name config) as [p|] eqn:E;
      [|rewrite (stop_tunnel_untracked _ _ _ E); reflexivity].
    destruct (stop_tunnel_state env (name config) m p E) as (Ht & _ & _ & Hq).
    unfold is_running. rewrite Ht, lookup_delete_ne by congruence.
    destruct (tunnels m !! other) as [q|] eqn:Eo; [|reflexivity].
    apply poll_is_None_lookup, Hq.
    intros ->. apply Hne. exact (tracked_distinct m Hok _ _ _ Eo E).
Qed.

(** X19: [on_edit_tunnel] keeps the length of the list; it changes nothing
    when a required field of the new data is empty or when no
    configuration has the name of the selected one; otherwise it replaces
    the first configuration with that name, and only that one.  With
    distinct names, closing the dialog of a listed configuration with OK
    and without a change leaves the list as it is. *)
Theorem X19_on_edit_tunnel config new_data cs :
  length (on_edit_tunnel config new_data cs) = length cs /\
  (required_fields new_data = false -> on_edit_tunnel config new_data cs = cs) /\
  (Forall (fun c => name c <> name config) cs ->
   on_edit_tunnel config new_data cs = cs) /\
  (required_fields new_data = true ->
   forall pre c post,
     cs = pre ++ c :: post -> name c = name config ->
     Forall (fun x => name x <> name config) pre ->
     on_edit_tunnel config new_data cs = pre ++ new_data :: post) /\
  (config ∈ cs -> NoDup (name <$> cs) ->
   on_edit_tunnel config (get_data (load_data config) (Some config)) cs = cs).
Proof.
  unfold on_edit_tunnel. split; [|split; [|split; [|split]]].
  - destruct (required_fields new_data); [apply replace_first_length|reflexivity].
  - intros ->. reflexivity.
  - intros H. destruct (required_fields new_data); [|reflexivity].
    apply replace_first_absent, H.
  - intros -> pre c post -> Hc Hpre. apply replace_first_split; assumption.
  - intros Hin Hnd. rewrite get_data_load_data.
    destruct (required_fields config); [|reflexivity].
    apply replace_first_same; assumption.
Qed.

Lemma X19_on_edit_tunnel_witness :
  let a := set_name (lit "a") default_config in
  let b := set_name (lit "b") default_config in
  let b' := set_ssh_host (lit "h") (set_ssh_user (lit "u") b) in
  on_edit_tunnel b b' [a; b; b] = [a; b'; b].
Proof.
  cbv zeta.
  refine (proj1 (proj2 (proj2 (proj2 (X19_on_edit_tunnel _ _ _)))) _
            [set_name (lit "a") default_config] _ _ _ _ _).
  - reflexivity.
  - reflexivity.
  - reflexivity.
  - repeat constructor. vm_compute. discriminate.
Defined.

(** X20: a configuration that was added is removed again by
    [on_remove_tunnel], which gives back the list as it was, when no other
    configuration had its name; the list is not checked for the name when
    the configuration is added. *)
Theorem X20_add_then_remove env data cs m :
  required_fields data = true ->
  Forall (fun c => name c <> name data) cs ->
  (on_remove_tunnel env data (on_add_tunnel data cs) m).1 = cs /\
  on_add_tunnel data (on_add_tunnel data cs) = cs ++ [data; data].
Proof.
  intros Hreq Hfresh. unfold on_remove_tunnel, on_add_tunnel.
  rewrite Hreq. cbn [fst]. split.
  - rewrite filter_app. rewrite filter_cons_False by (intros H; apply H; reflexivity).
    rewrite filter_nil, app_nil_r.
    induction Hfresh as [|c cs Hc Hfresh IH]; [reflexivity|].
    rewrite filter_cons_True by exact Hc. rewrite IH. reflexivity.
  - rewrite <- app_assoc. reflexivity.
Qed.

Lemma X20_add_then_remove_witness :
  let a := set_name (lit "a") default_config in
  let b := set_ssh_host (lit "h") (set_ssh_user (lit "u")
             (set_name (lit "b") default_config)) in
  (on_remove_tunnel env_graceful b (on_add_tunnel b [a]) new_manager).1 = [a].
Proof.
  cbv zeta. refine (proj1 (X20_add_then_remove _ _ _ _ _ _)).
  - reflexivity.
  - repeat constructor. vm_compute. discriminate.
Defined.



(** * Further properties of the parser *)

Section CommandWords.

Lemma split_go_tokens cur s :
  ws_free cur = true -> forallb is_token (split_go cur s) = true.
Proof.
  revert cur. induction s as [|c s IH]; intros cur Hcur; cbn.
  - destruct cur as [|a cur]; [reflexivity|].
    unfold is_token. cbn [forallb is_nil negb andb]. rewrite Hcur. reflexivity.
  - destruct (is_space c) eqn:Hc.
    + destruct cur as [|a cur]; [apply IH; reflexivity|].
      cbn [forallb]. unfold is_token at 1. cbn [is_nil negb andb].
      rewrite Hcur. apply IH. reflexivity.
    + apply IH. rewrite ws_free_app, Hcur. cbn. rewrite Hc. reflexivity.
Qed.

(** The words of a command are not empty and have no whitespace. *)
Lemma split_ws_tokens s : forallb is_token (split_ws s) = true.
Proof. apply split_go_tokens. reflexivity. Qed.

Lemma normalize_idem s : normalize (normalize s) = normalize s.
Proof. apply normalize_join, split_ws_tokens. Qed.

Lemma user_chars_no_at u : forallb user_char u = true -> "@" ∉ u.
Proof.
  intros Hu Hin. apply list_elem_of_In in Hin.
  rewrite forallb_forall in Hu. specialize (Hu _ Hin). discriminate.
Qed.

Lemma ws_free_no_at_user_chars u :
  ws_free u = true -> ("@" ∉ u) -> forallb user_char u = true.
Proof.
  intros Hw Hn. apply forallb_forall. intros x Hx.
  unfold ws_free in Hw. rewrite forallb_forall in Hw.
  unfold user_char. rewrite (Hw x Hx). cbn.
  rewrite ascii_eqb_neq; [reflexivity|].
  intros ->. apply Hn, list_elem_of_In, Hx.
Qed.

Lemma stops_starts_space r :
  starts_space r = true -> stops (fun c => negb (is_space c)) r = true.
Proof. destruct r as [|c r]; [reflexivity|]. cbn. intros ->. reflexivity. Qed.

Lemma starts_space_stops r :
  stops (fun c => negb (is_space c)) r = true -> starts_space r = true.
Proof.
  destruct r as [|c r]; [reflexivity|]. cbn. intros H.
  apply negb_true_iff, negb_false_iff in H. exact H.
Qed.

(** A word followed by whitespace is read off the text. *)
Lemma word_unique a b r r' :
  ws_free a = true -> ws_free b = true ->
  starts_space r = true -> starts_space r' = true ->
  a ++ r = b ++ r' -> a = b /\ r = r'.
Proof.
  intros Ha Hb Hr Hr' E.
  pose proof (span_stop _ a r Ha (stops_starts_space r Hr)) as H1.
  pose proof (span_stop _ b r' Hb (stops_starts_space r' Hr')) as H2.
  rewrite E, H2 in H1. injection H1 as -> ->. split; reflexivity.
Qed.

(** The pattern of [user@host] at the head of a word: the word has an [@]
    that is not its first character, something follows the first [@], and
    the user is what stands before it. *)
Lemma match_user_host_at_word t r u h :
  ws_free t = true -> starts_space r = true ->
  match_user_host_at (t ++ r) = Some (u, h) <->
  t = u ++ "@" :: h /\ u <> [] /\ h <> [] /\ ("@" ∉ u).
Proof.
  intros Ht Hr. split.
  - unfold match_user_host_at.
    destruct (span user_char (t ++ r)) as [[|x u'] [|c s1]] eqn:E1;
      try discriminate.
    destruct (ascii_eqb c "@") eqn:Ec; [|discriminate].
    apply ascii_eqb_eq in Ec as ->.
    destruct (span (fun c => negb (is_space c)) s1) as [[|y h'] r'] eqn:E2;
      [discriminate|].
    intros [= <- <-].
    apply span_inv in E1 as (E1 & Hu & _).
    apply span_inv in E2 as (-> & Hh & Hr'%starts_space_stops).
    assert (Hw : ws_free ((x :: u') ++ "@" :: y :: h') = true).
    { rewrite ws_free_app, (user_chars_ws_free _ Hu).
      cbn [andb]. change (ws_free ("@" :: y :: h')) with (ws_free (y :: h')).
      exact Hh. }
    change ((x :: u') ++ "@" :: (y :: h') ++ r')
      with ((x :: u') ++ ("@" :: y :: h') ++ r') in E1.
    rewrite app_assoc in E1.
    destruct (word_unique _ _ _ _ Ht Hw Hr Hr' E1) as [-> _].
    split; [reflexivity|]. split; [discriminate|]. split; [discriminate|].
    apply user_chars_no_at, Hu.
  - intros (-> & Hu & Hh & Hat).
    rewrite ws_free_app in Ht. apply andb_prop in Ht as [Hwu Hwh].
    change (ws_free ("@" :: h)) with (ws_free h) in Hwh.
    unfold match_user_host_at. rewrite <- app_assoc. cbn [app].
    rewrite (span_stop user_char u ("@" :: h ++ r))
      by (reflexivity || (apply ws_free_no_at_user_chars; assumption)).
    destruct u as [|x u]; [contradiction|]. rewrite ascii_eqb_refl.
    rewrite (span_stop _ h r Hwh (stops_starts_space r Hr)).
    destruct h as [|y h]; [contradiction|]. reflexivity.
Qed.

Lemma match_user_host_at_app t r :
  ws_free t = true -> starts_space r = true ->
  match_user_host_at (t ++ r) = match_user_host_at t.
Proof.
  intros Ht Hr.
  destruct (match_user_host_at (t ++ r)) as [[u h]|] eqn:E1.
  - apply match_user_host_at_word in E1; [|assumption..].
    symmetry. rewrite <- (app_nil_r t).
    apply match_user_host_at_word; [assumption|reflexivity|exact E1].
  - destruct (match_user_host_at t) as [[u h]|] eqn:E2; [|reflexivity].
    rewrite <- (app_nil_r t) in E2.
    apply match_user_host_at_word in E2; [|assumption|reflexivity].
    apply (match_user_host_at_word t r) in E2; [|assumption..].
    congruence.
Qed.

Lemma match_user_host_at_None t :
  ws_free t = true -> match_user_host_at t = None -> ~ user_host_word t.
Proof.
  intros Ht E (u & h & Hw). rewrite <- (app_nil_r t) in E.
  apply (match_user_host_at_word t [] u h Ht eq_refl) in Hw. congruence.
Qed.

(** The search on a line of words finds the first word of the form
    [user@host]. *)
Lemma search_user_host_ws_words ts :
  forallb is_token ts = true ->
  match search_user_host_ws (spaced ts) with
  | Some (u, h) =>
      exists pre post,
        ts = pre ++ (u ++ "@" :: h) :: post /\
        Forall (fun w => ~ user_host_word w) pre /\
        u <> [] /\ h <> [] /\ ("@" ∉ u)
  | None => Forall (fun w => ~ user_host_word w) ts
  end.
Proof.
  induction ts as [|t ts IH]; intros H; [constructor|].
  cbn [forallb] in H. apply andb_prop in H as [Ht Hts].
  apply andb_prop in Ht as [_ Ht]. specialize (IH Hts).
  rewrite spaced_cons, search_user_host_ws_cons.
  change (is_space " ") with true. cbv iota.
  rewrite (match_user_host_at_app t _ Ht (starts_space_spaced ts)).
  destruct (match_user_host_at t) as [[u h]|] eqn:E.
  - rewrite <- (app_nil_r t) in E.
    apply (match_user_host_at_word t [] u h Ht eq_refl) in E
      as (-> & Hu & Hh & Hat).
    exists [], ts. repeat split; try assumption. constructor.
  - rewrite (search_user_host_ws_word t _ Ht).
    pose proof (match_user_host_at_None t Ht E) as Hno.
    destruct (search_user_host_ws (spaced ts)) as [[u h]|].
    + destruct IH as (pre & post & -> & Hpre & Hrest).
      exists (t :: pre), post. split; [reflexivity|].
      split; [constructor; assumption|exact Hrest].
    + constructor; assumption.
Qed.

Lemma search_user_host_words ts :
  forallb is_token ts = true ->
  match search_user_host (join (lit " ") ts) with
  | Some (u, h) =>
      exists pre post,
        ts = pre ++ (u ++ "@" :: h) :: post /\
        Forall (fun w => ~ user_host_word w) pre /\
        u <> [] /\ h <> [] /\ ("@" ∉ u)
  | None => Forall (fun w => ~ user_host_word w) ts
  end.
Proof.
  intros H. destruct ts as [|t ts]; [constructor|].
  rewrite join_spaced, search_user_host_spaced, <- spaced_cons.
  apply search_user_host_ws_words. exact H.
Qed.

Lemma default_name_set_name n c : default_name (set_name n c) = default_name c.
Proof. reflexivity. Qed.

Lemma default_name_not_empty c : default_name c <> [].
Proof.
  unfold default_name. intros H.
  destruct (type c); [destruct (forwards c)|destruct (forwards c)|];
    apply app_eq_nil in H as [_ H]; discriminate.
Qed.

End CommandWords.

(** X1: the parser reads the words of a command only: the normalized
    command is its own normalization, and is parsed as the command
    itself. *)
Theorem X1_parse_normalized command :
  normalize (normalize command) = normalize command /\
  parse_ssh_command (normalize command) = parse_ssh_command command.
Proof.
  split; [apply normalize_idem|].
  rewrite !parse_unfold.
  unfold port_match, dynamic_match, remote_matches, local_matches.
  rewrite normalize_idem. reflexivity.
Qed.

(** X2: every configuration that the parser returns has a port made of
    digits, a user and a host that are not empty and have no whitespace, a
    listen port made of digits when it is dynamic, and never exactly one
    entry in ['forwards']; its name is the default name of its type, host
    and port, and is not empty. *)
Theorem X2_parse_well_formed command c :
  parse_ssh_command command = Ok c ->
  parsed c /\ name c = default_name c /\ name c <> [].
Proof.
  intros H. split; [exact (parse_parsed _ _ H)|].
  apply parse_Ok_inv in H as (u & h & _ & _ & ->). cbv zeta.
  split; [reflexivity|]. apply default_name_not_empty.
Qed.

Lemma X2_parse_well_formed_witness :
  exists c,
    parse_ssh_command (lit "ssh -D 1080 carol@jump.host") = Ok c /\
    name c = default_name c /\ name c = lit "jump.host_D1080".
Proof.
  eexists. split; [vm_compute; reflexivity|]. split.
  - refine (proj1 (proj2
      (X2_parse_well_formed (lit "ssh -D 1080 carol@jump.host") _ _))).
    vm_compute. reflexivity.
  - reflexivity.
Defined.

(** X3: the user and the host of a parsed configuration come from the
    first word of the command that has an [@] with something before it and
    something after it: the user is what stands before the first [@] of
    that word, the host is all that follows it. *)
Theorem X3_user_host_first_word command c :
  parse_ssh_command command = Ok c ->
  exists pre post,
    split_ws command = pre ++ (ssh_user c ++ "@" :: ssh_host c) :: post /\
    Forall (fun w => ~ user_host_word w) pre /\
    ssh_user c <> [] /\ ssh_host c <> [] /\ ("@" ∉ ssh_user c).
Proof.
  intros H. apply parse_Ok_inv in H as (u & h & Huh & _ & ->). cbv zeta.
  match goal with
  | |- context [set_name ?n (set_ssh_host h (set_ssh_user u (apply_port_match ?p ?x)))] =>
      destruct (parse_tail_fields n h u p x) as (_ & _ & _ & _ & -> & -> & _)
  end.
  pose proof (search_user_host_words (split_ws command) (split_ws_tokens command))
    as Hw.
  fold (normalize command) in Hw. rewrite Huh in Hw. exact Hw.
Qed.

Lemma X3_user_host_first_word_witness :
  exists c pre post,
    parse_ssh_command (lit "ssh -L 80:a@b:80 @x y@ u@h@k v@w") = Ok c /\
    split_ws (lit "ssh -L 80:a@b:80 @x y@ u@h@k v@w")
      = pre ++ (ssh_user c ++ "@" :: ssh_host c) :: post /\
    ssh_user c = lit "80:a" /\ ssh_host c = lit "b:80".
Proof.
  pose proof (X3_user_host_first_word (lit "ssh -L 80:a@b:80 @x y@ u@h@k v@w")) as H.
  edestruct H as (pre & post & Hs & _).
  - vm_compute. reflexivity.
  - eexists. exists pre, post. split; [vm_compute; reflexivity|].
    split; [exact Hs|]. split; reflexivity.
Defined.

(** X4: a command is accepted exactly when its first word begins with
    [ssh] and one of its words has the form [user@host]; it is refused for
    its user and host exactly when its first word begins with [ssh] and no
    word has that form; and the parser has no other error than these
    two. *)
Theorem X4_parse_accepts command :
  ((exists c, parse_ssh_command command = Ok c) <->
   startswith (lit "ssh") (first_token command) = true /\
   Exists user_host_word (split_ws command)) /\
  (parse_ssh_command command = Err MissingUserHost <->
   startswith (lit "ssh") (first_token command) = true /\
   Forall (fun w => ~ user_host_word w) (split_ws command)) /\
  (forall e, parse_ssh_command command = Err e ->
   e = NotAnSshCommand \/ e = MissingUserHost).
Proof.
  pose proof (search_user_host_words (split_ws command) (split_ws_tokens command))
    as Hw.
  fold (normalize command) in Hw.
  rewrite parse_unfold, <- startswith_ssh_normalize.
  destruct (startswith (lit "ssh") (normalize command)); cbn [negb].
  - destruct (search_user_host (normalize command)) as [[u h]|].
    + destruct Hw as (pre & post & Hs & Hpre & Hu & Hh & Hat).
      assert (Hex : Exists user_host_word (split_ws command)).
      { rewrite Hs. apply Exists_app. right. left.
        exists u, h. repeat split; assumption. }
      split; [|split].
      * split; [intros _; split; [reflexivity|exact Hex]|].
        intros _. eexists. reflexivity.
      * split; [discriminate|]. intros [_ Hall].
        exfalso. apply Exists_exists in Hex as (w & Hin & Hword).
        rewrite Forall_forall in Hall. exact (Hall w Hin Hword).
      * discriminate.
    + split; [|split].
      * split; [intros [c Hc]; discriminate|].
        intros [_ Hex]. exfalso.
        apply Exists_exists in Hex as (w & Hin & Hword).
        rewrite Forall_forall in Hw. exact (Hw w Hin Hword).
      * split; [intros _; split; [reflexivity|exact Hw]|reflexivity].
      * intros e [= <-]. right. reflexivity.
  - split; [|split].
    + split; [intros [c Hc]; discriminate|intros [? _]; discriminate].
    + split; [discriminate|intros [? _]; discriminate].
    + intros e [= <-]. left. reflexivity.
Qed.

Section ExportAgain.

Context (c : Config) (Hc : parsed c).

(** The listen port read from the exported text of a dynamic
    configuration. *)
Lemma parse_export_listen c' :
  type c = dynamic ->
  parse_ssh_command (export_to_command c) = Ok c' ->
  local_port c' = local_port c.
Proof.
  intros Ht H. apply parse_Ok_inv in H as (u & h & _ & _ & ->). cbv zeta.
  match goal with
  | |- context [set_name ?n (set_ssh_host h (set_ssh_user u (apply_port_match ?p ?x)))] =>
      destruct (parse_tail_fields n h u p x) as (_ & _ & _ & -> & _)
  end.
  unfold dynamic_match.
  rewrite (normalize_export c Hc), search_number_export.
  rewrite (export_listen_port c (parsed_listen c Hc Ht))
    by (unfold flag_tokens; rewrite Ht; reflexivity).
  reflexivity.
Qed.

(** The configuration read from the exported text is written with the
    same words. *)
Lemma export_stable :
  Forall (fun m : str * str * str => "@" ∉ m.1.2) (emitted_forwards c) ->
  exists c',
    parse_ssh_command (export_to_command c) = Ok c' /\
    export_tokens c' = export_tokens c /\
    flag_tokens c' = flag_tokens c /\
    ssh_port c' = ssh_port c /\ user_host c' = user_host c.
Proof.
  intros Hat.
  destruct (parse_export c Hc) as (x & u & h & Huh & Hparse & Hport & Ht & He & _).
  rewrite (export_user_host c Hc Hat) in Huh. injection Huh as <- <-.
  eexists. split; [exact Hparse|].
  pose proof (fun Hd => parse_export_listen _ Hd Hparse) as Hl.
  revert Hl. cbv zeta.
  match goal with
  | |- context [set_name ?n (set_ssh_host ?h (set_ssh_user ?u (apply_port_match ?p x)))] =>
      destruct (parse_tail_fields n h u p x) as (F1 & _ & F3 & F4 & F5 & F6 & F7);
      set (c' := set_name n (set_ssh_host h (set_ssh_user u (apply_port_match p x))))
        in *
  end.
  intros Hl.
  assert (Hflags : flag_tokens c' = flag_tokens c).
  { unfold flag_tokens. rewrite F1, F3, Ht, He.
    destruct (type c) eqn:Etype; [reflexivity..|].
    rewrite (Hl eq_refl). reflexivity. }
  assert (Hp : ssh_port c' = ssh_port c).
  { rewrite F7. destruct (decide (ssh_port c = lit "22")) as [E|E]; [|reflexivity].
    rewrite Hport, E. reflexivity. }
  assert (Huh : user_host c' = user_host c).
  { unfold user_host. rewrite F5, F6. reflexivity. }
  split; [|repeat split; assumption].
  unfold export_tokens, port_tokens. rewrite Hflags, Hp, Huh. reflexivity.
Qed.

End ExportAgain.

(** X5: when no forward of a parsed configuration has an [@] in its host,
    the configuration read from its exported text is exported as the same
    text, and its tunnel is started with the same command line. *)
Theorem X5_export_stable command c :
  parse_ssh_command command = Ok c ->
  Forall (fun m : str * str * str => "@" ∉ m.1.2) (emitted_forwards c) ->
  exists c',
    parse_ssh_command (export_to_command c) = Ok c' /\
    export_to_command c' = export_to_command c /\
    start_cmd c' = start_cmd c.
Proof.
  intros Hp Hat. pose proof (parse_parsed _ _ Hp) as Hc.
  destruct (export_stable c Hc Hat) as (c' & Hparse & Ht & Hf & Hport & Huh).
  exists c'. split; [exact Hparse|]. split.
  - rewrite !export_to_command_tokens, Ht. reflexivity.
  - rewrite !start_cmd_tokens, Hf, Hport, Huh. reflexivity.
Qed.

Lemma X5_export_stable_witness :
  exists c c',
    parse_ssh_command (lit "  ssh  -p 4022 bob@db  -R 1:h:2   -R 3:k:4") = Ok c /\
    parse_ssh_command (export_to_command c) = Ok c' /\
    export_to_command c' = lit "ssh -N -R 1:h:2 -R 3:k:4 -p 4022 bob@db".
Proof.
  pose proof (X5_export_stable
    (lit "  ssh  -p 4022 bob@db  -R 1:h:2   -R 3:k:4")) as H.
  edestruct H as (c' & Hp & He & _).
  - vm_compute. reflexivity.
  - repeat constructor; apply (bool_decide_eq_false_1 _); vm_compute; reflexivity.
  - eexists. exists c'. split; [vm_compute; reflexivity|].
    split; [exact Hp|]. rewrite He. vm_compute. reflexivity.
Defined.

(** * Further properties of the import loop *)

Section ImportLoop.

Lemma try_import_cases err_line st :
  (exists config,
     parse_ssh_command (join (lit " ") (current_command st)) = Ok config /\
     let c := unique_name (existing_names st)
                (match pending_name st with
                 | Some n => set_name n config
                 | None => config
                 end) in
     try_import err_line st =
       mkImportState (imported st ++ [c]) (S (imported_count st))
         (failed_count st) (error_messages st)
         (existing_names st ++ [name c]) (pending_name st)
         (current_command st) (command_start_line st)) \/
  (exists e,
     parse_ssh_command (join (lit " ") (current_command st)) = Err e /\
     try_import err_line st =
       mkImportState (imported st) (imported_count st) (S (failed_count st))
         (error_messages st ++ [(err_line, error_message e)])
         (existing_names st) (pending_name st)
         (current_command st) (command_start_line st)).
Proof.
  unfold try_import.
  destruct (parse_ssh_command _); [left|right]; eexists; split; reflexivity.
Qed.

Lemma try_import_block err_line st :
  current_command (try_import err_line st) = current_command st /\
  command_start_line (try_import err_line st) = command_start_line st /\
  pending_name (try_import err_line st) = pending_name st.
Proof.
  destruct (try_import_cases err_line st) as [(c & _ & ->)|(e & _ & ->)];
    repeat split.
Qed.

(** ** Counters and names *)

Context (names : list str).

Lemma try_import_counts err_line st :
  import_counts names st -> import_counts names (try_import err_line st).
Proof.
  intros [H1 H2 H3 H4 H5].
  destruct (try_import_cases err_line st) as [(c & _ & ->)|(e & _ & ->)];
    cbv zeta.
  - set (c' := unique_name _ _).
    assert (Hnew : name c' ∉ existing_names st)
      by apply unique_name_spec.
    rewrite H3 in Hnew. apply not_elem_of_app in Hnew as [Hn1 Hn2].
    constructor; cbn.
    + rewrite List.length_app, H1. cbn. lia.
    + exact H2.
    + rewrite fmap_app, H3, <- app_assoc. reflexivity.
    + rewrite fmap_app. apply NoDup_app. split; [exact H4|].
      split; [|apply NoDup_singleton].
      intros x Hx ->%list_elem_of_singleton. contradiction.
    + apply Forall_app. split; [exact H5|]. repeat constructor. exact Hn1.
  - constructor; cbn; try assumption.
    rewrite List.length_app, H2. cbn. lia.
Qed.

Lemma set_pending_counts p st :
  import_counts names st -> import_counts names (set_pending p st).
Proof. intros [? ? ? ? ?]. constructor; assumption. Qed.

Lemma set_current_counts cmd start st :
  import_counts names st -> import_counts names (set_current cmd start st).
Proof. intros [? ? ? ? ?]. constructor; assumption. Qed.

Lemma import_line_counts line_num line st :
  import_counts names st -> import_counts names (import_line line_num line st).
Proof.
  intros H. unfold import_line.
  destruct (is_nil (strip line)); [exact H|].
  destruct (startswith (lit "#") (strip line)).
  { assert (H' : import_counts names
        (if is_nil (current_command st) then st
         else set_pending None (set_current [] (command_start_line st)
                (try_import (command_start_line st) st)))).
    { destruct (is_nil (current_command st)); [exact H|].
      apply set_pending_counts, set_current_counts, try_import_counts, H. }
    destruct (is_nil (strip (tail (strip line)))); [exact H'|].
    apply set_pending_counts, H'. }
  destruct (startswith (lit "ssh") (strip line)).
  { apply set_current_counts.
    destruct (is_nil (current_command st)); [exact H|].
    apply set_pending_counts, try_import_counts, H. }
  destruct (negb (is_nil (current_command st)));
    [apply set_current_counts, H|].
  destruct H as [H1 H2 H3 H4 H5]. constructor; cbn; try assumption.
  rewrite List.length_app, H2. cbn. lia.
Qed.

Lemma import_lines_counts line_num lines st :
  import_counts names st -> import_counts names (import_lines line_num lines st).
Proof.
  revert line_num st. induction lines as [|line lines IH]; intros n st H;
    [exact H|].
  cbn. apply IH, import_line_counts, H.
Qed.

Lemma import_last_counts line_num st :
  import_counts names st -> import_counts names (import_last line_num st).
Proof.
  intros H. unfold import_last.
  destruct (is_nil (current_command st)); [exact H|].
  apply set_pending_counts, try_import_counts, H.
Qed.

Lemma import_commands_counts input_text :
  import_counts names (import_commands names input_text).
Proof.
  unfold import_commands. cbv zeta.
  apply import_last_counts, import_lines_counts.
  constructor; cbn; [reflexivity|reflexivity| | |].
  - rewrite app_nil_r. reflexivity.
  - constructor.
  - constructor.
Qed.

End ImportLoop.

(** X6: at the end of an import the two counters are the numbers of the
    configurations added and of the error messages, and the names seen are
    the names stored before followed by the names of the configurations
    added, in the order of their import. *)
Theorem X6_import_counters names input_text :
  let st := import_commands names input_text in
  imported_count st = length (imported st) /\
  failed_count st = length (error_messages st) /\
  existing_names st = names ++ (name <$> imported st).
Proof.
  cbv zeta. destruct (import_commands_counts names input_text) as [H1 H2 H3 _ _].
  repeat split; assumption.
Qed.

(** X7: the configurations added by one import have names that differ from
    each other and from every name stored before. *)
Theorem X7_import_names_distinct names input_text :
  let st := import_commands names input_text in
  NoDup (name <$> imported st) /\
  forall c, c ∈ imported st -> name c ∉ names.
Proof.
  cbv zeta. destruct (import_commands_counts names input_text) as [_ _ _ H4 H5].
  split; [exact H4|]. intros c Hc. rewrite Forall_forall in H5. exact (H5 c Hc).
Qed.

Section ErrorLines.

Lemma StronglySorted_snoc (l : list nat) x :
  StronglySorted lt l -> Forall (fun y => y < x) l ->
  StronglySorted lt (l ++ [x]).
Proof.
  induction 1 as [|a l Hs IH Ha]; intros HF; cbn.
  - repeat constructor.
  - apply Forall_cons in HF as [Hax HF]. constructor; [exact (IH HF)|].
    apply Forall_app. split; [exact Ha|]. repeat constructor. exact Hax.
Qed.

Lemma is_nil_false {A} (l : list A) : is_nil l = false -> l <> [].
Proof. destruct l; [discriminate|]. intros _. discriminate. Qed.

Lemma is_nil_true {A} (l : list A) : is_nil l = true -> l = [].
Proof. destruct l; [reflexivity|discriminate]. Qed.

Lemma errors_snoc (errs : list (nat * str)) n msg b :
  StronglySorted lt errs.*1 ->
  Forall (fun e : nat * str => e.1 < n) errs -> n < b ->
  Forall (fun e : nat * str => 1 <= e.1 < b) errs -> 1 <= n ->
  StronglySorted lt (errs ++ [(n, msg)]).*1 /\
  Forall (fun e : nat * str => 1 <= e.1 < b) (errs ++ [(n, msg)]).
Proof.
  intros Hs Hlt Hn Hb Hpos. split.
  - rewrite fmap_app. apply StronglySorted_snoc; [exact Hs|].
    apply Forall_fmap. exact Hlt.
  - apply Forall_app. split; [exact Hb|]. repeat constructor; cbn; lia.
Qed.

Lemma lines_ok_mono n m st :
  n <= m -> import_lines_ok n st -> import_lines_ok m st.
Proof.
  intros Hnm [H1 H2 H3 H4]. constructor.
  - lia.
  - exact H2.
  - eapply Forall_impl; [exact H3|]. cbn. intros e He. lia.
  - intros Hc. destruct (H4 Hc) as [Hs He]. split; [lia|exact He].
Qed.

(** The errors after the block that is open has been imported. *)
Lemma try_import_lines n st :
  import_lines_ok n st -> current_command st <> [] ->
  let st' := try_import (command_start_line st) st in
  StronglySorted lt (error_messages st').*1 /\
  Forall (fun e : nat * str => 1 <= e.1 < n) (error_messages st').
Proof.
  intros [H1 H2 H3 H4] Hc. destruct (H4 Hc) as [Hs He]. cbv zeta.
  destruct (try_import_cases (command_start_line st) st)
    as [(c & _ & ->)|(e & _ & ->)]; cbn [error_messages].
  - split; assumption.
  - apply errors_snoc; (assumption || lia).
Qed.

Lemma import_line_lines_ok n line st :
  import_lines_ok n st -> import_lines_ok (S n) (import_line n line st).
Proof.
  intros H. pose proof H as [H1 H2 H3 H4]. unfold import_line.
  assert (Hbound : forall errs : list (nat * str),
            Forall (fun e : nat * str => 1 <= e.1 < n) errs ->
            Forall (fun e : nat * str => 1 <= e.1 < S n) errs).
  { intros errs Hf. eapply Forall_impl; [exact Hf|]. cbn. intros e He. lia. }
  assert (Hlt : forall errs : list (nat * str),
            Forall (fun e : nat * str => 1 <= e.1 < n) errs ->
            Forall (fun e : nat * str => e.1 < n) errs).
  { intros errs Hf. eapply Forall_impl; [exact Hf|]. cbn. intros e He. lia. }
  destruct (is_nil (strip line)); [apply (lines_ok_mono n); [lia|exact H]|].
  destruct (startswith (lit "#") (strip line)).
  { assert (H' : import_lines_ok (S n)
        (if is_nil (current_command st) then st
         else set_pending None (set_current [] (command_start_line st)
                (try_import (command_start_line st) st)))).
    { destruct (is_nil (current_command st)) eqn:Ec;
        [apply (lines_ok_mono n); [lia|exact H]|].
      destruct (try_import_lines n st H (is_nil_false _ Ec)) as [Hs Hb].
      constructor; cbn; [lia|exact Hs|exact (Hbound _ Hb)|contradiction]. }
    destruct (is_nil (strip (tail (strip line)))); [exact H'|].
    destruct H' as [? ? ? ?]. constructor; assumption. }
  destruct (startswith (lit "ssh") (strip line)).
  { destruct (is_nil (current_command st)) eqn:Ec.
    - constructor; cbn; [lia|exact H2|exact (Hbound _ H3)|].
      intros _. split; [lia|exact (Hlt _ H3)].
    - destruct (try_import_lines n st H (is_nil_false _ Ec)) as [Hs Hb].
      constructor; cbn; [lia|exact Hs|exact (Hbound _ Hb)|].
      intros _. split; [lia|exact (Hlt _ Hb)]. }
  destruct (is_nil (current_command st)) eqn:Ec; cbn [negb].
  - destruct (errors_snoc (error_messages st) n
                (lit "Command must start with 'ssh'") (S n) H2 (Hlt _ H3))
      as [Hs Hb]; [lia|exact (Hbound _ H3)|lia|].
    constructor; cbn; [lia|exact Hs|exact Hb|].
    intros Hc. apply is_nil_true in Ec. contradiction.
  - destruct (H4 (is_nil_false _ Ec)) as [Hs He].
    constructor; cbn; [lia|exact H2|exact (Hbound _ H3)|].
    intros _. split; [lia|exact He].
Qed.

Lemma import_lines_lines_ok n lines st :
  import_lines_ok n st ->
  import_lines_ok (n + length lines) (import_lines n lines st).
Proof.
  revert n st. induction lines as [|line lines IH]; intros n st H; cbn.
  - rewrite Nat.add_0_r. exact H.
  - replace (n + S (length lines)) with (S n + length lines) by lia.
    apply IH, import_line_lines_ok, H.
Qed.

Lemma import_last_lines_ok n st :
  import_lines_ok (S n) st ->
  let st' := import_last n st in
  StronglySorted lt (error_messages st').*1 /\
  Forall (fun e : nat * str => 1 <= e.1 <= n) (error_messages st').
Proof.
  intros [H1 H2 H3 H4]. cbv zeta. unfold import_last.
  assert (Hle : Forall (fun e : nat * str => 1 <= e.1 <= n) (error_messages st)).
  { eapply Forall_impl; [exact H3|]. cbn. intros e He. lia. }
  destruct (is_nil (current_command st)) eqn:Ec; [split; assumption|].
  destruct (H4 (is_nil_false _ Ec)) as [Hs He].
  destruct (try_import_cases n st) as [(c & _ & ->)|(e & _ & ->)];
    cbn [error_messages set_pending]; [split; assumption|].
  split.
  - rewrite fmap_app. apply StronglySorted_snoc; [exact H2|].
    apply Forall_fmap. eapply Forall_impl; [exact He|]. cbn. intros x Hx. lia.
  - apply Forall_app. split; [exact Hle|]. repeat constructor; cbn; lia.
Qed.

End ErrorLines.

(** X8: the errors of an import are listed by increasing line: each line
    has at most one error, and the lines are lines of the text, counted
    from 1. *)
Theorem X8_error_lines_increase names input_text :
  let st := import_commands names input_text in
  StronglySorted lt (error_messages st).*1 /\
  Forall (fun e : nat * str => 1 <= e.1 <= length (import_lines_of input_text))
    (error_messages st).
Proof.
  cbv zeta. unfold import_commands, import_lines_of. cbv zeta.
  apply import_last_lines_ok.
  change (S (length (split_char "010" (replace_continuation input_text))))
    with (1 + length (split_char "010" (replace_continuation input_text))).
  apply import_lines_lines_ok.
  constructor; cbn; [lia|constructor|constructor|contradiction].
Qed.

Section Accounting.

Lemma split_go_hd cur s :
  cur <> [] -> exists w, hd [] (split_go cur s) = cur ++ w.
Proof.
  revert cur. induction s as [|c s IH]; intros cur Hcur; cbn.
  - destruct cur; [contradiction|]. exists []. cbn. rewrite app_nil_r. reflexivity.
  - destruct (is_space c).
    + destruct cur; [contradiction|]. exists []. cbn. rewrite app_nil_r.
      reflexivity.
    + destruct (IH (cur ++ [c])) as [w Hw]; [destruct cur; discriminate|].
      exists (c :: w). rewrite Hw, <- app_assoc. reflexivity.
Qed.

Lemma startswith_ssh_inv l :
  startswith (lit "ssh") l = true -> exists l', l = "s" :: "s" :: "h" :: l'.
Proof.
  destruct l as [|a [|b [|c l']]];
    try (cbn; rewrite ?andb_false_r; discriminate).
  change (startswith (lit "ssh") (a :: b :: c :: l'))
    with (ascii_eqb "s" a && (ascii_eqb "s" b && (ascii_eqb "h" c && true))).
  intros H.
  apply andb_prop in H as [Ha H]. apply andb_prop in H as [Hb H].
  apply andb_prop in H as [Hc _].
  apply ascii_eqb_eq in Ha, Hb, Hc. subst. eexists. reflexivity.
Qed.

(** The first word of a block begins with [ssh], as its first line does. *)
Lemma block_first_word l rest :
  startswith (lit "ssh") l = true ->
  startswith (lit "ssh") (first_token (join (lit " ") (l :: rest))) = true.
Proof.
  intros [l' ->]%startswith_ssh_inv. rewrite join_spaced.
  unfold first_token, split_ws.
  change (split_go [] (("s" :: "s" :: "h" :: l') ++ spaced rest))
    with (split_go ["s"; "s"; "h"] (l' ++ spaced rest)).
  destruct (split_go_hd ["s"; "s"; "h"] (l' ++ spaced rest)) as [w ->];
    [discriminate|].
  reflexivity.
Qed.

(** A block is accepted, or refused for its user and host. *)
Lemma block_parse l rest :
  startswith (lit "ssh") l = true ->
  (exists c, parse_ssh_command (join (lit " ") (l :: rest)) = Ok c) \/
  parse_ssh_command (join (lit " ") (l :: rest)) = Err MissingUserHost.
Proof.
  intros H.
  rewrite parse_unfold, startswith_ssh_normalize, (block_first_word l rest H).
  cbn [negb].
  destruct (search_user_host _) as [[u h]|];
    [left; eexists; reflexivity|right; reflexivity].
Qed.

Lemma parse_error_cases command e :
  parse_ssh_command command = Err e ->
  e = NotAnSshCommand \/ e = MissingUserHost.
Proof.
  rewrite parse_unfold. destruct (negb _); [intros [= <-]; left; reflexivity|].
  destruct (search_user_host _) as [[u h]|]; [discriminate|].
  intros [= <-]. right. reflexivity.
Qed.

Lemma user_host_errors_snoc (errs : list (nat * str)) n msg :
  length (filter (fun e : nat * str => e.2 = error_message MissingUserHost)
            (errs ++ [(n, msg)])) =
  length (filter (fun e : nat * str => e.2 = error_message MissingUserHost) errs)
  + (if decide (msg = error_message MissingUserHost) then 1 else 0).
Proof.
  rewrite filter_app, List.length_app. f_equal.
  rewrite filter_cons, filter_nil. cbn [snd].
  destruct (decide (msg = error_message MissingUserHost)); reflexivity.
Qed.


Lemma try_import_account err_line st :
  current_command st <> [] -> block_ok st ->
  let st' := try_import err_line st in
  imported_count st' + user_host_errors st' =
    S (imported_count st + user_host_errors st).
Proof.
  intros Hc Hb. specialize (Hb Hc). cbv zeta.
  destruct (current_command st) as [|l rest] eqn:Ec; [contradiction|].
  cbn [hd] in Hb.
  destruct (try_import_cases err_line st) as [(c & _ & ->)|(e & He & ->)];
    unfold user_host_errors; cbn [imported_count error_messages]; [lia|].
  rewrite Ec in He.
  destruct (block_parse l rest Hb) as [[c Hok]|Herr]; [congruence|].
  assert (e = MissingUserHost) as -> by congruence.
  rewrite user_host_errors_snoc, decide_True by reflexivity. lia.
Qed.

Lemma try_import_messages err_line st :
  Forall known_message (error_messages st) ->
  Forall known_message (error_messages (try_import err_line st)).
Proof.
  intros H.
  destruct (try_import_cases err_line st) as [(c & _ & ->)|(e & He & ->)];
    cbn [error_messages]; [exact H|].
  apply Forall_app. split; [exact H|]. apply Forall_singleton.
  destruct (parse_error_cases _ _ He) as [-> | ->]; [right|left]; reflexivity.
Qed.

Lemma import_line_account n line st :
  block_ok st ->
  let st' := import_line n line st in
  imported_count st' + user_host_errors st' + open_blocks st' =
    imported_count st + user_host_errors st + open_blocks st
    + (if is_ssh_line line then 1 else 0) /\
  block_ok st'.
Proof.
  intros Hb. cbv zeta. unfold import_line, is_ssh_line, line_kind. cbv zeta.
  destruct (is_nil (strip line)); [split; [lia|exact Hb]|].
  destruct (startswith (lit "#") (strip line)).
  { assert (H' : let st1 :=
        (if is_nil (current_command st) then st
         else set_pending None (set_current [] (command_start_line st)
                (try_import (command_start_line st) st))) in
        imported_count st1 + user_host_errors st1 + open_blocks st1 =
          imported_count st + user_host_errors st + open_blocks st + 0 /\
        block_ok st1).
    { cbv zeta. destruct (is_nil (current_command st)) eqn:Ec;
        [split; [lia|exact Hb]|].
      pose proof (try_import_account (command_start_line st) st
                    (is_nil_false _ Ec) Hb) as Ha.
      cbv zeta in Ha. unfold open_blocks. rewrite Ec.
      unfold user_host_errors in *. cbn [set_pending set_current imported_count error_messages current_command is_nil].
      split; [lia|].
      intros Hc. contradiction. }
    destruct (is_nil (strip (tail (strip line)))); [exact H'|]. exact H'. }
  destruct (startswith (lit "ssh") (strip line)) eqn:Essh.
  { split; [|intros _; exact Essh].
    unfold open_blocks at 1. cbn [set_current current_command is_nil].
    destruct (is_nil (current_command st)) eqn:Ec.
    - unfold open_blocks, user_host_errors. rewrite Ec.
      cbn [set_pending set_current imported_count error_messages current_command is_nil]. lia.
    - pose proof (try_import_account (command_start_line st) st
                    (is_nil_false _ Ec) Hb) as Ha.
      cbv zeta in Ha. unfold open_blocks. rewrite Ec.
      unfold user_host_errors in *.
      cbn [set_pending set_current imported_count error_messages current_command is_nil]. lia. }
  destruct (is_nil (current_command st)) eqn:Ec; cbn [negb].
  - unfold open_blocks, user_host_errors.
    cbn [imported_count error_messages current_command].
    rewrite Ec, user_host_errors_snoc, decide_False by (vm_compute; discriminate).
    split; [lia|]. intros Hc. apply is_nil_true in Ec. contradiction.
  - unfold open_blocks, user_host_errors.
    cbn [set_current imported_count error_messages current_command].
    rewrite Ec.
    destruct (current_command st) as [|l rest] eqn:Ecc; [discriminate|].
    split; [cbn [app is_nil]; lia|]. intros _.
    cbn [set_current current_command app hd].
    unfold block_ok in Hb. rewrite Ecc in Hb. apply Hb. discriminate.
Qed.

Lemma import_line_messages n line st :
  Forall known_message (error_messages st) ->
  Forall known_message (error_messages (import_line n line st)).
Proof.
  intros H. unfold import_line.
  destruct (is_nil (strip line)); [exact H|].
  destruct (startswith (lit "#") (strip line)).
  { assert (H' : Forall known_message (error_messages
        (if is_nil (current_command st) then st
         else set_pending None (set_current [] (command_start_line st)
                (try_import (command_start_line st) st))))).
    { destruct (is_nil (current_command st)); [exact H|].
      apply (try_import_messages _ _ H). }
    destruct (is_nil (strip (tail (strip line)))); exact H'. }
  destruct (startswith (lit "ssh") (strip line)).
  { destruct (is_nil (current_command st)); [exact H|].
    apply (try_import_messages _ _ H). }
  destruct (negb (is_nil (current_command st))); [exact H|].
  cbn [error_messages]. apply Forall_app. split; [exact H|].
  apply Forall_singleton. right. reflexivity.
Qed.

Lemma ssh_lines_cons line lines :
  ssh_lines (line :: lines) =
  (if is_ssh_line line then 1 else 0) + ssh_lines lines.
Proof.
  unfold ssh_lines. rewrite filter_cons.
  destruct (is_ssh_line line).
  - rewrite decide_True by reflexivity. reflexivity.
  - rewrite decide_False by discriminate. reflexivity.
Qed.

Lemma import_lines_account n lines st :
  block_ok st -> Forall known_message (error_messages st) ->
  let st' := import_lines n lines st in
  imported_count st' + user_host_errors st' + open_blocks st' =
    imported_count st + user_host_errors st + open_blocks st + ssh_lines lines /\
  block_ok st' /\ Forall known_message (error_messages st').
Proof.
  revert n st. induction lines as [|line lines IH]; intros n st Hb Hm; cbv zeta.
  - cbn. split; [unfold ssh_lines; cbn; lia|]. split; assumption.
  - cbn [import_lines]. rewrite ssh_lines_cons.
    destruct (import_line_account n line st Hb) as [Ha Hb'].
    destruct (IH (S n) _ Hb' (import_line_messages n line st Hm))
      as (Ha' & Hb'' & Hm').
    split; [lia|]. split; assumption.
Qed.

Lemma import_last_account n st :
  block_ok st ->
  imported_count (import_last n st) + user_host_errors (import_last n st) =
  imported_count st + user_host_errors st + open_blocks st.
Proof.
  intros Hb. unfold import_last, open_blocks.
  destruct (is_nil (current_command st)) eqn:Ec; [lia|].
  pose proof (try_import_account n st (is_nil_false _ Ec) Hb) as Ha.
  cbv zeta in Ha. unfold user_host_errors in *.
  cbn [set_pending set_current imported_count error_messages current_command is_nil]. lia.
Qed.

Lemma import_last_messages n st :
  Forall known_message (error_messages st) ->
  Forall known_message (error_messages (import_last n st)).
Proof.
  intros H. unfold import_last.
  destruct (is_nil (current_command st)); [exact H|].
  apply (try_import_messages _ _ H).
Qed.

End Accounting.

(** X10: every line that begins a block is accounted for: the number of
    the configurations added and the number of the errors for a missing
    [user@host] add up to the number of the lines that begin with [ssh];
    and every error has one of the two messages of the parser. *)
Theorem X10_import_accounting names input_text :
  let st := import_commands names input_text in
  imported_count st + user_host_errors st
    = ssh_lines (import_lines_of input_text) /\
  Forall known_message (error_messages st).
Proof.
  cbv zeta. unfold import_commands, import_lines_of. cbv zeta.
  assert (Hb : block_ok (import_init names)) by (intros H; contradiction).
  assert (Hm : Forall known_message (error_messages (import_init names)))
    by constructor.
  destruct (import_lines_account 1
              (split_char "010" (replace_continuation input_text)) _ Hb Hm)
    as (Ha & Hb' & Hm').
  split; [|apply import_last_messages, Hm'].
  rewrite (import_last_account _ _ Hb'), Ha. reflexivity.
Qed.

Section Report.

Lemma import_report_nothing st :
  import_report st = ReportNothing <->
  imported_count st = 0 /\ failed_count st = 0.
Proof.
  unfold import_report.
  destruct (imported_count st) as [|i], (failed_count st) as [|f]; cbn;
    split; try discriminate; try (intros [? ?]; discriminate);
    try (intros _; split; reflexivity); reflexivity.
Qed.

Lemma try_import_total err_line st :
  imported_count (try_import err_line st) + failed_count (try_import err_line st)
  = S (imported_count st + failed_count st).
Proof.
  destruct (try_import_cases err_line st) as [(c & _ & ->)|(e & _ & ->)];
    cbn; lia.
Qed.

Lemma import_line_quiet n line st :
  quiet_line line -> current_command st = [] ->
  let st' := import_line n line st in
  imported_count st' = imported_count st /\
  failed_count st' = failed_count st /\
  current_command st' = [].
Proof.
  unfold quiet_line, line_kind, import_line. cbv zeta. intros Hq Hc.
  destruct (is_nil (strip line)); [repeat split; exact Hc|].
  destruct (startswith (lit "#") (strip line)).
  - rewrite Hc. cbn [is_nil].
    destruct (is_nil (strip (tail (strip line)))); repeat split; exact Hc.
  - destruct (startswith (lit "ssh") (strip line));
      destruct Hq; discriminate.
Qed.

Lemma import_line_busy n line st :
  busy st \/ ~ quiet_line line -> busy (import_line n line st).
Proof.
  unfold busy, quiet_line, line_kind, import_line. cbv zeta. intros H.
  destruct (is_nil (strip line)).
  { destruct H as [H|H]; [exact H|]. exfalso. apply H. left. reflexivity. }
  destruct (startswith (lit "#") (strip line)).
  { assert (H' : let st1 :=
        (if is_nil (current_command st) then st
         else set_pending None (set_current [] (command_start_line st)
                (try_import (command_start_line st) st))) in
        1 <= imported_count st1 + failed_count st1 \/ current_command st1 <> []).
    { cbv zeta. destruct (is_nil (current_command st)) eqn:Ec.
      - destruct H as [H|H]; [exact H|]. exfalso. apply H. right. reflexivity.
      - left. cbn [set_pending set_current imported_count failed_count].
        rewrite try_import_total. lia. }
    destruct (is_nil (strip (tail (strip line)))); exact H'. }
  destruct (startswith (lit "ssh") (strip line)).
  { right. discriminate. }
  destruct (is_nil (current_command st)) eqn:Ec; cbn [negb].
  - left. cbn. lia.
  - right. cbn [set_current current_command].
    destruct (current_command st); discriminate.
Qed.

Lemma import_lines_busy n lines st :
  busy st -> busy (import_lines n lines st).
Proof.
  revert n st. induction lines as [|line lines IH]; intros n st H; [exact H|].
  cbn. apply IH, import_line_busy. left. exact H.
Qed.

Lemma import_lines_quiet n lines st :
  current_command st = [] ->
  (Forall quiet_line lines /\
   imported_count (import_lines n lines st) = imported_count st /\
   failed_count (import_lines n lines st) = failed_count st /\
   current_command (import_lines n lines st) = []) \/
  (~ Forall quiet_line lines /\ busy (import_lines n lines st)).
Proof.
  revert n st. induction lines as [|line lines IH]; intros n st Hc.
  - left. repeat split; [constructor|exact Hc].
  - cbn [import_lines].
    assert (Hk : quiet_line line \/ ~ quiet_line line).
    { unfold quiet_line. destruct (line_kind line);
        [left; left; reflexivity|left; right; reflexivity
        |right; intros [?|?]; discriminate..]. }
    destruct Hk as [Hq|Hq].
    + destruct (import_line_quiet n line st Hq Hc) as (H1 & H2 & H3).
      destruct (IH (S n) _ H3) as [(HF & H4 & H5 & H6)|[HnF Hb]].
      * left. split; [constructor; assumption|].
        rewrite H4, H5, H1, H2. repeat split. exact H6.
      * right. split; [|exact Hb].
        intros HF. apply Forall_cons in HF as [_ HF]. contradiction.
    + right. split.
      * intros HF. apply Forall_cons in HF as [HF _]. contradiction.
      * apply import_lines_busy, import_line_busy. right. exact Hq.
Qed.

Lemma import_last_busy n st :
  busy st ->
  1 <= imported_count (import_last n st) + failed_count (import_last n st).
Proof.
  unfold busy, import_last. intros H.
  destruct (is_nil (current_command st)) eqn:Ec.
  - destruct H as [H|H]; [exact H|]. apply is_nil_true in Ec. contradiction.
  - cbn [set_pending imported_count failed_count]. rewrite try_import_total. lia.
Qed.

End Report.

(** X9: an import reports that no valid command was found exactly when
    every line of the text is blank or a comment; any other line is
    counted, as a configuration added or as an error. *)
Theorem X9_report_nothing names input_text :
  import_report (import_commands names input_text) = ReportNothing <->
  Forall quiet_line (import_lines_of input_text).
Proof.
  rewrite import_report_nothing.
  unfold import_commands, import_lines_of. cbv zeta.
  set (lines := split_char "010" (replace_continuation input_text)).
  destruct (import_lines_quiet 1 lines (import_init names) eq_refl)
    as [(HF & H1 & H2 & H3)|[HnF Hb]].
  - unfold import_last. rewrite H3. cbn [is_nil]. rewrite H1, H2.
    split; [intros _; exact HF|intros _; split; reflexivity].
  - apply (import_last_busy (length lines)) in Hb.
    split; [intros [Hi Hf]; rewrite Hi, Hf in Hb; cbn in Hb; lia|].
    intros HF. contradiction.
Qed.

(** * The exported text, imported again *)

Section Lines.

Lemma replace_continuation_cons c c1 s :
  replace_continuation (c :: c1 :: s) =
  if ascii_eqb c "\" && ascii_eqb c1 "010"
  then " " :: replace_continuation s
  else c :: replace_continuation (c1 :: s).
Proof. reflexivity. Qed.

(** A line that does not end with a backslash is kept, with its line
    break. *)
Lemma replace_continuation_line l rest :
  ("010" ∉ l) -> last l <> Some "\" ->
  replace_continuation (l ++ "010" :: rest) = l ++ "010" :: replace_continuation rest.
Proof.
  induction l as [|c l IH]; intros Hnl Hlast.
  - cbn [app]. destruct rest as [|c1 rest]; [reflexivity|].
    rewrite replace_continuation_cons. reflexivity.
  - apply not_elem_of_cons in Hnl as [Hc Hnl].
    destruct l as [|c' l].
    + cbn [app]. rewrite replace_continuation_cons.
      rewrite (ascii_eqb_neq c "\") by (intros ->; apply Hlast; reflexivity).
      cbn [andb]. f_equal. apply (IH Hnl). discriminate.
    + cbn [app]. rewrite replace_continuation_cons.
      apply not_elem_of_cons in Hnl as Hnl'. destruct Hnl' as [Hc' _].
      rewrite (ascii_eqb_neq c' "010") by congruence.
      rewrite andb_false_r. f_equal. apply (IH Hnl). exact Hlast.
Qed.

Lemma replace_continuation_last l :
  ("010" ∉ l) -> replace_continuation l = l.
Proof.
  induction l as [|c l IH]; intros Hnl; [reflexivity|].
  apply not_elem_of_cons in Hnl as [Hc Hnl].
  destruct l as [|c' l]; [reflexivity|].
  rewrite replace_continuation_cons.
  apply not_elem_of_cons in Hnl as Hnl'. destruct Hnl' as [Hc' _].
  rewrite (ascii_eqb_neq c' "010") by congruence.
  rewrite andb_false_r. f_equal. exact (IH Hnl).
Qed.

Lemma join_cons2 sep (x y : str) l :
  join sep (x :: y :: l) = x ++ sep ++ join sep (y :: l).
Proof. reflexivity. Qed.

Lemma replace_continuation_join ls :
  Forall (fun l => ("010" ∉ l) /\ last l <> Some "\") ls ->
  replace_continuation (join newline ls) = join newline ls.
Proof.
  induction 1 as [|l ls [Hnl Hlast] _ IH]; [reflexivity|].
  destruct ls as [|l2 ls]; [exact (replace_continuation_last l Hnl)|].
  rewrite join_cons2. unfold newline at 1 3. cbn [app].
  rewrite (replace_continuation_line l _ Hnl Hlast), IH. reflexivity.
Qed.

Lemma split_char_line l rest :
  ("010" ∉ l) -> split_char "010" (l ++ "010" :: rest) = l :: split_char "010" rest.
Proof.
  induction l as [|c l IH]; intros Hnl; [reflexivity|].
  apply not_elem_of_cons in Hnl as [Hc Hnl].
  cbn [app split_char]. rewrite (ascii_eqb_neq c "010") by congruence.
  rewrite (IH Hnl). reflexivity.
Qed.

Lemma split_char_last l :
  ("010" ∉ l) -> split_char "010" l = [l].
Proof.
  induction l as [|c l IH]; intros Hnl; [reflexivity|].
  apply not_elem_of_cons in Hnl as [Hc Hnl].
  cbn [split_char]. rewrite (ascii_eqb_neq c "010") by congruence.
  rewrite (IH Hnl). reflexivity.
Qed.

(** Splitting the joined lines gives the lines back. *)
Lemma split_char_join ls :
  ls <> [] -> Forall (fun l => "010" ∉ l) ls ->
  split_char "010" (join newline ls) = ls.
Proof.
  intros Hne H. induction H as [|l ls Hnl _ IH]; [contradiction|].
  destruct ls as [|l2 ls]; [exact (split_char_last l Hnl)|].
  rewrite join_cons2. unfold newline at 1. cbn [app].
  rewrite (split_char_line l _ Hnl), IH by discriminate. reflexivity.
Qed.

Lemma lstrip_stop s : stops is_space s = true -> lstrip s = s.
Proof.
  destruct s as [|c s]; [reflexivity|]. cbn.
  intros H%negb_true_iff. rewrite H. reflexivity.
Qed.

Lemma lstrip_stops s : stops is_space (lstrip s) = true.
Proof.
  induction s as [|c s IH]; [reflexivity|]. cbn.
  destruct (is_space c) eqn:Hc; [exact IH|]. cbn. rewrite Hc. reflexivity.
Qed.

Lemma strip_ends s : strip s = s -> stops is_space (rev s) = true.
Proof.
  intros H. rewrite <- H. unfold strip. rewrite rev_involutive.
  apply lstrip_stops.
Qed.

Lemma stops_rev_app a b :
  b <> [] -> stops is_space (rev b) = true ->
  stops is_space (rev (a ++ b)) = true.
Proof.
  intros Hb H. rewrite rev_app_distr.
  destruct (rev b) as [|z r] eqn:E; [|exact H].
  apply (f_equal (@rev ascii)) in E. rewrite rev_involutive in E. contradiction.
Qed.

(** A text that begins and ends with a character that is not whitespace
    is its own strip, also after a final line break. *)
Lemma strip_line_break s :
  stops is_space s = true -> stops is_space (rev s) = true ->
  strip (s ++ newline) = s /\ strip s = s.
Proof.
  intros H1 H2. unfold strip.
  split.
  - destruct s as [|a s]; [reflexivity|].
    rewrite (lstrip_stop ((a :: s) ++ newline)) by exact H1.
    rewrite rev_app_distr. cbn [rev newline app].
    change (lstrip ("010" :: rev s ++ [a])) with (lstrip (rev s ++ [a])).
    change (rev s ++ [a]) with (rev (a :: s)).
    rewrite (lstrip_stop _ H2). apply rev_involutive.
  - rewrite (lstrip_stop s H1), (lstrip_stop _ H2). apply rev_involutive.
Qed.

End Lines.

Section ExportedLines.

Lemma ws_free_stops_rev s : ws_free s = true -> stops is_space (rev s) = true.
Proof.
  intros H. destruct (rev s) as [|z r] eqn:E; [reflexivity|]. cbn.
  unfold ws_free in H. rewrite forallb_forall in H. apply H.
  apply in_rev. rewrite E. left. reflexivity.
Qed.

Lemma ws_free_no_newline s : ws_free s = true -> "010" ∉ s.
Proof.
  intros H Hin. apply list_elem_of_In in Hin.
  unfold ws_free in H. rewrite forallb_forall in H.
  specialize (H _ Hin). discriminate.
Qed.

Lemma spaced_no_newline ts :
  forallb is_token ts = true -> "010" ∉ spaced ts.
Proof.
  induction ts as [|t ts IH]; intros H; [apply not_elem_of_nil|].
  cbn [forallb] in H. apply andb_prop in H as [[_ Ht]%andb_prop Hts].
  rewrite spaced_cons. apply not_elem_of_cons. split; [discriminate|].
  apply not_elem_of_app. split; [exact (ws_free_no_newline t Ht)|exact (IH Hts)].
Qed.

(** The text of all configurations is its lines, each with a line break. *)
Lemma export_text_lines c cs :
  join newline (map export_entry (c :: cs))
  = join newline (export_lines (c :: cs)) ++ newline.
Proof.
  revert c. induction cs as [|c2 cs IH]; intros c.
  - unfold export_entry, export_lines, entry_lines, newline. cbn [map join concat app].
    repeat first [rewrite <- app_assoc | progress cbn [app]]. reflexivity.
  - cbn [map]. rewrite join_cons2. cbn [map] in IH. rewrite IH.
    unfold export_lines, entry_lines. cbn [map concat app].
    rewrite !join_cons2. unfold export_entry, newline.
    repeat first [rewrite <- app_assoc | progress cbn [app]]. reflexivity.
Qed.

Context (c : Config) (Hc : exportable c).

Lemma comment_line_kept :
  ("010" ∉ lit "# " ++ name c) /\ last (lit "# " ++ name c) <> Some "\" /\
  strip (lit "# " ++ name c) = lit "# " ++ name c /\
  strip (tail (lit "# " ++ name c)) = name c /\ name c <> [].
Proof.
  destruct Hc as (_ & (Hne & Hstrip & Hnl & Hlast) & _).
  split; [|split; [|split; [|split]]].
  - apply not_elem_of_app. split; [|exact Hnl].
    apply (bool_decide_eq_false_1 _). vm_compute. reflexivity.
  - rewrite last_app. destruct (last (name c)) as [z|] eqn:E; [exact Hlast|].
    apply last_None in E. contradiction.
  - apply strip_line_break; [reflexivity|].
    apply stops_rev_app; [exact Hne|exact (strip_ends _ Hstrip)].
  - exact Hstrip.
  - exact Hne.
Qed.

Lemma command_line_kept :
  ("010" ∉ export_to_command c) /\ last (export_to_command c) <> Some "\" /\
  strip (export_to_command c) = export_to_command c /\
  stops is_space (rev (export_to_command c)) = true.
Proof.
  destruct Hc as (Hp & _ & Hlast & _).
  pose proof (parsed_host c Hp) as Hh. unfold is_token in Hh.
  apply andb_prop in Hh as [Hne Hws].
  assert (Hhost : ssh_host c <> []) by (destruct (ssh_host c); [discriminate|discriminate]).
  assert (Hrev : stops is_space (rev (export_to_command c)) = true).
  { rewrite export_to_command_config. cbv zeta. rewrite !app_assoc.
    apply stops_rev_app; [exact Hhost|exact (ws_free_stops_rev _ Hws)]. }
  split; [|split; [|split]].
  - rewrite export_to_command_tokens. unfold export_tokens. cbn [app].
    rewrite join_spaced. apply not_elem_of_app. split.
    + apply (bool_decide_eq_false_1 _). vm_compute. reflexivity.
    + apply spaced_no_newline.
      pose proof (export_tokens_are_tokens c Hp) as Ht.
      unfold export_tokens in Ht. cbn [app forallb] in Ht.
      apply andb_prop in Ht as [_ Ht]. exact Ht.
  - rewrite export_to_command_config. cbv zeta. rewrite !app_assoc, last_app.
    destruct (last (ssh_host c)) as [z|] eqn:E; [exact Hlast|].
    apply last_None in E. contradiction.
  - apply strip_line_break; [|exact Hrev].
    rewrite export_to_command_tokens. reflexivity.
  - exact Hrev.
Qed.

End ExportedLines.

Section Reimport.

Lemma import_line_comment n st c :
  exportable c ->
  import_line n (lit "# " ++ name c) st =
  set_pending (Some (name c))
    (if is_nil (current_command st) then st
     else set_pending None (set_current [] (command_start_line st)
            (try_import (command_start_line st) st))).
Proof.
  intros Hc. destruct (comment_line_kept c Hc) as (_ & _ & Hs & Ht & Hne).
  unfold import_line. rewrite Hs, Ht.
  change (lit "# " ++ name c) with ("#" :: " " :: name c).
  cbn [is_nil]. change (startswith (lit "#") ("#" :: " " :: name c)) with true.
  cbv iota. destruct (name c); [contradiction|]. reflexivity.
Qed.

Lemma import_line_command n st c :
  exportable c -> current_command st = [] ->
  import_line n (export_to_command c) st = set_current [export_to_command c] n st.
Proof.
  intros Hc Hcc. destruct (command_line_kept c Hc) as (_ & _ & Hs & _).
  destruct (startswith_ssh_inv _ (startswith_export c)) as [r Er].
  assert (H1 : is_nil (export_to_command c) = false) by (rewrite Er; reflexivity).
  assert (H2 : startswith (lit "#") (export_to_command c) = false)
    by (rewrite Er; reflexivity).
  unfold import_line. rewrite Hs, H1, H2, (startswith_export c), Hcc.
  reflexivity.
Qed.

(** The block of an exported configuration is imported under its name. *)
Lemma try_import_entry err_line st c :
  exportable c ->
  current_command st = [export_to_command c] ->
  pending_name st = Some (name c) ->
  (name c ∉ existing_names st) ->
  try_import err_line st =
  mkImportState (imported st ++ [reimport c]) (S (imported_count st))
    (failed_count st) (error_messages st)
    (existing_names st ++ [name c]) (Some (name c))
    [export_to_command c] (command_start_line st).
Proof.
  intros (Hp & _) Hcc Hpend Hnew.
  destruct (parse_export c Hp) as (x & u & h & _ & Hparse & _).
  unfold try_import, reimport. rewrite Hcc. cbn [join].
  rewrite Hparse, Hpend. cbv zeta. unfold unique_name. cbn [name set_name].
  rewrite bool_decide_eq_false_2 by exact Hnew. reflexivity.
Qed.

Lemma import_entries line_count rest :
  forall c_prev st n,
    Forall exportable (c_prev :: rest) ->
    NoDup (name <$> c_prev :: rest) ->
    Forall (fun c => name c ∉ existing_names st) (c_prev :: rest) ->
    current_command st = [export_to_command c_prev] ->
    pending_name st = Some (name c_prev) ->
    let st' :=
      import_last line_count
        (import_lines n (concat (map (fun c => [] :: entry_lines c) rest)) st) in
    imported st' = imported st ++ (reimport <$> c_prev :: rest) /\
    imported_count st' = imported_count st + S (length rest) /\
    failed_count st' = failed_count st /\
    error_messages st' = error_messages st.
Proof.
  induction rest as [|c rest IH]; intros c_prev st n Hex Hnd Hnew Hcc Hpend;
    cbv zeta.
  - cbn [map concat import_lines]. unfold import_last. rewrite Hcc. cbn [is_nil].
    apply Forall_cons in Hex as [Hex _]. apply Forall_cons in Hnew as [Hnew _].
    rewrite (try_import_entry _ st c_prev Hex Hcc Hpend Hnew).
    cbn. repeat split. lia.
  - apply Forall_cons in Hex as [Hprev Hex]. apply Forall_cons in Hnew as [Hnewp Hnew].
    pose proof Hex as Hex'. apply Forall_cons in Hex' as [Hexc _].
    cbn [fmap list_fmap] in Hnd. apply NoDup_cons in Hnd as [Hnotin Hnd].
    cbn [map concat app entry_lines import_lines].
    change (import_line n [] st) with st.
    rewrite (import_line_comment (S n) st c Hexc), Hcc. cbn [is_nil].
    rewrite (try_import_entry _ st c_prev Hprev Hcc Hpend Hnewp).
    cbn [set_pending set_current imported imported_count failed_count
         error_messages existing_names pending_name current_command
         command_start_line].
    rewrite import_line_command by (exact Hexc || reflexivity).
    cbn [set_pending set_current imported imported_count failed_count
         error_messages existing_names pending_name current_command
         command_start_line].
    match goal with
    | |- context [import_lines _ _ ?s] => set (st2 := s)
    end.
    destruct (IH c st2 (S (S (S n))) Hex Hnd) as (H1 & H2 & H3 & H4).
    + apply Forall_forall. intros x Hx.
      change (existing_names st2) with (existing_names st ++ [name c_prev]).
      apply not_elem_of_app. split.
      * rewrite Forall_forall in Hnew. exact (Hnew x Hx).
      * intros Heq%list_elem_of_singleton. apply Hnotin. rewrite <- Heq.
        change (name x ∈ name <$> c :: rest).
        apply list_elem_of_fmap_2. exact Hx.
    + reflexivity.
    + reflexivity.
    + rewrite H1, H2, H3, H4.
      change (imported st2) with (imported st ++ [reimport c_prev]).
      change (imported_count st2) with (S (imported_count st)).
      change (failed_count st2) with (failed_count st).
      change (error_messages st2) with (error_messages st).
      rewrite <- app_assoc. repeat split. cbn [length]. lia.
Qed.

Lemma import_export_lines line_count names cs :
  cs <> [] -> Forall exportable cs -> NoDup (name <$> cs) ->
  Forall (fun c => name c ∉ names) cs ->
  let st := import_last line_count
              (import_lines 1 (export_lines cs) (import_init names)) in
  imported st = (reimport <$> cs) /\ imported_count st = length cs /\
  failed_count st = 0 /\ error_messages st = [].
Proof.
  intros Hne Hex Hnd Hnew. destruct cs as [|c cs]; [contradiction|].
  cbv zeta. unfold export_lines, entry_lines. cbn [app import_lines].
  pose proof Hex as Hex'. apply Forall_cons in Hex' as [Hc _].
  rewrite (import_line_comment 1 _ c Hc).
  cbn [import_init current_command is_nil].
  rewrite import_line_command by (exact Hc || reflexivity).
  match goal with
  | |- context [import_lines _ _ ?s] => set (st1 := s)
  end.
  pose proof (import_entries line_count cs c st1 3 Hex Hnd Hnew eq_refl eq_refl)
    as H.
  cbv zeta in H. unfold entry_lines in H. destruct H as (H1 & H2 & H3 & H4).
  rewrite H1, H2, H3, H4. repeat split.
Qed.

Lemma reimport_same c :
  exportable c ->
  name (reimport c) = name c /\
  export_to_command (reimport c) = export_to_command c /\
  start_cmd (reimport c) = start_cmd c.
Proof.
  intros (Hp & _ & _ & Hat).
  destruct (export_stable c Hp Hat) as (c' & Hparse & Ht & Hf & Hport & Huh).
  unfold reimport. rewrite Hparse. split; [reflexivity|]. split.
  - change (export_to_command (set_name (name c) c')) with (export_to_command c').
    rewrite !export_to_command_tokens, Ht. reflexivity.
  - change (start_cmd (set_name (name c) c')) with (start_cmd c').
    rewrite !start_cmd_tokens, Hf, Hport, Huh. reflexivity.
Qed.

End Reimport.

Section ExportedText.

Lemma join_last_line ls l :
  last ls = Some l -> l <> [] -> stops is_space (rev l) = true ->
  join newline ls <> [] /\ stops is_space (rev (join newline ls)) = true.
Proof.
  intros Hlast Hne Hstop. induction ls as [|l1 ls IH]; [discriminate|].
  destruct ls as [|l2 ls].
  - injection Hlast as ->. split; assumption.
  - rewrite last_cons_cons in Hlast. destruct (IH Hlast) as [Hj Hs].
    rewrite join_cons2, app_assoc. split.
    + intros H. apply app_eq_nil in H as [_ H]. contradiction.
    + apply stops_rev_app; assumption.
Qed.

Lemma export_lines_last c cs :
  exists c' : Config, c' ∈ c :: cs /\
    last (export_lines (c :: cs)) = Some (export_to_command c').
Proof.
  unfold export_lines, entry_lines.
  destruct cs as [|x cs _] using rev_ind.
  - exists c. split; [left|reflexivity].
  - exists x. split; [right; apply elem_of_app; right; left|].
    rewrite map_app, concat_app. cbn [map concat]. rewrite app_nil_r.
    rewrite !app_assoc.
    change ([[]; lit "# " ++ name x; export_to_command x])
      with ([[]; lit "# " ++ name x] ++ [export_to_command x]).
    rewrite app_assoc. apply last_snoc.
Qed.

Lemma export_lines_kept cs :
  Forall exportable cs ->
  Forall (fun l => ("010" ∉ l) /\ last l <> Some "\") (export_lines cs).
Proof.
  assert (Hentry : forall c, exportable c ->
            Forall (fun l => ("010" ∉ l) /\ last l <> Some "\") (entry_lines c)).
  { intros c Hc. destruct (comment_line_kept c Hc) as (H1 & H2 & _).
    destruct (command_line_kept c Hc) as (H3 & H4 & _).
    unfold entry_lines. repeat constructor; assumption. }
  intros H. destruct H as [|c cs Hc Hcs]; [constructor|].
  unfold export_lines. apply Forall_app. split; [exact (Hentry c Hc)|].
  induction Hcs as [|x cs Hx _ IH]; [constructor|].
  cbn [map concat]. apply Forall_app. split; [|exact IH].
  constructor; [|exact (Hentry x Hx)].
  split; [apply not_elem_of_nil|discriminate].
Qed.

(** The text of [on_export_commands], as [on_import_command] takes it
    apart. *)
Lemma export_text_import_lines c cs :
  Forall exportable (c :: cs) ->
  let text := join newline (map export_entry (c :: cs)) in
  strip text <> [] /\
  import_lines_of (strip text) = export_lines (c :: cs).
Proof.
  intros Hex. cbv zeta. rewrite export_text_lines.
  destruct (export_lines_last c cs) as (c' & Hin & Hlast).
  assert (Hc' : exportable c') by (rewrite Forall_forall in Hex; exact (Hex c' Hin)).
  destruct (command_line_kept c' Hc') as (_ & _ & _ & Hstop).
  destruct (startswith_ssh_inv _ (startswith_export c')) as [r Er].
  destruct (join_last_line _ _ Hlast) as [Hne Hrev];
    [rewrite Er; discriminate|exact Hstop|].
  assert (Hhead : stops is_space (join newline (export_lines (c :: cs))) = true).
  { unfold export_lines, entry_lines. cbn [app]. rewrite join_cons2. reflexivity. }
  destruct (strip_line_break _ Hhead Hrev) as [-> _].
  split; [exact Hne|].
  unfold import_lines_of.
  pose proof (export_lines_kept _ Hex) as Hkept.
  rewrite (replace_continuation_join _ Hkept).
  apply split_char_join.
  - unfold export_lines, entry_lines. discriminate.
  - eapply Forall_impl; [exact Hkept|]. cbn. intros l [Hl _]. exact Hl.
Qed.

End ExportedText.

(** X11: the text shown by [on_export_commands], given to the import, adds
    one configuration for each configuration exported, in the same order
    and with no error: with the same name, the same exported command and
    the same command line of [start_tunnel].  This holds when the
    configurations have the form of parsed ones, with no [@] in the host of
    a forward and no backslash at the end of the host; their names are on
    one line, have no whitespace or backslash at their end, differ from
    each other and are not among the names stored before. *)
Theorem X11_export_then_import names cs text :
  on_export_commands cs = Some text ->
  Forall exportable cs -> NoDup (name <$> cs) ->
  Forall (fun c => name c ∉ names) cs ->
  exists st,
    import_text names text = Some st /\
    (name <$> imported st) = (name <$> cs) /\
    ((fun c : Config => export_to_command c) <$> imported st)
      = ((fun c : Config => export_to_command c) <$> cs) /\
    ((fun c : Config => start_cmd c) <$> imported st)
      = ((fun c : Config => start_cmd c) <$> cs) /\
    error_messages st = [] /\
    import_report st = ReportImported (length cs).
Proof.
  intros Htext Hex Hnd Hnew.
  destruct cs as [|c cs]; [discriminate|].
  assert (text = join newline (map export_entry (c :: cs))) as ->
    by (change (Some (join newline (map export_entry (c :: cs))) = Some text)
          in Htext; congruence).
  clear Htext.
  destruct (export_text_import_lines c cs Hex) as [Hne Hlines].
  cbv zeta in Hne, Hlines.
  set (input_text := strip (join newline (map export_entry (c :: cs)))) in *.
  exists (import_commands names input_text). split.
  { unfold import_text. cbv zeta. fold input_text.
    destruct input_text; [contradiction|reflexivity]. }
  unfold import_commands. cbv zeta.
  unfold import_lines_of in Hlines. rewrite Hlines.
  destruct (import_export_lines (length (export_lines (c :: cs))) names (c :: cs))
    as (H1 & H2 & H3 & H4); [discriminate|assumption..|].
  rewrite H1, H4.
  assert (Hsame : forall (B : Type) (f : Config -> B),
            Forall (fun x => f (reimport x) = f x) (c :: cs) ->
            (f <$> (reimport <$> c :: cs)) = (f <$> c :: cs)).
  { intros B f HF. rewrite <- list_fmap_compose.
    apply Forall_fmap_ext_1. exact HF. }
  split; [|split; [|split; [|split; [reflexivity|]]]].
  - apply Hsame. eapply Forall_impl; [exact Hex|].
    intros x Hx. apply (reimport_same x Hx).
  - apply Hsame. eapply Forall_impl; [exact Hex|].
    intros x Hx. apply (reimport_same x Hx).
  - apply Hsame. eapply Forall_impl; [exact Hex|].
    intros x Hx. apply (reimport_same x Hx).
  - unfold import_report. rewrite H2, H3. reflexivity.
Qed.

Lemma X11_export_then_import_witness :
  on_export_commands [web_config; proxy_config] = Some export_example /\
  exists st,
    import_text [lit "web_1"] export_example = Some st /\
    (name <$> imported st) = [lit "web"; lit "my proxy"] /\
    ((fun c : Config => export_to_command c) <$> imported st)
      = [lit "ssh -N -L 8080:localhost:80 alice@example.com";
         lit "ssh -N -D 1080 -p 2222 carol@jump.host"].
Proof.
  split; [vm_compute; reflexivity|].
  assert (Hkept : forall n : str,
            n = lit "web" \/ n = lit "my proxy" -> name_kept n).
  { intros n [-> | ->]; (split; [discriminate|]); (split; [reflexivity|]);
      (split; [apply (bool_decide_eq_false_1 _); vm_compute; reflexivity
              |vm_compute; discriminate]). }
  destruct (X11_export_then_import [lit "web_1"] [web_config; proxy_config]
              export_example) as (st & H1 & H2 & H3 & _).
  - vm_compute. reflexivity.
  - constructor; [|constructor; [|constructor]].
    + split; [|split; [apply Hkept; left; reflexivity|split]].
      * constructor; [reflexivity|reflexivity|reflexivity|discriminate
                     |vm_compute; discriminate|left; reflexivity].
      * vm_compute. discriminate.
      * repeat constructor. apply (bool_decide_eq_false_1 _). vm_compute. reflexivity.
    + split; [|split; [apply Hkept; right; reflexivity|split]].
      * constructor; [reflexivity|reflexivity|reflexivity|reflexivity
                     |vm_compute; discriminate|left; reflexivity].
      * vm_compute. discriminate.
      * constructor.
  - apply NoDup_cons. split; [|apply NoDup_singleton].
    apply (bool_decide_eq_false_1 _). vm_compute. reflexivity.
  - repeat constructor; apply (bool_decide_eq_false_1 _); vm_compute; reflexivity.
  - exists st. split; [exact H1|]. split; [exact H2|exact H3].
Defined.

Lemma X18_on_remove_tunnel_witness :
  let web := set_name (lit "web") default_config in
  let db := set_name (lit "db") default_config in
  (on_remove_tunnel env_graceful web [db; web; db; web] one_tunnel).1 = [db; db] /\
  is_running (lit "web")
    (on_remove_tunnel env_graceful web [db; web; db; web] one_tunnel).2 = false.
Proof.
  cbv zeta. split; [vm_compute; reflexivity|].
  exact (proj1 (proj2 (proj2 (proj2
    (X18_on_remove_tunnel env_graceful (set_name (lit "web") default_config)
       [set_name (lit "db") default_config; set_name (lit "web") default_config;
        set_name (lit "db") default_config; set_name (lit "web") default_config]
       one_tunnel))))).
Defined.

(** * The list view *)

(** X22: the list view has one row for each configuration, in the order of
    the list; updating the status of the rows built under one state of the
    manager gives the rows that a rebuild under the current state gives,
    and the status of a row is [Running] exactly when its tunnel is
    running. *)
Theorem X22_update_status m m' tunnels_config :
  (row_config <$> refresh_tunnel_list m tunnels_config) = tunnels_config /\
  update_status m' (refresh_tunnel_list m tunnels_config)
    = refresh_tunnel_list m' tunnels_config /\
  Forall (fun row => row_status row = lit "Running" <->
                     is_running (row_name row) m' = true)
    (update_status m' (refresh_tunnel_list m tunnels_config)).
Proof.
  split; [|split].
  - unfold refresh_tunnel_list.
    induction tunnels_config as [|c cs IH]; [reflexivity|].
    cbn [map fmap list_fmap row_config]. f_equal. exact IH.
  - unfold update_status, refresh_tunnel_list. rewrite map_map. reflexivity.
  - unfold update_status, refresh_tunnel_list. rewrite map_map.
    apply Forall_forall. intros row Hin.
    apply list_elem_of_In, in_map_iff in Hin as (c & <- & _).
    cbn [row_status row_name]. unfold status_label.
    destruct (is_running (name c) m'); split; (reflexivity || discriminate).
Qed.

(** * Continuation lines *)

Section Continuation.

Lemma replace_continuation_app_len n :
  forall a s,
    length a <= n -> hd "a" s <> "010" ->
    replace_continuation (a ++ s) = replace_continuation a ++ replace_continuation s.
Proof.
  induction n as [|n IH]; intros a s Hlen Hs.
  - destruct a; [reflexivity|cbn in Hlen; lia].
  - destruct a as [|c [|c1 a]]; [reflexivity| |].
    + cbn [app]. destruct s as [|c1 s]; [reflexivity|].
      rewrite replace_continuation_cons. cbn [hd] in Hs.
      rewrite (ascii_eqb_neq c1 "010") by exact Hs.
      rewrite andb_false_r. reflexivity.
    + cbn [app]. rewrite !replace_continuation_cons.
      cbn [length] in Hlen.
      destruct (ascii_eqb c "\" && ascii_eqb c1 "010").
      * rewrite (IH a s) by (lia || exact Hs). reflexivity.
      * change (c1 :: a ++ s) with ((c1 :: a) ++ s).
        rewrite (IH (c1 :: a) s) by (cbn [length]; lia || exact Hs).
        reflexivity.
Qed.

Lemma replace_continuation_app a s :
  hd "a" s <> "010" ->
  replace_continuation (a ++ s) = replace_continuation a ++ replace_continuation s.
Proof. apply (replace_continuation_app_len (length a)). lia. Qed.

(** In the loop, a backslash followed by a line break is a space. *)
Lemma import_commands_continuation names a b :
  import_commands names (a ++ "\" :: "010" :: b)
  = import_commands names (a ++ " " :: b).
Proof.
  unfold import_commands. cbv zeta.
  rewrite !replace_continuation_app by (cbn; discriminate).
  rewrite replace_continuation_cons. cbn [ascii_eqb andb].
  change (ascii_eqb "\" "\" && ascii_eqb "010" "010") with true. cbv iota.
  assert (E : replace_continuation (" " :: b) = " " :: replace_continuation b).
  { destruct b as [|c b]; [reflexivity|]. rewrite replace_continuation_cons.
    reflexivity. }
  rewrite E. reflexivity.
Qed.

Lemma lstrip_app_nonblank a r :
  forallb is_space a = false -> lstrip (a ++ r) = lstrip a ++ r.
Proof.
  induction a as [|c a IH]; [discriminate|]. cbn.
  destruct (is_space c); [exact IH|]. intros _. reflexivity.
Qed.

Lemma forallb_rev (p : ascii -> bool) (l : str) :
  forallb p (rev l) = forallb p l.
Proof.
  induction l as [|c l IH]; [reflexivity|]. cbn [rev].
  rewrite forallb_app, IH. cbn. rewrite andb_true_r. apply andb_comm.
Qed.

(** What [strip] leaves of a text with something else than whitespace
    before and after its middle. *)
Lemma strip_around a mid b :
  forallb is_space a = false -> forallb is_space b = false ->
  strip (a ++ mid ++ b) = lstrip a ++ mid ++ rev (lstrip (rev b)).
Proof.
  intros Ha Hb. unfold strip.
  rewrite (lstrip_app_nonblank a _ Ha).
  rewrite !rev_app_distr, <- app_assoc.
  rewrite lstrip_app_nonblank by (rewrite forallb_rev; exact Hb).
  rewrite !rev_app_distr, !rev_involutive, <- app_assoc. reflexivity.
Qed.

Lemma import_text_around names a mid b :
  forallb is_space a = false -> forallb is_space b = false -> mid <> [] ->
  import_text names (a ++ mid ++ b)
  = Some (import_commands names (lstrip a ++ mid ++ rev (lstrip (rev b)))).
Proof.
  intros Ha Hb Hm. unfold import_text. cbv zeta.
  rewrite (strip_around a mid b Ha Hb).
  destruct (lstrip a ++ mid ++ rev (lstrip (rev b))) eqn:E; [|reflexivity].
  apply app_eq_nil in E as [_ E]. apply app_eq_nil in E as [E _]. contradiction.
Qed.

End Continuation.

(** X23: a backslash at the end of a line joins the line with the next
    one: when something else than whitespace stands before the backslash
    and after the line break, the import of a text is the import of the
    text with a space in the place of the backslash and the line break. *)
Theorem X23_continuation_is_space names a b :
  forallb is_space a = false -> forallb is_space b = false ->
  import_text names (a ++ "\" :: "010" :: b)
  = import_text names (a ++ " " :: b) /\
  is_Some (import_text names (a ++ "\" :: "010" :: b)).
Proof.
  intros Ha Hb.
  change (a ++ "\" :: "010" :: b) with (a ++ ["\"; "010"] ++ b).
  change (a ++ " " :: b) with (a ++ [" "] ++ b).
  rewrite !(import_text_around names a _ b Ha Hb) by discriminate.
  split; [|eexists; reflexivity]. f_equal.
  apply import_commands_continuation.
Qed.

Lemma X23_continuation_is_space_witness :
  import_text [] (lit "ssh -D 1 \" ++ newline ++ lit "  u@h")
  = import_text [] (lit "ssh -D 1    u@h").
Proof.
  exact (proj1 (X23_continuation_is_space [] (lit "ssh -D 1 ") (lit "  u@h")
                  eq_refl eq_refl)).
Defined.

Section BlankText.

Lemma lstrip_nil s : lstrip s = [] <-> forallb is_space s = true.
Proof.
  induction s as [|c s IH]; [split; reflexivity|]. cbn.
  destruct (is_space c); [exact IH|]. split; discriminate.
Qed.

Lemma forallb_rev_space s :
  forallb is_space (rev s) = true -> forallb is_space s = true.
Proof.
  rewrite !forallb_forall. intros H x Hx. apply H, in_rev.
  rewrite rev_involutive. exact Hx.
Qed.

Lemma strip_nil s : strip s = [] <-> forallb is_space s = true.
Proof.
  unfold strip. split.
  - intros H. apply (f_equal (@rev ascii)) in H.
    rewrite rev_involutive in H. cbn [rev] in H.
    apply lstrip_nil, forallb_rev_space in H.
    pose proof (lstrip_stops s) as Hs.
    destruct (lstrip s) as [|c r] eqn:E; [apply lstrip_nil, E|].
    cbn in H, Hs. apply andb_prop in H as [Hc _].
    rewrite Hc in Hs. discriminate.
  - intros H. apply lstrip_nil in H. rewrite H. reflexivity.
Qed.

End BlankText.

(** X24: the import refuses a text, asking for at least one command,
    exactly when the text has only whitespace; every other text is
    imported after its whitespace at both ends is removed. *)
Theorem X24_import_text_refused names text :
  (import_text names text = None <-> forallb is_space text = true) /\
  (forallb is_space text = false ->
   import_text names text = Some (import_commands names (strip text))).
Proof.
  unfold import_text. cbv zeta.
  pose proof (strip_nil text) as H.
  destruct (strip text) as [|c r] eqn:E; cbn [is_nil].
  - split; [split; [intros _; apply H; reflexivity|reflexivity]|].
    intros Hf. rewrite (proj1 H eq_refl) in Hf. discriminate.
  - split; [|reflexivity]. split; [discriminate|].
    intros Hs. apply H in Hs. discriminate.
Qed.

Lemma X24_import_text_refused_witness :
  import_text [] (lit "  ssh -D 1 u@h ")
  = Some (import_commands [] (lit "ssh -D 1 u@h")).
Proof.
  exact (proj2 (X24_import_text_refused [] (lit "  ssh -D 1 u@h ")) eq_refl).
Defined.

(** * What the import adds *)

Section ImportedConfigs.

Lemma parsed_set_name n c : parsed c -> parsed (set_name n c).
Proof. intros [? ? ? ? ? ?]. constructor; assumption. Qed.

Lemma unique_name_only_name names c :
  unique_name names c = set_name (name (unique_name names c)) c.
Proof.
  unfold unique_name. destruct (bool_decide _); [reflexivity|].
  destruct c. reflexivity.
Qed.

Lemma unique_name_not_empty names c :
  name c <> [] -> name (unique_name names c) <> [].
Proof.
  unfold unique_name. destruct (bool_decide _); [|intros H; exact H].
  intros Hn. cbn [name set_name]. intros H.
  apply app_eq_nil in H as [H _]. contradiction.
Qed.

Lemma try_import_well_formed err_line st :
  Forall (fun c => parsed c /\ name c <> []) (imported st) ->
  pending_name st <> Some [] ->
  Forall (fun c => parsed c /\ name c <> []) (imported (try_import err_line st)).
Proof.
  intros Hall Hpend.
  destruct (try_import_cases err_line st) as [(c & Hc & ->)|(e & _ & ->)];
    cbv zeta; cbn [imported]; [|exact Hall].
  apply Forall_app. split; [exact Hall|]. apply Forall_singleton.
  pose proof (parse_parsed _ _ Hc) as Hp.
  assert (Hname : name c <> []).
  { apply parse_Ok_inv in Hc as (u & h & _ & _ & ->). cbv zeta.
    apply default_name_not_empty. }
  rewrite unique_name_only_name. split.
  - apply parsed_set_name.
    destruct (pending_name st); [apply parsed_set_name|]; exact Hp.
  - cbn [name set_name]. apply unique_name_not_empty.
    destruct (pending_name st) as [n|]; [|exact Hname].
    cbn [name set_name]. intros ->. apply Hpend. reflexivity.
Qed.

Lemma import_line_well_formed n line st :
  Forall (fun c => parsed c /\ name c <> []) (imported st) ->
  pending_name st <> Some [] ->
  Forall (fun c => parsed c /\ name c <> [])
    (imported (import_line n line st)) /\
  pending_name (import_line n line st) <> Some [].
Proof.
  intros Hall Hpend. unfold import_line.
  destruct (is_nil (strip line)); [split; assumption|].
  destruct (startswith (lit "#") (strip line)).
  { assert (H' : Forall (fun c => parsed c /\ name c <> []) (imported
        (if is_nil (current_command st) then st
         else set_pending None (set_current [] (command_start_line st)
                (try_import (command_start_line st) st)))) /\
        pending_name
          (if is_nil (current_command st) then st
           else set_pending None (set_current [] (command_start_line st)
                  (try_import (command_start_line st) st))) <> Some []).
    { destruct (is_nil (current_command st)); [split; assumption|].
      split; [exact (try_import_well_formed _ _ Hall Hpend)|discriminate]. }
    destruct H' as [H1 H2].
    destruct (is_nil (strip (tail (strip line)))) eqn:E; [split; assumption|].
    split; [exact H1|]. cbn [set_pending pending_name].
    intros [= H]. rewrite H in E. discriminate. }
  destruct (startswith (lit "ssh") (strip line)).
  { destruct (is_nil (current_command st)); [split; assumption|].
    split; [exact (try_import_well_formed _ _ Hall Hpend)|discriminate]. }
  destruct (negb (is_nil (current_command st))); split; assumption.
Qed.

Lemma import_lines_well_formed n lines st :
  Forall (fun c => parsed c /\ name c <> []) (imported st) ->
  pending_name st <> Some [] ->
  Forall (fun c => parsed c /\ name c <> [])
    (imported (import_lines n lines st)) /\
  pending_name (import_lines n lines st) <> Some [].
Proof.
  revert n st. induction lines as [|line lines IH]; intros n st Hall Hpend;
    [split; assumption|].
  cbn [import_lines].
  destruct (import_line_well_formed n line st Hall Hpend) as [H1 H2].
  exact (IH _ _ H1 H2).
Qed.

End ImportedConfigs.

(** X25: every configuration that an import adds is a configuration that
    the parser returned, under the name chosen for it: it has the form of
    a parsed configuration, and its name, host and user are not empty, as
    [on_add_tunnel] requires of a configuration of the dialog. *)
Theorem X25_import_well_formed names input_text :
  Forall (fun c => parsed c /\ required_fields c = true)
    (imported (import_commands names input_text)).
Proof.
  assert (H : Forall (fun c => parsed c /\ name c <> [])
                (imported (import_commands names input_text))).
  { unfold import_commands. cbv zeta.
    destruct (import_lines_well_formed 1
                (split_char "010" (replace_continuation input_text))
                (import_init names)) as [H1 H2];
      [constructor|discriminate|].
    unfold import_last.
    destruct (is_nil (current_command _)); [exact H1|].
    exact (try_import_well_formed _ _ H1 H2). }
  eapply Forall_impl; [exact H|]. cbn beta. intros c [Hp Hn].
  split; [exact Hp|]. unfold required_fields.
  pose proof (parsed_host c Hp) as Hh. pose proof (parsed_user c Hp) as Hu.
  unfold is_token in Hh. unfold user_name in Hu.
  apply andb_prop in Hh as [-> _]. apply andb_prop in Hu as [-> _].
  destruct (name c); [contradiction|reflexivity].
Qed.

(** X26: the name that an import gives to a configuration whose name is
    taken is that name followed by [_] and the least number from 1 on that
    makes a name not yet seen; a name that is not taken is kept; nothing
    but the name is changed, and the name chosen is never a name seen
    before. *)
Theorem X26_unique_name_least_suffix names config :
  unique_name names config = set_name (name (unique_name names config)) config /\
  (name (unique_name names config) ∉ names) /\
  (name config ∉ names -> unique_name names config = config) /\
  (name config ∈ names ->
   exists r, 1 <= r /\
     name (unique_name names config) = name config ++ lit "_" ++ str_of_nat r /\
     forall k, 1 <= k < r -> name config ++ lit "_" ++ str_of_nat k ∈ names).
Proof.
  split; [apply unique_name_only_name|apply unique_name_spec].
Qed.

Lemma X26_unique_name_least_suffix_witness :
  exists r,
    1 <= r /\
    name (unique_name [lit "web"; lit "web_1"; lit "web_3"]
            (set_name (lit "web") default_config))
      = lit "web" ++ lit "_" ++ str_of_nat r /\
    name (unique_name [lit "web"; lit "web_1"; lit "web_3"]
            (set_name (lit "web") default_config)) = lit "web_2".
Proof.
  destruct (X26_unique_name_least_suffix [lit "web"; lit "web_1"; lit "web_3"]
              (set_name (lit "web") default_config)) as (_ & _ & _ & H).
  destruct H as (r & Hr & Hname & _).
  - apply (bool_decide_eq_true_1 _). vm_compute. reflexivity.
  - exists r. split; [exact Hr|]. split; [exact Hname|].
    vm_compute. reflexivity.
Defined.
